(** * win-store: the capture-and-normalization pipeline of the background script

    A shallow embedding of the background coordinator (the debugger-event
    listener, [parseSoldText], [processItems], [getResponseBody], the
    dispatcher) and of the overlay's [mergeProducts].

    Conventions of the embedding:
    - a JavaScript string is the list of its UTF-16 code units ([jstring]);
    - a JavaScript number read from a payload is an exact rational ([Q]),
      and [x / 100000] and the sums over them are exact; [parseSoldText],
      whose result depends on it, computes on IEEE 754 doubles: its
      [parseFloat] and its products round to the nearest double and give
      [Infinity] on overflow;
    - a property that may be absent ([undefined] or [null]) is an [option];
    - a JavaScript [Map] is an insertion-ordered association list;
    - the module-level [Record<number, _>] tables are [gmap Z _];
    - a payload field is read at the type the script uses it at (a number
      where it computes, a string where it parses, an array where it
      iterates); payloads that put another type there are outside the
      embedding. *)

From Stdlib Require Import ZArith QArith Qpower Qround Lia Lqa String Ascii Sorted.
From stdpp Require Import gmap list.
From Equations Require Import Equations.

Local Open Scope Z_scope.

(** ** JavaScript values *)

Module Js.

Definition jstring := list N.

(** The code units of an ASCII literal. *)
Fixpoint js (s : string) : jstring :=
  match s with
  | EmptyString => []
  | String c r => N_of_ascii c :: js r
  end.

(** Truthiness of a number: every number but 0 (and NaN, which [Q] lacks). *)
Definition truthy (x : Q) : bool := negb (Qeq_bool x 0).

(** [a || b] where [a] is a possibly absent number. *)
Definition num_or (a : option Q) (b : Q) : Q :=
  match a with
  | Some x => if truthy x then x else b
  | None => b
  end.

(** [a || b] where [a] is a possibly absent string; the empty string is falsy. *)
Definition str_or (a : option jstring) (b : jstring) : jstring :=
  match a with
  | Some (c :: r) => c :: r
  | _ => b
  end.

(** [a || b] on identifiers: absent and 0 are falsy. *)
Definition id_or (a b : option Z) : option Z :=
  match a with
  | Some x => if Z.eqb x 0 then b else Some x
  | None => b
  end.

(** [String.prototype.startsWith] and [String.prototype.includes]. *)
Fixpoint starts_with (needle s : jstring) : bool :=
  match needle, s with
  | [], _ => true
  | _ :: _, [] => false
  | a :: n', b :: s' => N.eqb a b && starts_with n' s'
  end.

Fixpoint includes (s needle : jstring) : bool :=
  starts_with needle s ||
  match s with
  | [] => false
  | _ :: s' => includes s' needle
  end.

(** *** IEEE 754 binary64, for [parseSoldText] *)

(** A value or [Infinity]: [ext Q] holds the doubles that are neither NaN
    nor negative, [ext Z] the whole numbers among them. *)
Inductive ext (A : Type) := Finite (x : A) | Infinity.
Arguments Finite {A} x.
Arguments Infinity {A}.

Definition double := ext Q.

(** [2^e] for an integer [e] of either sign. *)
Definition pow2 (e : Z) : Q := Qpower 2 e.

(** [floor (log2 x)] for [x > 0]: the difference of the bit lengths of
    numerator and denominator, or one less. *)
Definition ilog2 (x : Q) : Z :=
  let k := (Z.log2 (Qnum x) - Z.log2 (Zpos (Qden x)))%Z in
  if Qle_bool (pow2 k) x then k else (k - 1)%Z.

(** The integer nearest to [x], ties to the even one. *)
Definition round_half_even (x : Q) : Z :=
  let f := Qfloor x in
  match Qcompare (x - inject_Z f) (1 # 2) with
  | Lt => f
  | Gt => (f + 1)%Z
  | Eq => if Z.even f then f else (f + 1)%Z
  end.

(** The double nearest to a real [x >= 0], ties to the even significand
    (roundTiesToEven): 53 significant bits, the last of them worth at least
    2^-1074 (subnormals), and [Infinity] once the rounded value reaches
    2^1024. *)
Definition nearest_double (x : Q) : double :=
  if Qle_bool x 0 then Finite 0%Q
  else
    let e := Z.max (ilog2 x - 52) (-1074) in
    let m := round_half_even (x / pow2 e) in
    let y := (inject_Z m * pow2 e)%Q in
    if Qle_bool (pow2 1024) y then Infinity else Finite y.

(** [a * k] for a double [a] and a finite [k > 0]: the product is rounded;
    [Infinity * k] is [Infinity]. *)
Definition times (a : double) (k : Q) : double :=
  match a with
  | Finite x => nearest_double (x * k)
  | Infinity => Infinity
  end.

(** [Math.round] on a finite number: the integer nearest to [x], ties
    towards plus infinity. It is exact: a double with a fractional part is
    below 2^52. *)
Definition round_half_up (x : Q) : Z := Qfloor (x + (1 # 2))%Q.

(** [Math.round]; [Math.round(Infinity)] is [Infinity]. *)
Definition Math_round (a : double) : ext Z :=
  match a with
  | Finite x => Finite (round_half_up x)
  | Infinity => Infinity
  end.

(** [a || b] where [a] is a whole number or [Infinity] (truthy). *)
Definition whole_or (a : ext Z) (b : Q) : double :=
  match a with
  | Finite n => if Z.eqb n 0 then Finite b else Finite (inject_Z n)
  | Infinity => Infinity
  end.

(** [a + b] on sold counts: [Infinity] absorbs, and the sum of two whole
    numbers is the exact one, which is the double sum as long as it stays
    below 2^53. *)
Definition plus (a b : ext Z) : ext Z :=
  match a, b with
  | Finite x, Finite y => Finite (x + y)%Z
  | _, _ => Infinity
  end.

(** [Array.prototype.sort] with a numeric comparator: a stable sort, here
    by insertion. [cmp a b <= 0] keeps [a] before [b]. *)
Fixpoint insert_sorted {A} (cmp : A -> A -> Z) (x : A) (l : list A) : list A :=
  match l with
  | [] => [x]
  | y :: r => if (cmp x y <=? 0)%Z then x :: l else y :: insert_sorted cmp x r
  end.

Definition sort {A} (cmp : A -> A -> Z) (l : list A) : list A :=
  foldr (insert_sorted cmp) [] l.

End Js.
Import Js.

(** ** The sold-count text parser *)

Module SoldText.

(** [\d]: ASCII digits only. *)
Definition is_digit (c : N) : bool := (48 <=? c)%N && (c <=? 57)%N.

(** [[.,]] *)
Definition is_sep (c : N) : bool := (c =? 46)%N || (c =? 44)%N.

(** [\s]: the WhiteSpace and LineTerminator code units of ECMAScript. *)
Definition is_space (c : N) : bool :=
  ((9 <=? c)%N && (c <=? 13)%N) || (c =? 32)%N || (c =? 160)%N ||
  (c =? 5760)%N || ((8192 <=? c)%N && (c <=? 8202)%N) ||
  (c =? 8232)%N || (c =? 8233)%N || (c =? 8239)%N || (c =? 8287)%N ||
  (c =? 12288)%N || (c =? 65279)%N.

(** Matching one pattern letter under the [i] flag: the letter or its
    lower-case form (no code unit outside ASCII canonicalizes to ASCII). *)
Definition is_letter (upper : N) (c : N) : bool :=
  (c =? upper)%N || (c =? upper + 32)%N.

(** Greedy repetition [p*]: the longest prefix satisfying [p], and the rest. *)
Fixpoint span (p : N -> bool) (s : jstring) : jstring * jstring :=
  match s with
  | [] => ([], [])
  | c :: r => if p c then let '(a, b) := span p r in (c :: a, b) else ([], s)
  end.

(** [(?:[.,]\d+)?] at the head of [s]: the matched text and the rest. *)
Definition match_fraction (s : jstring) : jstring * jstring :=
  match s with
  | c :: r =>
      if is_sep c then
        match span is_digit r with
        | ([], _) => ([], s)
        | (fd, r') => (c :: fd, r')
        end
      else ([], s)
  | [] => ([], s)
  end.

(** [(RB|JT)?] at the head of [s], case-insensitive. *)
Definition match_unit (s : jstring) : option jstring :=
  match s with
  | a :: b :: _ =>
      if is_letter 82 a && is_letter 66 b then Some [a; b]
      else if is_letter 74 a && is_letter 84 b then Some [a; b]
      else None
  | _ => None
  end.

(** One attempt of [/(\d+(?:[.,]\d+)?)\s*(RB|JT)?/i] anchored at the head of
    [s]. Everything after [\d+] can match the empty string, so the greedy
    choice is the match the backtracking engine returns. The result holds
    capture groups 1 and 2. *)
Definition match_here (s : jstring) : option (jstring * option jstring) :=
  match span is_digit s with
  | ([], _) => None
  | (ds, r1) =>
      let '(fr, r2) := match_fraction r1 in
      let '(_, r3) := span is_space r2 in
      Some (ds ++ fr, match_unit r3)
  end.

(** [text.match(re)] without the global flag: the attempt at the leftmost
    index that succeeds. *)
Fixpoint regex_match (s : jstring) : option (jstring * option jstring) :=
  match match_here s with
  | Some m => Some m
  | None =>
      match s with
      | [] => None
      | _ :: r => regex_match r
      end
  end.

(** [s.replace(",", ".")]: the first comma only. *)
Fixpoint replace_comma (s : jstring) : jstring :=
  match s with
  | [] => []
  | c :: r => if (c =? 44)%N then 46%N :: r else c :: replace_comma r
  end.

(** The value of a run of decimal digits. *)
Definition digits_val (ds : jstring) : Z :=
  fold_left (fun acc c => 10 * acc + (Z.of_N c - 48)) ds 0.

(** The rational [i.f] written with integer digits [i] and fraction digits [f]. *)
Definition decimal (ids fds : jstring) : Q :=
  (inject_Z (digits_val ids) +
   inject_Z (digits_val fds) / inject_Z (10 ^ Z.of_nat (length fds)))%Q.

(** [parseFloat] on the texts capture group 1 can hold: digits, then
    optionally a dot and digits. The result is the double nearest to the
    decimal value; for a text of more than 20 significant digits, where
    ECMAScript leaves the engine a choice, this is what V8 returns. *)
Definition parseFloat (s : jstring) : double :=
  let '(ids, r) := span is_digit s in
  match r with
  | c :: r' =>
      if (c =? 46)%N then nearest_double (decimal ids (fst (span is_digit r')))
      else nearest_double (decimal ids [])
  | [] => nearest_double (decimal ids [])
  end.

(** [toUpperCase] on the letters capture group 2 can hold. *)
Definition toUpperCase (s : jstring) : jstring :=
  map (fun c => if (97 <=? c)%N && (c <=? 122)%N then (c - 32)%N else c) s.

Definition jstring_eqb (a b : jstring) : bool := bool_decide (a = b).

Definition parseSoldText (text : jstring) : ext Z :=
  match text with
  | [] => Finite 0
  | _ =>
      match regex_match text with
      | None => Finite 0
      | Some (g1, g2) =>
          let num := parseFloat (replace_comma g1) in
          let unit := option_map toUpperCase g2 in
          let num :=
            match unit with
            | Some u =>
                if jstring_eqb u (js "JT") then times num 1000000
                else if jstring_eqb u (js "RB") then times num 1000
                else num
            | None => num
            end in
          Math_round num
      end
  end.

End SoldText.
Import SoldText.

(** ** The response classifier: the [chrome.debugger.onEvent] listener *)

Module Classifier.

Inductive Kind := shop | pdp | search | category | products.

Definition url_shop := js "/api/v4/shop/get_shop_base".
Definition url_pdp := js "/api/v4/pdp/get_pc".
Definition url_search := js "/api/v4/search/search_items".
Definition url_category := js "/api/v4/recommend/recommend_v2".
Definition url_products : list jstring :=
  [ js "/api/v4/recommend/recommend";
    js "/api/v4/shop/rcmd_items";
    js "/api/v4/pdp/list_by_category";
    js "shop_page_category_tab";
    js "/api/v4/pages/get_homepage_category_list" ].

(** The body of the [Network.responseReceived] case: the kinds
    [getResponseBody] is called with, in call order. The two [return]
    statements end the listener after the search and the category call. *)
Definition responseReceived (url : jstring) : list Kind :=
  let c1 := if includes url url_shop then [shop] else [] in
  let c2 := if includes url url_pdp then [pdp] else [] in
  if includes url url_search then c1 ++ c2 ++ [search]
  else if includes url url_category then c1 ++ c2 ++ [category]
  else if existsb (includes url) url_products then c1 ++ c2 ++ [products]
  else c1 ++ c2.

(** The listener: [method] is the event name, [url] is
    [params.response?.url], absent when the event carries none. *)
Definition onEvent (method : jstring) (url : option jstring) : list Kind :=
  if bool_decide (method = js "Network.responseReceived")
  then responseReceived (str_or url [])
  else [].

End Classifier.

(** ** Raw payload shapes shared by the product-list and category endpoints *)

Module PriceInfo.
Record t := { price : option Q; strikethrough_price : option Q; discount : option Q }.
Definition empty : t := {| price := None; strikethrough_price := None; discount := None |}.
End PriceInfo.

Module SoldInfo.
Record t := { historical_sold_count_text : option jstring;
              monthly_sold_count_text : option jstring }.
Definition empty : t :=
  {| historical_sold_count_text := None; monthly_sold_count_text := None |}.
End SoldInfo.

Module RatingInfo.
Record t := { rating_star : option Q; rating_count : option (list Q) }.
Definition empty : t := {| rating_star := None; rating_count := None |}.
(** [ratingInfo.rating_count?.[0]] *)
Definition first_count (r : t) : option Q :=
  match rating_count r with
  | Some (x :: _) => Some x
  | _ => None
  end.
End RatingInfo.

(** [x || {}] for a possibly absent sub-object. *)
Definition or_empty {A} (x : option A) (empty : A) : A :=
  match x with Some a => a | None => empty end.

(** ** The JavaScript [Map] keyed by item or shop id *)

Module JsMap.

Definition t (V : Type) := list (Z * V).

Definition has {V} (m : t V) (k : Z) : bool := existsb (fun e => Z.eqb (fst e) k) m.

Fixpoint get {V} (m : t V) (k : Z) : option V :=
  match m with
  | [] => None
  | (k', v) :: r => if Z.eqb k' k then Some v else get r k
  end.

(** [m.set(k, v)]: an existing key keeps its position, a new key goes last. *)
Fixpoint set {V} (k : Z) (v : V) (m : t V) : t V :=
  match m with
  | [] => [(k, v)]
  | (k', v') :: r => if Z.eqb k' k then (k, v) :: r else (k', v') :: set k v r
  end.

(** Setting the entries of [kvs] one after the other. *)
Definition set_all {V} (kvs : list (Z * V)) (m : t V) : t V :=
  fold_left (fun m e => set e.1 e.2 m) kvs m.

Definition keys {V} (m : t V) : list Z := fst <$> m.
Definition values {V} (m : t V) : list V := snd <$> m.
Definition size {V} (m : t V) : nat := length m.

End JsMap.

(** ** Product-list normalization and the per-tab store: [processItems] *)

Module Item.
Record DisplayAsset := { asset_name : option jstring; asset_image : option jstring }.
Definition no_asset : DisplayAsset := {| asset_name := None; asset_image := None |}.
Record t := {
  itemid : option Z;
  item_id : option Z;
  shopid : option Z;
  item_card_display_price : option PriceInfo.t;
  price : option Q;
  discount : option Q;
  item_card_display_sold_count : option SoldInfo.t;
  historical_sold : option Q;
  item_rating : option RatingInfo.t;
  item_card_displayed_asset : option DisplayAsset;
  name : option jstring;
  image : option jstring;
  stock : option Q;
  liked_count : option Q;
  cmt_count : option Q;
  ctime : option Q;
  catid : option Q;
  global_brand_display_name : option jstring;   (* item.global_brand?.display_name *)
  brand : option jstring
}.
End Item.

Module Product.
Record t := {
  itemid : Z;
  shopid : option Z;
  name : jstring;
  price : Q;
  original_price : Q;
  discount : Q;
  historical_sold : double;
  historical_sold_text : jstring;
  monthly_sold : double;
  monthly_sold_text : jstring;
  stock : Q;
  rating_star : Q;
  rating_count : Q;
  liked_count : Q;
  comment_count : Q;
  image : jstring;
  ctime : Q;
  catid : Q;
  brand : jstring
}.
End Product.

(** An opaque JSON value, for payload parts the script stores or forwards
    without looking inside. *)
#[local] Unset Elimination Schemes.
Inductive json :=
| JNull
| JBool (b : bool)
| JNum (x : Q)
| JStr (s : jstring)
| JArr (l : list json)
| JObj (fields : list (jstring * json)).
#[local] Set Elimination Schemes.

Definition json_truthy (v : json) : bool :=
  match v with
  | JNull => false
  | JBool b => b
  | JNum x => truthy x
  | JStr s => match s with [] => false | _ => true end
  | JArr _ | JObj _ => true
  end.

Module Store.

Local Open Scope Q_scope.

Record ShopData := {
  shopInfo : option json;
  products : JsMap.t Product.t;
  totalCaptured : nat;
  totalExpected : Q
}.

(** [{ products: new Map(), totalCaptured: 0, totalExpected: 0 }] *)
Definition fresh : ShopData :=
  {| shopInfo := None; products := []; totalCaptured := 0%nat; totalExpected := 0 |}.

(** [if (!shopDataByTab[tabId]) shopDataByTab[tabId] = {...}] *)
Definition ensure (tabId : Z) (tbl : gmap Z ShopData) : gmap Z ShopData :=
  match tbl !! tabId with
  | Some _ => tbl
  | None => <[tabId := fresh]> tbl
  end.

(** The entry of a tab that is known to have one. *)
Definition entry (tabId : Z) (tbl : gmap Z ShopData) : ShopData :=
  default fresh (tbl !! tabId).

(** [priceInfo.price || item.price || 0] *)
Definition input_price (item : Item.t) : Q :=
  let priceInfo := or_empty (Item.item_card_display_price item) PriceInfo.empty in
  num_or (PriceInfo.price priceInfo) (num_or (Item.price item) 0).

(** [priceInfo.strikethrough_price || 0] *)
Definition input_strikethrough (item : Item.t) : Q :=
  let priceInfo := or_empty (Item.item_card_display_price item) PriceInfo.empty in
  num_or (PriceInfo.strikethrough_price priceInfo) 0.

(** [price] and [strikethroughPrice] after the rescale. *)
Definition prices (item : Item.t) : Q * Q :=
  let price := input_price item in
  let strikethroughPrice := input_strikethrough item in
  if Qlt_le_dec 1000000 price
  then (price / 100000, strikethroughPrice / 100000)
  else (price, strikethroughPrice).

(** [item.itemid || item.item_id], nothing when the result is falsy (the
    callback returns at once). *)
Definition key_of (item : Item.t) : option Z :=
  match id_or (Item.itemid item) (Item.item_id item) with
  | Some itemId => if Z.eqb itemId 0%Z then None else Some itemId
  | None => None
  end.

(** The callback of [items.forEach]: the key and the record handed to
    [products.set], or nothing for an item without an id. *)
Definition normalize (item : Item.t) : option (Z * Product.t) :=
  match key_of item with
  | None => None
  | Some itemId =>
      let priceInfo := or_empty (Item.item_card_display_price item) PriceInfo.empty in
      let '(price, strikethroughPrice) := prices item in
      let soldInfo := or_empty (Item.item_card_display_sold_count item) SoldInfo.empty in
      let historicalSoldText := str_or (SoldInfo.historical_sold_count_text soldInfo) [] in
      let monthlySoldText := str_or (SoldInfo.monthly_sold_count_text soldInfo) [] in
      let historicalSold :=
        whole_or (parseSoldText historicalSoldText)
                 (num_or (Item.historical_sold item) 0) in
      let monthlySold := whole_or (parseSoldText monthlySoldText) 0 in
      let ratingInfo := or_empty (Item.item_rating item) RatingInfo.empty in
      let ratingCount := num_or (RatingInfo.first_count ratingInfo) 0 in
      let displayAsset := or_empty (Item.item_card_displayed_asset item) Item.no_asset in
      Some (itemId,
        {| Product.itemid := itemId;
           Product.shopid := Item.shopid item;
           Product.name := str_or (Item.asset_name displayAsset) (str_or (Item.name item) []);
           Product.price := price;
           Product.original_price := if truthy strikethroughPrice then strikethroughPrice else price;
           Product.discount := num_or (PriceInfo.discount priceInfo) (num_or (Item.discount item) 0);
           Product.historical_sold := historicalSold;
           Product.historical_sold_text := historicalSoldText;
           Product.monthly_sold := monthlySold;
           Product.monthly_sold_text := monthlySoldText;
           Product.stock := num_or (Item.stock item) 0;
           Product.rating_star := num_or (RatingInfo.rating_star ratingInfo) 0;
           Product.rating_count := ratingCount;
           Product.liked_count := num_or (Item.liked_count item) 0;
           Product.comment_count := num_or (Item.cmt_count item) 0;
           Product.image := str_or (Item.asset_image displayAsset) (str_or (Item.image item) []);
           Product.ctime := num_or (Item.ctime item) 0;
           Product.catid := num_or (Item.catid item) 0;
           Product.brand := str_or (Item.global_brand_display_name item)
                                   (str_or (Item.brand item) []) |})
  end.

(** One turn of [items.forEach] on the product map. *)
Definition upsert (m : JsMap.t Product.t) (item : Item.t) : JsMap.t Product.t :=
  match normalize item with
  | Some (k, p) => JsMap.set k p m
  | None => m
  end.

Definition processItems (tabId : Z) (items : list Item.t) (totalFromApi : option Q)
    (tbl : gmap Z ShopData) : gmap Z ShopData :=
  let tbl := ensure tabId tbl in
  let d := entry tabId tbl in
  let expected :=
    match totalFromApi with
    | Some n => if truthy n then n else totalExpected d
    | None => totalExpected d
    end in
  let products' := fold_left upsert items (products d) in
  <[tabId := {| shopInfo := shopInfo d;
                products := products';
                totalCaptured := JsMap.size products';
                totalExpected := expected |}]> tbl.

End Store.

(** ** Category normalization: the category branch of [getResponseBody] *)

Module Category.

Local Open Scope Q_scope.

Record ShopD := { shop_name : option jstring; shop_location : option jstring }.
Definition no_shop : ShopD := {| shop_name := None; shop_location := None |}.

Record ItemData := {
  itemid : option Z;
  shopid : option Z;
  shop_data : option ShopD;
  item_card_display_price : option PriceInfo.t;
  item_card_display_sold_count : option SoldInfo.t;
  item_rating : option RatingInfo.t;
  liked_count : option Q
}.
Definition no_item_data : ItemData :=
  {| itemid := None; shopid := None; shop_data := None;
     item_card_display_price := None; item_card_display_sold_count := None;
     item_rating := None; liked_count := None |}.

Record Asset := {
  seller_flag_name : option jstring;   (* displayAsset.seller_flag?.name *)
  name : option jstring;
  image : option jstring
}.
Definition no_asset : Asset := {| seller_flag_name := None; name := None; image := None |}.

Record UnitItem := { item_data : option ItemData; item_card_displayed_asset : option Asset }.
Record Unit := { data_type : option jstring; item : option UnitItem }.

Record CatProduct := {
  p_itemid : option Z;
  p_shopid : option Z;
  p_name : jstring;
  p_image : jstring;
  price : Q;
  originalPrice : Q;
  discount : Q;
  historicalSold : ext Z;
  historicalSoldText : jstring;
  monthlySold : ext Z;
  monthlySoldText : jstring;
  rating : Q;
  ratingCount : Q;
  likedCount : Q;
  isOfficialShop : bool;
  isPreferredPlus : bool;
  p_shopName : jstring;
  p_shopLocation : jstring
}.

(** The accumulator kept in [officialStoresMap]; it has no average. *)
Record StoreAcc := {
  a_shopid : Z;
  a_shopName : jstring;
  a_shopLocation : jstring;
  a_productCount : Z;
  a_totalSold : ext Z;
  a_totalRating : Q;
  a_ratingSum : Z
}.

(** An element of the [officialStores] array: the accumulator's fields
    spread, plus [avgRating]. *)
Record OfficialStore := {
  shopid_of : Z;
  shopName : jstring;
  shopLocation : jstring;
  productCount : Z;
  totalSold : ext Z;
  totalRating : Q;
  ratingSum : Z;
  avgRating : Q
}.

(** [priceInfo.price || 0] *)
Definition input_price (priceInfo : PriceInfo.t) : Q :=
  num_or (PriceInfo.price priceInfo) 0.

(** [price] and [originalPrice] after the rescale. *)
Definition prices (priceInfo : PriceInfo.t) : Q * Q :=
  let price := input_price priceInfo in
  let originalPrice := num_or (PriceInfo.strikethrough_price priceInfo) price in
  if Qlt_le_dec 1000000 price
  then (price / 100000, originalPrice / 100000)
  else (price, originalPrice).

(** The [priceInfo] of a unit's item. *)
Definition price_info (u : UnitItem) : PriceInfo.t :=
  or_empty (item_card_display_price (or_empty (item_data u) no_item_data)) PriceInfo.empty.

Definition product_of (u : UnitItem) : CatProduct :=
  let itemData := or_empty (item_data u) no_item_data in
  let displayAsset := or_empty (item_card_displayed_asset u) no_asset in
  let shopData := or_empty (shop_data itemData) no_shop in
  let sellerFlag := str_or (seller_flag_name displayAsset) [] in
  let priceInfo := or_empty (item_card_display_price itemData) PriceInfo.empty in
  let '(price, originalPrice) := prices priceInfo in
  let soldInfo := or_empty (item_card_display_sold_count itemData) SoldInfo.empty in
  let historicalSoldText := str_or (SoldInfo.historical_sold_count_text soldInfo) [] in
  let monthlySoldText := str_or (SoldInfo.monthly_sold_count_text soldInfo) [] in
  let ratingInfo := or_empty (item_rating itemData) RatingInfo.empty in
  {| p_itemid := itemid itemData;
     p_shopid := shopid itemData;
     p_name := str_or (name displayAsset) [];
     p_image := str_or (image displayAsset) [];
     price := price;
     originalPrice := originalPrice;
     discount := num_or (PriceInfo.discount priceInfo) 0;
     historicalSold := parseSoldText historicalSoldText;
     historicalSoldText := historicalSoldText;
     monthlySold := parseSoldText monthlySoldText;
     monthlySoldText := monthlySoldText;
     rating := num_or (RatingInfo.rating_star ratingInfo) 0;
     ratingCount := num_or (RatingInfo.first_count ratingInfo) 0;
     likedCount := num_or (liked_count itemData) 0;
     isOfficialShop := jstring_eqb sellerFlag (js "OFFICIAL_SHOP");
     isPreferredPlus := jstring_eqb sellerFlag (js "PREFERRED_PLUS");
     p_shopName := str_or (shop_name shopData) [];
     p_shopLocation := str_or (shop_location shopData) [] |}.

(** The "track official stores" step for a product just pushed. *)
Definition track (p : CatProduct) (m : JsMap.t StoreAcc) : JsMap.t StoreAcc :=
  match p_shopid p with
  | Some sid =>
      if isOfficialShop p && negb (Z.eqb sid 0) then
        match JsMap.get m sid with
        | Some existing =>
            JsMap.set sid
              {| a_shopid := a_shopid existing;
                 a_shopName := a_shopName existing;
                 a_shopLocation := a_shopLocation existing;
                 a_productCount := (a_productCount existing + 1)%Z;
                 a_totalSold := plus (a_totalSold existing) (historicalSold p);
                 a_totalRating := a_totalRating existing + rating p;
                 a_ratingSum := (a_ratingSum existing + 1)%Z |} m
        | None =>
            JsMap.set sid
              {| a_shopid := sid;
                 a_shopName := p_shopName p;
                 a_shopLocation := p_shopLocation p;
                 a_productCount := 1;
                 a_totalSold := historicalSold p;
                 a_totalRating := rating p;
                 a_ratingSum := 1 |} m
        end
      else m
  | None => m
  end.

(** The callback of [units.forEach]: the state is the [products] array and
    [officialStoresMap], both updated in the same turn. *)
Definition visit (acc : list CatProduct * JsMap.t StoreAcc) (unit : Unit)
    : list CatProduct * JsMap.t StoreAcc :=
  match item unit with
  | Some u =>
      if jstring_eqb (str_or (data_type unit) []) (js "item") then
        let p := product_of u in
        (fst acc ++ [p], track p (snd acc))
      else acc
  | None => acc
  end.

(** The [.map(store => ({...store, avgRating: ...}))] step. *)
Definition with_average (s : StoreAcc) : OfficialStore :=
  {| shopid_of := a_shopid s;
     shopName := a_shopName s;
     shopLocation := a_shopLocation s;
     productCount := a_productCount s;
     totalSold := a_totalSold s;
     totalRating := a_totalRating s;
     ratingSum := a_ratingSum s;
     avgRating := if (0 <? a_ratingSum s)%Z
                  then a_totalRating s / inject_Z (a_ratingSum s) else 0 |}.

(** [(a, b) => b.productCount - a.productCount] *)
Definition by_count_desc (a b : OfficialStore) : Z := (productCount b - productCount a)%Z.

(** What the branch computes from a non-empty [units] array. *)
Definition normalize (units : list Unit) : list CatProduct * list OfficialStore :=
  let '(products, officialStoresMap) := fold_left visit units ([], []) in
  (products, sort by_count_desc (map with_average (JsMap.values officialStoresMap))).

(** What holds of [officialStoresMap] throughout the traversal: one entry
    per shop id, filed under its own id, with as many rating samples as
    products, at least one. *)
Definition stores_inv (m : JsMap.t StoreAcc) : Prop :=
  NoDup (JsMap.keys m) /\
  Forall (fun e => a_shopid e.2 = e.1 /\ a_ratingSum e.2 = a_productCount e.2 /\
                   (1 <= a_productCount e.2)%Z) m.

End Category.

(** ** Product-detail normalization: the pdp branch of [getResponseBody] *)

Module Pdp.

Local Open Scope Q_scope.

Record Model := {
  model_id : option Z;
  modelid : option Z;
  name : option jstring;
  price : option Q;
  price_before_discount : option Q;
  stock : option Q;
  normal_stock : option Q;
  sold : option Q
}.

(** The fields of the detail item read by the price, stock and variant part
    of [productInfo]. *)
Record PdpItem := {
  item_id : option Z;
  itemid : option Z;
  shop_id : option Z;
  shopid : option Z;
  title : option jstring;
  i_name : option jstring;
  i_price : option Q;
  price_min : option Q;
  price_max : option Q;
  i_price_before_discount : option Q;
  raw_discount : option Q;
  show_discount : option Q;
  i_stock : option Q;
  i_normal_stock : option Q;
  i_sold : option Q;
  models : option (list Model)
}.

(** [data.data]: its [item] sub-object when present, and its own fields
    read as an item, which the script falls back to. *)
Record PdpData := { item : option PdpItem; own : PdpItem }.

Record ModelInfo := {
  mi_modelid : option Z;
  mi_name : jstring;
  mi_price : Q;
  mi_price_before_discount : Q;
  mi_stock : Q;
  mi_sold : Q
}.

(** The identity, price, stock and variant fields of [productInfo]. The
    fields left out (review statistics, images, categories, the [shop_info]
    sub-record, pre-order data) are copied with defaults and involve no
    price. *)
Record ProductInfo := {
  o_itemid : option Z;
  o_shopid : option Z;
  o_name : jstring;
  o_price : Q;
  o_price_min : Q;
  o_price_max : Q;
  o_price_before_discount : Q;
  o_discount : Q;
  o_stock : Q;
  o_normal_stock : Q;
  o_sold : Q;
  o_models : list ModelInfo
}.

(** [v ? v / 100000 : 0] *)
Definition scaled (v : option Q) : Q :=
  match v with
  | Some x => if truthy x then x / 100000 else 0
  | None => 0
  end.

Definition model_of (m : Model) : ModelInfo :=
  {| mi_modelid := id_or (model_id m) (modelid m);
     mi_name := str_or (name m) [];
     mi_price := scaled (price m);
     mi_price_before_discount := scaled (price_before_discount m);
     mi_stock := num_or (stock m) (num_or (normal_stock m) 0);
     mi_sold := num_or (sold m) 0 |}.

(** [(a, b) => b.sold - a.sold], on numbers that need not be integers: only
    the sign matters. *)
Definition by_sold_desc (a b : ModelInfo) : Z :=
  match Qcompare (mi_sold b) (mi_sold a) with Lt => (-1)%Z | Eq => 0%Z | Gt => 1%Z end.

(** [productInfo] as it is sent: the variant breakdown that is logged
    before sending sorts [productInfo.models] in place. *)
Definition normalize (pdpData : PdpData) : ProductInfo :=
  let it := or_empty (item pdpData) (own pdpData) in
  {| o_itemid := id_or (item_id it) (itemid it);
     o_shopid := id_or (shop_id it) (shopid it);
     o_name := str_or (title it) (str_or (i_name it) []);
     o_price := scaled (i_price it);
     o_price_min := scaled (price_min it);
     o_price_max := scaled (price_max it);
     o_price_before_discount := scaled (i_price_before_discount it);
     o_discount := num_or (raw_discount it) (num_or (show_discount it) 0);
     o_stock := num_or (i_stock it) (num_or (i_normal_stock it) 0);
     o_normal_stock := num_or (i_normal_stock it) 0;
     o_sold := num_or (i_sold it) 0;
     o_models := sort by_sold_desc (map model_of (or_empty (models it) [])) |}.

End Pdp.

(** ** The background script's state, the try block of [getResponseBody]
       and the dispatcher *)

Module Background.

Local Open Scope Q_scope.

(** [data] of a SHOPEE_DATA_UPDATE message and of a GET_CAPTURED_DATA
    response. *)
Record Snapshot := {
  s_shopInfo : option json;
  s_products : list Product.t;
  totalProducts : nat;
  s_totalExpected : Q
}.

Record SearchCache := { items : list json; totalCount : Q; timestamp : Q }.

Record CategoryCache := {
  c_products : list Category.CatProduct;
  officialStores : list Category.OfficialStore;
  c_totalCount : Q;
  c_timestamp : Q
}.

(** The three module-level tables. *)
Record World := {
  shopDataByTab : gmap Z Store.ShopData;
  categoryDataByTab : gmap Z CategoryCache;
  searchDataByTab : gmap Z SearchCache
}.

Definition initial : World :=
  {| shopDataByTab := ∅; categoryDataByTab := ∅; searchDataByTab := ∅ |}.

Inductive Message :=
| SHOPEE_DATA_UPDATE (data : Snapshot)
| SHOPEE_SEARCH_UPDATE (data : SearchCache)
| SHOPEE_CATEGORY_UPDATE (data : CategoryCache)
| SHOPEE_PDP_UPDATE (data : Pdp.ProductInfo).

Inductive Response :=
| CapturedData (data : option Snapshot)
| CategoryData (data : option CategoryCache)
| SearchData (data : option SearchCache)
| Success.

(** What the script does to the outside, in order. *)
Inductive Action :=
| Sleep (ms : Z)
| SendCommand                                (* Network.getResponseBody *)
| SendMessage (tabId : Z) (m : Message)      (* chrome.tabs.sendMessage *)
| Respond (r : Response)                     (* sendResponse *)
| AttachDebugger (tabId : Z)
| DetachDebugger (tabId : Z)
| LogRetry (attempt : nat)
| LogError (message : jstring).

(** The parsed response body, by the kind it was fetched for. *)
Record ProductsBody := {
  pb_item_cards : option (list Item.t);   (* data.data?.centralize_item_card?.item_cards *)
  pb_data_items : option (list Item.t);   (* data.data?.items *)
  pb_items : option (list Item.t);        (* data.items *)
  pb_total : option Q                     (* data.data.total *)
}.

Record SearchBody := {
  sb_item_cards : option (list json);
  sb_data_items : option (list json);
  sb_items : option (list json);
  sb_data_total : option Q;
  sb_data_total_count : option Q;
  sb_total_count : option Q
}.

Record CategoryBody := {
  units : option (list Category.Unit);    (* data.data?.units *)
  cb_total : option Q                     (* data.data?.total *)
}.

Inductive Body :=
| ShopBody (data : option json)
| ProductsOf (b : ProductsBody)
| SearchOf (b : SearchBody)
| CategoryOf (b : CategoryBody)
| PdpBody (data : option Pdp.PdpData).

Definition snapshot (d : Store.ShopData) : Snapshot :=
  let productsArray := JsMap.values (Store.products d) in
  {| s_shopInfo := Store.shopInfo d;
     s_products := productsArray;
     totalProducts := length productsArray;
     s_totalExpected := Store.totalExpected d |}.

Definition notifyContentScript (tabId : Z) (w : World) : list Action :=
  match shopDataByTab w !! tabId with
  | Some data => [SendMessage tabId (SHOPEE_DATA_UPDATE (snapshot data))]
  | None => []
  end.

Definition with_shops (w : World) (tbl : gmap Z Store.ShopData) : World :=
  {| shopDataByTab := tbl;
     categoryDataByTab := categoryDataByTab w;
     searchDataByTab := searchDataByTab w |}.

(** The item list and the total picked by the products branch. *)
Definition products_items (b : ProductsBody) : list Item.t * Q :=
  match pb_item_cards b, pb_data_items b, pb_items b with
  | Some l, _, _ => (l, num_or (pb_total b) 0)
  | None, Some l, _ => (l, num_or (pb_total b) 0)
  | None, None, Some l => (l, 0)
  | None, None, None => ([], 0)
  end.

(** [fields.item_basic] of an object whose keys are distinct. *)
Fixpoint obj_get (k : jstring) (fields : list (jstring * json)) : option json :=
  match fields with
  | [] => None
  | (k', v) :: r => if jstring_eqb k' k then Some v else obj_get k r
  end.

(** [item.item_basic || item]; reading a property of [null] throws. *)
Definition item_basic_or (item : json) : option json :=
  match item with
  | JNull => None
  | JObj fields =>
      match obj_get (js "item_basic") fields with
      | Some v => Some (if json_truthy v then v else item)
      | None => Some item
      end
  | _ => Some item
  end.

(** [l.map(item => item.item_basic || item)], nothing when a turn throws. *)
Fixpoint unwrap_all (l : list json) : option (list json) :=
  match l with
  | [] => Some []
  | x :: r =>
      match item_basic_or x with
      | None => None
      | Some y => option_map (cons y) (unwrap_all r)
      end
  end.

Definition unwrap (l : list json) : option (list json) :=
  option_map (List.filter json_truthy) (unwrap_all l).

Definition length_Q {A} (l : list A) : Q := inject_Z (Z.of_nat (length l)).

(** The item list and [totalCount] picked by the search branch, nothing
    when the extraction throws. *)
Definition search_items (b : SearchBody) : option (list json * Q) :=
  match sb_item_cards b, sb_data_items b, sb_items b with
  | Some l, _, _ =>
      Some (l, num_or (sb_data_total b) (num_or (sb_data_total_count b) (length_Q l)))
  | None, Some l, _ =>
      option_map (fun l' =>
        (l', num_or (sb_data_total_count b) (num_or (sb_data_total b) (length_Q l'))))
        (unwrap l)
  | None, None, Some l =>
      option_map (fun l' => (l', num_or (sb_total_count b) (length_Q l'))) (unwrap l)
  | None, None, None => Some ([], 0)
  end.

Definition type_error : jstring :=
  js "Cannot read properties of null (reading 'item_basic')".

(** The try block of [getResponseBody] from [JSON.parse]'s result on: the
    world when the block is left, the messages it sent, and the message of
    the exception that ended it, if one did. [now] is [Date.now()]. *)
Definition process (tabId : Z) (body : Body) (now : Q) (w : World)
    : World * list Action * option jstring :=
  let w := with_shops w (Store.ensure tabId (shopDataByTab w)) in
  match body with
  | ShopBody data =>
      match data with
      | Some info =>
          if json_truthy info then
            let d := Store.entry tabId (shopDataByTab w) in
            let w := with_shops w
              (<[tabId := {| Store.shopInfo := Some info;
                             Store.products := Store.products d;
                             Store.totalCaptured := Store.totalCaptured d;
                             Store.totalExpected := Store.totalExpected d |}]>
                 (shopDataByTab w)) in
            (w, notifyContentScript tabId w, None)
          else (w, [], None)
      | None => (w, [], None)
      end
  | ProductsOf b =>
      let '(items, total) := products_items b in
      match items with
      | [] => (w, [], None)
      | _ =>
          let w := with_shops w (Store.processItems tabId items (Some total) (shopDataByTab w)) in
          (w, notifyContentScript tabId w, None)
      end
  | SearchOf b =>
      match search_items b with
      | None => (w, [], Some type_error)
      | Some ([], _) => (w, [], None)
      | Some (items, totalCount) =>
          let cache := {| items := items; totalCount := totalCount; timestamp := now |} in
          ({| shopDataByTab := shopDataByTab w;
              categoryDataByTab := categoryDataByTab w;
              searchDataByTab := <[tabId := cache]> (searchDataByTab w) |},
           [SendMessage tabId (SHOPEE_SEARCH_UPDATE cache)], None)
      end
  | CategoryOf b =>
      match or_empty (units b) [] with
      | [] => (w, [], None)
      | us =>
          let '(products, officialStores) := Category.normalize us in
          let cache := {| c_products := products; officialStores := officialStores;
                          c_totalCount := num_or (cb_total b) 0; c_timestamp := now |} in
          ({| shopDataByTab := shopDataByTab w;
              categoryDataByTab := <[tabId := cache]> (categoryDataByTab w);
              searchDataByTab := searchDataByTab w |},
           [SendMessage tabId (SHOPEE_CATEGORY_UPDATE cache)], None)
      end
  | PdpBody data =>
      match data with
      | Some pdpData => (w, [SendMessage tabId (SHOPEE_PDP_UPDATE (Pdp.normalize pdpData))], None)
      | None => (w, [], None)
      end
  end.

(** ** The body resolver *)

(** What one pass through the try block meets: the command resolves and the
    body parses, or [sendCommand] rejects or [JSON.parse] throws with the
    given message. *)
Inductive Attempt :=
| Parsed (body : Body)
| Rejected (message : jstring).

Definition MAX_RETRIES : nat := 3.
Definition RETRY_DELAY : Z := 200.
Definition no_data : jstring := js "No data found".

(** The try block of the pass with the given [retryCount]. *)
Definition try_block (tabId : Z) (a : Attempt) (now : Q) (w : World) (retryCount : nat)
    : World * list Action * option jstring :=
  let wait := if Nat.eqb retryCount 0 then [Sleep 100] else [] in
  match a with
  | Rejected message => (w, wait ++ [SendCommand], Some message)
  | Parsed body =>
      let '(w', sent, e) := process tabId body now w in
      (w', wait ++ [SendCommand] ++ sent, e)
  end.

(** [getResponseBody(tabId, requestId, type, retryCount)]. [attempt n] is
    what the pass with [retryCount = n] meets; the world is threaded through
    the passes as one task. The result is the world and the actions after
    the returned promise has settled; it settles by fulfilment on every
    path. *)
Equations getResponseBody (tabId : Z) (attempt : nat -> Attempt) (now : Q)
    (w : World) (retryCount : nat) : World * list Action
    by wf (MAX_RETRIES - retryCount)%nat lt :=
  getResponseBody tabId attempt now w retryCount
    with try_block tabId (attempt retryCount) now w retryCount := {
    | (w', done, None) => (w', done)
    | (w', done, Some errorMessage)
        with includes errorMessage no_data, lt_dec retryCount MAX_RETRIES := {
        | true, left _ =>
            let r := getResponseBody tabId attempt now w' (S retryCount) in
            (fst r, done ++ [LogRetry (S retryCount); Sleep RETRY_DELAY] ++ snd r)
        | _, _ => (w', done ++ [LogError errorMessage])
      }
  }.
Next Obligation. unfold MAX_RETRIES in *. lia. Qed.

(** ** Tab lifecycle and the pull requests *)

(** The part of [attachDebugger] that runs once both awaited commands have
    fulfilled; a rejected attach skips it. *)
Definition attached (tabId : Z) (w : World) : World :=
  with_shops w (Store.ensure tabId (shopDataByTab w)).

Definition reset (tabId : Z) (w : World) : World :=
  with_shops w (<[tabId := Store.fresh]> (shopDataByTab w)).

(** The [chrome.tabs.onUpdated] listener; [loading] is
    [changeInfo.status === "loading"]. *)
Definition tabs_onUpdated (tabId : Z) (loading : bool) (url : option jstring) (w : World)
    : World * list Action :=
  if loading && match url with Some u => includes u (js "shopee.co.id") | None => false end
  then (reset tabId w, [AttachDebugger tabId])
  else (w, []).

(** The [chrome.tabs.onRemoved] listener. *)
Definition tabs_onRemoved (tabId : Z) (w : World) : World * list Action :=
  (with_shops w (delete tabId (shopDataByTab w)), [DetachDebugger tabId]).

(** The message types the [chrome.runtime.onMessage] listener tells apart.
    [OtherRequest] stands for FETCH_PDP, a proxy fetch that reads and writes
    none of the tables, and for unknown types. *)
Inductive Request :=
| GET_CAPTURED_DATA
| FORCE_REFRESH_CAPTURE
| GET_CATEGORY_DATA
| GET_SEARCH_DATA
| OtherRequest.

(** The [chrome.runtime.onMessage] listener; [sender] is [sender.tab?.id]. *)
Definition onMessage (req : Request) (sender : option Z) (w : World) : World * list Action :=
  match sender with
  | None => (w, [])
  | Some tabId =>
      if Z.eqb tabId 0 then (w, []) else
      match req with
      | GET_CAPTURED_DATA =>
          match shopDataByTab w !! tabId with
          | Some data => (w, [Respond (CapturedData (Some (snapshot data)))])
          | None => (w, [AttachDebugger tabId; Respond (CapturedData None)])
          end
      | FORCE_REFRESH_CAPTURE => (reset tabId w, [AttachDebugger tabId; Respond Success])
      | GET_CATEGORY_DATA => (w, [Respond (CategoryData (categoryDataByTab w !! tabId))])
      | GET_SEARCH_DATA => (w, [Respond (SearchData (searchDataByTab w !! tabId))])
      | OtherRequest => (w, [])
      end
  end.

(** The tasks of the event loop that touch the tables. [Resolved] is a
    try block of [getResponseBody] that got a parsed body. *)
Inductive Event :=
| Updated (tabId : Z) (loading : bool) (url : option jstring)
| Attached (tabId : Z)
| Removed (tabId : Z)
| Resolved (tabId : Z) (body : Body) (now : Q)
| Asked (req : Request) (sender : option Z).

Definition step (w : World) (e : Event) : World * list Action :=
  match e with
  | Updated tabId loading url => tabs_onUpdated tabId loading url w
  | Attached tabId => (attached tabId w, [])
  | Removed tabId => tabs_onRemoved tabId w
  | Resolved tabId body now => let '(w', sent, _) := process tabId body now w in (w', sent)
  | Asked req sender => onMessage req sender w
  end.

(** The world after a sequence of tasks, and everything they did. *)
Fixpoint run (w : World) (es : list Event) : World * list Action :=
  match es with
  | [] => (w, [])
  | e :: r =>
      let '(w1, a1) := step w e in
      let '(w2, a2) := run w1 r in
      (w2, a1 ++ a2)
  end.





End Background.

(** ** The overlay's page merge: [mergeProducts] *)

Module Overlay.

(** The merged array, and [newCount] as the function logs it. *)
Definition mergeProducts (existing newProducts : list Product.t) : list Product.t * nat :=
  let productMap :=
    fold_left (fun m p => JsMap.set (Product.itemid p) p m) existing [] in
  let '(productMap, newCount) :=
    fold_left (fun '(m, n) p =>
                 (JsMap.set (Product.itemid p) p m,
                  if JsMap.has m (Product.itemid p) then n else S n))
              newProducts (productMap, 0%nat) in
  (JsMap.values productMap, newCount).

End Overlay.

(** ** Reading a resolver trace *)

Module Trace.

Import Background.

Definition is_fetch (a : Action) : bool :=
  match a with SendCommand => true | _ => false end.

Definition is_wait (ms : Z) (a : Action) : bool :=
  match a with Sleep n => Z.eqb n ms | _ => false end.

Definition is_error_log (a : Action) : bool :=
  match a with LogError _ => true | _ => false end.

Definition is_message (a : Action) : bool :=
  match a with SendMessage _ _ => true | _ => false end.

(** The number of [Network.getResponseBody] commands sent. *)
Definition fetches (t : list Action) : nat := length (List.filter is_fetch t).

(** The number of waits of [ms] milliseconds. *)
Definition waits (ms : Z) (t : list Action) : nat := length (List.filter (is_wait ms) t).

(** The number of waits of any length. *)
Definition all_waits (t : list Action) : nat :=
  length (List.filter (fun a => match a with Sleep _ => true | _ => false end) t).

(** The number of error logs. *)
Definition errors (t : list Action) : nat := length (List.filter is_error_log t).

(** The message of the exception a pass ends with, if it ends with one:
    the rejection or parse error, or the [TypeError] of the search
    extraction. *)
Definition failure (a : Attempt) : option jstring :=
  match a with
  | Rejected message => Some message
  | Parsed (SearchOf b) =>
      match search_items b with None => Some type_error | Some _ => None end
  | Parsed _ => None
  end.

(** The pass ends with an exception whose message includes "No data found". *)
Definition retryable (a : Attempt) : bool :=
  match failure a with Some message => includes message no_data | None => false end.

(** The number of passes, from [retryCount] on and among at most [budget],
    that end retryable without a pass before them ending otherwise. *)
Fixpoint retries_from (attempt : nat -> Attempt) (retryCount budget : nat) : nat :=
  match budget with
  | O => O
  | S b =>
      if retryable (attempt retryCount)
      then S (retries_from attempt (S retryCount) b)
      else O
  end.

Definition retries (attempt : nat -> Attempt) : nat := retries_from attempt 0 MAX_RETRIES.

End Trace.

(** ** Sample payloads *)

Module Samples.

Local Open Scope Q_scope.

(** A list item that carries only an id, a legacy price and, in its
    display-price object, a strikethrough price. *)
Definition list_item (id : Z) (price strikethrough : option Q) : Item.t :=
  {| Item.itemid := Some id; Item.item_id := None; Item.shopid := None;
     Item.item_card_display_price :=
       Some {| PriceInfo.price := None; PriceInfo.strikethrough_price := strikethrough;
               PriceInfo.discount := None |};
     Item.price := price; Item.discount := None;
     Item.item_card_display_sold_count := None; Item.historical_sold := None;
     Item.item_rating := None; Item.item_card_displayed_asset := None;
     Item.name := None; Item.image := None; Item.stock := None;
     Item.liked_count := None; Item.cmt_count := None; Item.ctime := None;
     Item.catid := None; Item.global_brand_display_name := None; Item.brand := None |}.

(** The item of a category unit for a shop, with a seller flag, a
    historical sold text and a rating. *)
Definition unit_item (shop : Z) (flag sold : jstring) (rating : Q) : Category.UnitItem :=
  {| Category.item_data := Some
       {| Category.itemid := None; Category.shopid := Some shop;
          Category.shop_data := None;
          Category.item_card_display_price := None;
          Category.item_card_display_sold_count :=
            Some {| SoldInfo.historical_sold_count_text := Some sold;
                    SoldInfo.monthly_sold_count_text := None |};
          Category.item_rating :=
            Some {| RatingInfo.rating_star := Some rating;
                    RatingInfo.rating_count := None |};
          Category.liked_count := None |};
     Category.item_card_displayed_asset := Some
       {| Category.seller_flag_name := Some flag;
          Category.name := None; Category.image := None |} |}.

(** The item of a category unit that carries only its display prices. *)
Definition priced_unit (price strikethrough : option Q) : Category.UnitItem :=
  {| Category.item_data := Some
       {| Category.itemid := None; Category.shopid := None;
          Category.shop_data := None;
          Category.item_card_display_price :=
            Some {| PriceInfo.price := price;
                    PriceInfo.strikethrough_price := strikethrough;
                    PriceInfo.discount := None |};
          Category.item_card_display_sold_count := None;
          Category.item_rating := None;
          Category.liked_count := None |};
     Category.item_card_displayed_asset := None |}.

(** A category unit of type "item". *)
Definition unit_of (shop : Z) (flag sold : jstring) (rating : Q) : Category.Unit :=
  {| Category.data_type := Some (js "item");
     Category.item := Some (unit_item shop flag sold rating) |}.

Definition official (shop : Z) (sold : jstring) (rating : Q) : Category.Unit :=
  unit_of shop (js "OFFICIAL_SHOP") sold rating.

(** A product-detail variant with only a price. *)
Definition variant (price : option Q) : Pdp.Model :=
  {| Pdp.model_id := None; Pdp.modelid := None; Pdp.name := None;
     Pdp.price := price; Pdp.price_before_discount := None;
     Pdp.stock := None; Pdp.normal_stock := None; Pdp.sold := None |}.

(** A product-detail item with only a price and its variants. *)
Definition detail_item (price : option Q) (models : list Pdp.Model) : Pdp.PdpItem :=
  {| Pdp.item_id := Some 1%Z; Pdp.itemid := None; Pdp.shop_id := None; Pdp.shopid := None;
     Pdp.title := None; Pdp.i_name := None;
     Pdp.i_price := price; Pdp.price_min := None; Pdp.price_max := None;
     Pdp.i_price_before_discount := None; Pdp.raw_discount := None;
     Pdp.show_discount := None; Pdp.i_stock := None; Pdp.i_normal_stock := None;
     Pdp.i_sold := None; Pdp.models := Some models |}.

Definition detail (price : option Q) (models : list Pdp.Model) : Pdp.PdpData :=
  {| Pdp.item := Some (detail_item price models);
     Pdp.own := detail_item None [] |}.

End Samples.

(** ** Counting distinct ids, for stating the upsert properties *)

Module Distinct.

(** The ids a batch submits: those of its items that have one. *)
Definition batch_ids (items : list Item.t) : list Z := omap Store.key_of items.

(** The distinct ids of [ids] that are not among [known]. *)
Definition new_ids (known ids : list Z) : list Z :=
  remove_dups (filter (fun k => k ∉ known) ids).

(** The table after a sequence of [processItems] calls for one tab, each
    with its items and its total. *)
Definition batches_run (tabId : Z) (batches : list (list Item.t * option Q))
    (tbl : gmap Z Store.ShopData) : gmap Z Store.ShopData :=
  fold_left (fun t b => Store.processItems tabId b.1 b.2 t) batches tbl.

End Distinct.

(** ** The shape of a sold text, for stating what the parser extracts *)

Module SoldShape.

Definition no_digit (s : jstring) : bool := forallb (fun c => negb (is_digit c)) s.

(** A non-empty run of digits. *)
Definition digits (s : jstring) : bool :=
  match s with [] => false | _ => forallb is_digit s end.

(** [s] is empty or its first code unit fails [p]. *)
Definition stops (p : N -> bool) (s : jstring) : bool :=
  match s with [] => true | c :: _ => negb (p c) end.

Inductive Fraction := NoFraction | Frac (sep : N) (fd : jstring).

Definition fraction_text (f : Fraction) : jstring :=
  match f with NoFraction => [] | Frac sep fd => sep :: fd end.

Definition fraction_digits (f : Fraction) : jstring :=
  match f with NoFraction => [] | Frac _ fd => fd end.

(** The fraction is well formed and is all the fraction there is, given
    the text [after] it. *)
Definition fraction_ok (f : Fraction) (after : jstring) : bool :=
  match f with
  | NoFraction =>
      stops is_digit after &&
      match after with
      | c :: d :: _ => negb (is_sep c && is_digit d)
      | _ => true
      end
  | Frac sep fd => is_sep sep && digits fd && stops is_digit after
  end.

Inductive Suffix := NoUnit | Thousand (a b : N) | Million (a b : N).

Definition suffix_text (u : Suffix) : jstring :=
  match u with NoUnit => [] | Thousand a b | Million a b => [a; b] end.

(** The unit is RB or JT in any letter case, or [after] starts with neither. *)
Definition suffix_ok (u : Suffix) (after : jstring) : bool :=
  match u with
  | Thousand a b => is_letter 82 a && is_letter 66 b
  | Million a b => is_letter 74 a && is_letter 84 b
  | NoUnit =>
      stops is_space after &&
      match after with
      | a :: b :: _ =>
          negb (is_letter 82 a && is_letter 66 b) && negb (is_letter 74 a && is_letter 84 b)
      | _ => true
      end
  end.

Definition scale (u : Suffix) (x : double) : double :=
  match u with
  | NoUnit => x
  | Thousand _ _ => times x 1000
  | Million _ _ => times x 1000000
  end.

Definition factor (u : Suffix) : Z :=
  match u with
  | NoUnit => 1
  | Thousand _ _ => 1000
  | Million _ _ => 1000000
  end.

End SoldShape.

(** ** Counting the official products of a category response *)

Module Aggregate.


Definition sum_Z (l : list Z) : Z := foldr Z.add 0 l.



End Aggregate.

(** ** Telling which tasks write a cache *)

Module CacheWrites.

Import Background.

(** The task is a search capture for the tab with at least one extracted
    item: the only task that writes the tab's search cache. *)
Definition writes_search (tabId : Z) (e : Event) : bool :=
  match e with
  | Resolved t (SearchOf b) _ =>
      Z.eqb t tabId &&
      match search_items b with Some (_ :: _, _) => true | _ => false end
  | _ => false
  end.

(** The task is a category capture for the tab with at least one unit: the
    only task that writes the tab's category cache. *)
Definition writes_category (tabId : Z) (e : Event) : bool :=
  match e with
  | Resolved t (CategoryOf b) _ =>
      Z.eqb t tabId && match or_empty (units b) [] with [] => false | _ => true end
  | _ => false
  end.

(** A well-formed category cache: its official stores are sorted by
    descending product count, one per shop id, each with at least one
    product. *)
Definition category_ok (c : CategoryCache) : Prop :=
  StronglySorted (fun a b => Category.productCount b <= Category.productCount a)
    (officialStores c) /\
  NoDup (Category.shopid_of <$> officialStores c) /\
  Forall (fun s => 1 <= Category.productCount s) (officialStores c).

(** What every cache entry satisfies: a search entry holds at least one
    item, a category entry is well formed. *)
Definition caches_ok (w : World) : Prop :=
  (forall t c, searchDataByTab w !! t = Some c -> items c <> []) /\
  (forall t c, categoryDataByTab w !! t = Some c -> category_ok c).

End CacheWrites.

(** ** A stored product for the overlay's examples *)

Module StoredSamples.

Local Open Scope Q_scope.

(** A normalized product with only an id and a price. *)
Definition product (id : Z) (price : Q) : Product.t :=
  {| Product.itemid := id; Product.shopid := None; Product.name := [];
     Product.price := price; Product.original_price := price; Product.discount := 0;
     Product.historical_sold := Finite 0; Product.historical_sold_text := [];
     Product.monthly_sold := Finite 0; Product.monthly_sold_text := [];
     Product.stock := 0; Product.rating_star := 0; Product.rating_count := 0;
     Product.liked_count := 0; Product.comment_count := 0; Product.image := [];
     Product.ctime := 0; Product.catid := 0; Product.brand := [] |}.

End StoredSamples.

(** ** The overlay's store history in [chrome.storage.local] *)

Module StoreHistory.

Definition RETENTION_DAYS : Z := 7.
Definition MAX_PRODUCTS_PER_STORE : nat := 500.
Definition MAX_STORES : nat := 5.
Definition MAX_TOTAL_PRODUCTS : nat := 2500.

(** Milliseconds of a day: [24 * 60 * 60 * 1000]. *)
Definition day : Z := 24 * 60 * 60 * 1000.

Record StoredStoreData := {
  shopSlug : jstring;
  storeInfo : json;
  products : list Product.t;
  updatedAt : Z
}.

Record StoreHistoryStorage := {
  stores : list StoredStoreData;
  lastCleanup : Z
}.

(** [result[STORE_STORAGE_KEY] || { stores: [], lastCleanup: 0 }]: the value
    under the key, [None] when the key was never set. *)
Definition or_fresh (stored : option StoreHistoryStorage) : StoreHistoryStorage :=
  match stored with
  | Some storage => storage
  | None => {| stores := []; lastCleanup := 0 |}
  end.

Definition getTotalStoreProducts (stores : list StoredStoreData) : nat :=
  fold_left (fun sum s => (sum + length (products s))%nat) stores 0%nat.

(** [s => s.shopSlug === shopSlug] *)
Definition same_slug (slug : jstring) (s : StoredStoreData) : bool :=
  bool_decide (shopSlug s = slug).

(** [Array.prototype.findIndex], [None] for -1. *)
Fixpoint findIndex {A} (f : A -> bool) (l : list A) : option nat :=
  match l with
  | [] => None
  | x :: r => if f x then Some 0%nat else S <$> findIndex f r
  end.

Definition with_products (s : StoredStoreData) (ps : list Product.t) : StoredStoreData :=
  {| shopSlug := shopSlug s; storeInfo := storeInfo s; products := ps;
     updatedAt := updatedAt s |}.

(** The copy of the stores sorted by product count, largest first. *)
Definition largest_first (stores : list StoredStoreData) : list StoredStoreData :=
  sort (fun a b => Z.of_nat (length (products b)) - Z.of_nat (length (products a))) stores.

(** One pass of the loop that enforces [MAX_TOTAL_PRODUCTS]: [None] when the
    loop condition fails, else the stores after the body. The first store
    with the slug of the largest one loses its last 100 products, or is
    spliced out when it has at most 100. The largest store is one of the
    stores, so the index is found; the two [None] at the index stand for an
    index that is not. *)
Definition trim_step (stores : list StoredStoreData) : option (list StoredStoreData) :=
  if (MAX_TOTAL_PRODUCTS <? getTotalStoreProducts stores)%nat && (0 <? length stores)%nat then
    match largest_first stores with
    | [] => None
    | largest :: _ =>
        match findIndex (same_slug (shopSlug largest)) stores with
        | Some idx =>
            match stores !! idx with
            | Some s =>
                if (100 <? length (products s))%nat
                then Some (<[idx := with_products s
                                      (take (length (products s) - 100) (products s))]> stores)
                else Some (delete idx stores)
            | None => None
            end
        | None => None
        end
    end
  else None.

(** The loop itself: every pass removes products or a store. *)
Equations trim (current : list StoredStoreData) : list StoredStoreData
    by wf (getTotalStoreProducts current + length current)%nat lt :=
  trim current with Equations.Prop.Logic.inspect (trim_step current) := {
    | exist _ None _ => current
    | exist _ (Some next) _ => trim next
  }.
Next Obligation.
  rename e into H.
  assert (Hsum : forall l n,
             fold_left (fun sum s => (sum + length (products s))%nat) l n
             = (n + fold_left (fun sum s => (sum + length (products s))%nat) l 0)%nat).
  { induction l as [|x l IH]; intros n; simpl; [lia|].
    rewrite (IH (n + _)%nat), (IH (length _)). lia. }
  assert (Hcons : forall x l, getTotalStoreProducts (x :: l)
                              = (length (products x) + getTotalStoreProducts l)%nat).
  { intros x l. unfold getTotalStoreProducts. simpl. now rewrite Hsum. }
  assert (Hins : forall l i s s', l !! i = Some s ->
             (getTotalStoreProducts (<[i := s']> l) + length (products s)
              = getTotalStoreProducts l + length (products s'))%nat).
  { induction l as [|x l IH]; intros [|i] s s' Hl; simpl in Hl; try discriminate.
    - injection Hl as ->. simpl. rewrite !Hcons. lia.
    - simpl. rewrite !Hcons. specialize (IH i s s' Hl). lia. }
  assert (Hdel : forall l i s, l !! i = Some s ->
             (getTotalStoreProducts (delete i l) + length (products s)
              = getTotalStoreProducts l)%nat /\ S (length (delete i l)) = length l).
  { induction l as [|x l IH]; intros [|i] s Hl; simpl in Hl; try discriminate.
    - injection Hl as ->. simpl. rewrite Hcons. lia.
    - simpl. rewrite !Hcons. destruct (IH i s Hl). lia. }
  unfold trim_step in H.
  destruct (_ && _); [|discriminate].
  destruct (largest_first current) as [|largest ?]; [discriminate|].
  destruct (findIndex _ current) as [idx|]; [|discriminate].
  destruct (current !! idx) as [s|] eqn:Hs; [|discriminate].
  destruct (Nat.ltb_spec 100 (length (products s))) as [Hlt|Hge];
    injection H as <-.
  - pose proof (Hins current idx s
                  (with_products s (take (length (products s) - 100) (products s))) Hs) as E.
    simpl in E. rewrite length_take, length_insert in *. lia.
  - destruct (Hdel current idx s Hs). lia.
Qed.

(** The entry [saveStoreToStorage] prepares. *)
Definition dataToSave (stamp : Z) (slug : jstring) (info : json) (ps : list Product.t)
    : StoredStoreData :=
  {| shopSlug := slug; storeInfo := info;
     products := take MAX_PRODUCTS_PER_STORE ps; updatedAt := stamp |}.

(** The stores once the entry is put at the index of its slug, or pushed. *)
Definition placed (d : StoredStoreData) (current : list StoredStoreData)
    : list StoredStoreData :=
  match findIndex (same_slug (shopSlug d)) current with
  | Some existingIndex => <[existingIndex := d]> current
  | None => current ++ [d]
  end.

(** The stores sorted newest first and popped while there are more than
    [MAX_STORES]. *)
Definition capped (d : StoredStoreData) (current : list StoredStoreData)
    : list StoredStoreData :=
  take MAX_STORES (sort (fun a b => updatedAt b - updatedAt a) (placed d current)).

(** [saveStoreToStorage]: the value written under the key, from the value
    read. The four readings of [Date.now()] are, in order, the stamp of the
    saved entry, the reading for [oneDayAgo], the one for [retentionCutoff]
    and the stamp of the cleanup. *)
Definition saveStoreToStorage (stamp checked cutoff cleaned : Z)
    (slug : jstring) (info : json) (ps : list Product.t)
    (stored : option StoreHistoryStorage) : StoreHistoryStorage :=
  let storage := or_fresh stored in
  let trimmed := trim (capped (dataToSave stamp slug info ps) (stores storage)) in
  let oneDayAgo := checked - day in
  if lastCleanup storage <? oneDayAgo then
    let retentionCutoff := cutoff - RETENTION_DAYS * day in
    {| stores := List.filter (fun s => retentionCutoff <? updatedAt s) trimmed;
       lastCleanup := cleaned |}
  else {| stores := trimmed; lastCleanup := lastCleanup storage |}.

(** [loadStoreFromStorage] at a reading [now] of the clock. *)
Definition loadStoreFromStorage (now : Z) (slug : jstring)
    (stored : option StoreHistoryStorage) : option (json * list Product.t) :=
  match List.find (same_slug slug) (stores (or_fresh stored)) with
  | Some entry =>
      let retentionCutoff := now - RETENTION_DAYS * day in
      if retentionCutoff <? updatedAt entry
      then Some (storeInfo entry, products entry)
      else None
  | None => None
  end.

(** What [handleClearData] writes under the key. *)
Definition clearStore (slug : jstring) (stored : option StoreHistoryStorage)
    : StoreHistoryStorage :=
  let storage := or_fresh stored in
  {| stores := List.filter (fun s => negb (same_slug slug s)) (stores storage);
     lastCleanup := lastCleanup storage |}.

(** The writes of the overlay to the key. *)
Inductive Write :=
| Save (stamp checked cutoff cleaned : Z) (slug : jstring) (info : json)
       (ps : list Product.t)
| Clear (slug : jstring).

Definition write (stored : option StoreHistoryStorage) (op : Write)
    : option StoreHistoryStorage :=
  match op with
  | Save stamp checked cutoff cleaned slug info ps =>
      Some (saveStoreToStorage stamp checked cutoff cleaned slug info ps stored)
  | Clear slug => Some (clearStore slug stored)
  end.

Definition writes (ops : list Write) (stored : option StoreHistoryStorage)
    : option StoreHistoryStorage :=
  fold_left write ops stored.

(** What the writes keep true of the stored value. *)
Definition bounded (storage : StoreHistoryStorage) : Prop :=
  (length (stores storage) <= MAX_STORES)%nat /\
  Forall (fun s => (length (products s) <= MAX_PRODUCTS_PER_STORE)%nat) (stores storage) /\
  NoDup (shopSlug <$> stores storage).

End StoreHistory.

(** ** The overlay's pagination: [startPagination] and its [clickNextPage] *)

Module Pagination.

Definition maxPages : nat := 50.
Definition pauseAtPage : nat := 20.

(** What a tick of the interval does besides logging. *)
Inductive Effect :=
| Click (page : nat)
| ShowPauseConfirm
| Complete.

(** One call of [clickNextPage] in a closure whose counter is [pageCount];
    [button] tells whether one of the selectors finds a next button that is
    not disabled. The result is the counter, the effects, and whether the
    interval is still set. *)
Definition clickNextPage (button : bool) (pageCount : nat) : nat * list Effect * bool :=
  if (0 <? pageCount)%nat && (pageCount mod pauseAtPage =? 0)%nat
     && (pageCount <? maxPages)%nat
  then (pageCount, [ShowPauseConfirm], false)
  else if button then
    let pageCount := S pageCount in
    if (maxPages <=? pageCount)%nat
    then (pageCount, [Click pageCount; Complete], false)
    else (pageCount, [Click pageCount], true)
  else (pageCount, [Complete], false).

(** The ticks of the interval, one per element of [buttons], until a tick
    clears it. *)
Fixpoint interval (buttons : list bool) (pageCount : nat) : nat * list Effect * bool :=
  match buttons with
  | [] => (pageCount, [], true)
  | button :: rest =>
      let '(pageCount, effects, set) := clickNextPage button pageCount in
      if set
      then let '(final, later, still) := interval rest pageCount in
           (final, effects ++ later, still)
      else (pageCount, effects, false)
  end.

(** The page a click shows in the [currentPage] state. *)
Definition shown (currentPage : nat) (e : Effect) : nat :=
  match e with Click page => page | _ => currentPage end.

(** [startPagination resumeFromPage]: the [currentPage] state afterwards, the
    effects of the ticks and whether the interval is still set. *)
Definition startPagination (resumeFromPage currentPage : nat) (buttons : list bool)
    : nat * list Effect * bool :=
  let currentPage := if (resumeFromPage =? 0)%nat then 0%nat else currentPage in
  let '(_, effects, set) := interval buttons resumeFromPage in
  (fold_left shown effects currentPage, effects, set).

(** [handleContinuePagination]: restarts from the [currentPage] state. *)
Definition handleContinuePagination (currentPage : nat) (buttons : list bool)
    : nat * list Effect * bool :=
  startPagination currentPage currentPage buttons.

Definition is_click (e : Effect) : bool :=
  match e with Click _ => true | _ => false end.

Definition clicks (effects : list Effect) : nat := length (List.filter is_click effects).

End Pagination.

(** ** Telling a store page by its path: [getShopSlug] and [isStorePage] *)

Module StorePage.

(** The code unit of "/". *)
Definition slash : N := 47%N.

(** [String.prototype.split] with a separator of one code unit. *)
Fixpoint split (sep : N) (s : jstring) : list jstring :=
  match s with
  | [] => [[]]
  | c :: r =>
      if N.eqb c sep then [] :: split sep r
      else match split sep r with
           | h :: t => (c :: h) :: t
           | [] => [[c]]
           end
  end.

(** [path.split("/")[1]], [None] for [undefined]. *)
Definition segment (path : jstring) : option jstring := split slash path !! 1%nat.

Definition getShopSlug (path : jstring) : jstring := str_or (segment path) [].

Definition knownRoutes : list jstring :=
  [js "search"; js "daily_discover"; js "mall"; js "flash_sale"; js "cart";
   js "checkout"; js "user"; js "buyer"].

Definition isStorePage (path : jstring) : bool :=
  if starts_with (js "/product") path || starts_with (js "/cart") path
     || starts_with (js "/verify") path
  then false
  else match segment path with
       | Some (c :: r) => negb (bool_decide ((c :: r) ∈ knownRoutes))
       | _ => false
       end.

(** The prefixes that [isStorePage] rejects, without their slash. *)
Definition reserved (slug : jstring) : bool :=
  starts_with (js "product") slug || starts_with (js "cart") slug
  || starts_with (js "verify") slug.

End StorePage.

(** * Properties *)

(** ** Doubles *)

Section DoubleFacts.
Local Open Scope Q_scope.

Lemma pow2_pos (e : Z) : 0 < pow2 e.
Proof. unfold pow2. apply Qpower_0_lt. reflexivity. Qed.

Lemma pow2_add (a b : Z) : pow2 (a + b) == pow2 a * pow2 b.
Proof. unfold pow2. apply Qpower_plus. discriminate. Qed.

Lemma pow2_Z (e : Z) : (0 <= e)%Z -> pow2 e == inject_Z (2 ^ e).
Proof. intros H. unfold pow2. symmetry. apply (Zpower_Qpower 2 e H). Qed.

Lemma pow2_ge_1 (e : Z) : (0 <= e)%Z -> 1 <= pow2 e.
Proof.
  intros H. rewrite (pow2_Z e H). change 1 with (inject_Z 1). rewrite <- Zle_Qle.
  pose proof (Z.pow_pos_nonneg 2 e ltac:(lia) H). lia.
Qed.

Lemma pow2_le (a b : Z) : (a <= b)%Z -> pow2 a <= pow2 b.
Proof.
  intros H. replace b with (a + (b - a))%Z by lia. rewrite pow2_add.
  pose proof (pow2_pos a). pose proof (pow2_ge_1 (b - a) ltac:(lia)). nra.
Qed.

Lemma pow2_lt (a b : Z) : (a < b)%Z -> pow2 a < pow2 b.
Proof.
  intros H. replace b with (a + 1 + (b - a - 1))%Z by lia. rewrite !pow2_add.
  pose proof (pow2_pos a). pose proof (pow2_ge_1 (b - a - 1) ltac:(lia)).
  change (pow2 1) with 2. nra.
Qed.

Lemma pow2_lt_inv (a b : Z) : pow2 a < pow2 b -> (a < b)%Z.
Proof.
  intros H. destruct (Z_lt_le_dec a b) as [|Hle]; [assumption|].
  apply pow2_le in Hle. lra.
Qed.

(** The bit length brackets a positive integer. *)
Lemma log2_bracket (n : Z) :
  (0 < n)%Z -> pow2 (Z.log2 n) <= inject_Z n /\ inject_Z n < pow2 (Z.log2 n + 1).
Proof.
  intros H. destruct (Z.log2_spec n H) as [H1 H2].
  pose proof (Z.log2_nonneg n).
  rewrite !pow2_Z by lia. rewrite <- Zle_Qle, <- Zlt_Qlt.
  unfold Z.succ in H2. lia.
Qed.

Lemma ilog2_spec (x : Q) : 0 < x -> pow2 (ilog2 x) <= x /\ x < pow2 (ilog2 x + 1).
Proof.
  intros Hx. destruct x as [p q].
  assert (Hp : (0 < p)%Z).
  { unfold Qlt in Hx. simpl in Hx. lia. }
  destruct (log2_bracket p Hp) as [Hp1 Hp2].
  destruct (log2_bracket (Zpos q) ltac:(lia)) as [Hq1 Hq2].
  unfold ilog2. cbn [Qnum Qden].
  set (a := Z.log2 p) in *. set (b := Z.log2 (Zpos q)) in *.
  assert (Hx' : p # q == inject_Z p / inject_Z (Zpos q)) by apply Qmake_Qdiv.
  assert (Hq : 0 < inject_Z (Zpos q)) by (change 0 with (inject_Z 0); rewrite <- Zlt_Qlt; lia).
  assert (Hmul : (p # q) * inject_Z (Zpos q) == inject_Z p).
  { rewrite Hx'. field. lra. }
  assert (Hup : p # q < pow2 (a - b + 1)).
  { assert (E : pow2 (a + 1) == pow2 (a - b + 1) * pow2 b).
    { rewrite <- pow2_add. f_equiv. lia. }
    pose proof (pow2_pos (a - b + 1)). pose proof (pow2_pos b).
    apply (Qmult_lt_r _ _ (inject_Z (Zpos q)) Hq). rewrite Hmul.
    eapply Qlt_le_trans; [exact Hp2|]. rewrite E. nra. }
  assert (Hlo : pow2 (a - b - 1) <= p # q).
  { assert (E : pow2 a == pow2 (a - b - 1) * pow2 (b + 1)).
    { rewrite <- pow2_add. f_equiv. lia. }
    pose proof (pow2_pos (a - b - 1)). pose proof (pow2_pos (b + 1)).
    apply (Qmult_le_r _ _ (inject_Z (Zpos q)) Hq). rewrite Hmul.
    eapply Qle_trans; [|exact Hp1]. rewrite E. nra. }
  destruct (Qle_bool (pow2 (a - b)) (p # q)) eqn:E.
  - apply Qle_bool_iff in E. split; assumption.
  - split; [exact Hlo|]. replace (a - b - 1 + 1)%Z with (a - b)%Z by lia.
    apply Qnot_le_lt. intros Hc. apply Qle_bool_iff in Hc. congruence.
Qed.

Lemma pow2_opp (e : Z) : pow2 (- e) == / pow2 e.
Proof. unfold pow2. apply Qpower_opp. Qed.

Lemma round_half_even_whole (x : Q) (z : Z) : x == inject_Z z -> round_half_even x = z.
Proof.
  intros H. unfold round_half_even.
  assert (Hf : Qfloor x = z) by (rewrite (Qfloor_comp _ _ H); apply Qfloor_Z).
  rewrite Hf.
  assert (Hc : (x - inject_Z z ?= 1 # 2) = Lt).
  { apply Qlt_alt. assert (E : x - inject_Z z == 0) by (rewrite H; ring).
    rewrite E. reflexivity. }
  now rewrite Hc.
Qed.

Lemma round_half_even_nonneg (x : Q) : 0 <= x -> (0 <= round_half_even x)%Z.
Proof.
  intros H. unfold round_half_even.
  assert (Hf : (0 <= Qfloor x)%Z).
  { change 0%Z with (Qfloor 0). now apply Qfloor_resp_le. }
  destruct (_ ?= _); [destruct (Z.even _)| |]; lia.
Qed.

(** A double is never negative here. *)
Lemma nearest_double_nonneg (x : Q) :
  match nearest_double x with Finite y => 0 <= y | Infinity => True end.
Proof.
  unfold nearest_double. destruct (Qle_bool x 0) eqn:E; [lra|].
  assert (Hx : 0 < x).
  { apply Qnot_le_lt. intros H. apply Qle_bool_iff in H. congruence. }
  set (e := Z.max (ilog2 x - 52) (-1074)).
  destruct (Qle_bool (pow2 1024) _); [exact I|].
  pose proof (pow2_pos e) as He.
  assert (Hq : 0 <= x / pow2 e).
  { apply Qle_shift_div_l; [exact He|]. lra. }
  apply round_half_even_nonneg in Hq.
  apply Qmult_le_0_compat; [|lra].
  change 0 with (inject_Z 0). now rewrite <- Zle_Qle.
Qed.

(** A whole number below 2^53 is a double: rounding returns it. *)
Lemma nearest_double_whole (x : Q) (n : Z) :
  x == inject_Z n -> (0 <= n < 2 ^ 53)%Z ->
  exists y, nearest_double x = Finite y /\ y == inject_Z n.
Proof.
  intros Hx [Hn0 Hn]. unfold nearest_double.
  destruct (Qle_bool x 0) eqn:E.
  - apply Qle_bool_iff in E. exists 0. split; [reflexivity|].
    assert (Hz : inject_Z n <= inject_Z 0) by (rewrite <- Hx; exact E).
    rewrite <- Zle_Qle in Hz. assert (n = 0%Z) by lia. subst n. reflexivity.
  - assert (Hpos : 0 < x).
    { apply Qnot_le_lt. intros H. apply Qle_bool_iff in H. congruence. }
    destruct (ilog2_spec x Hpos) as [Hlo Hhi].
    set (k := ilog2 x) in *.
    assert (Hn1 : (1 <= n)%Z).
    { assert (H0 : inject_Z 0 < inject_Z n) by (rewrite <- Hx; exact Hpos).
      rewrite <- Zlt_Qlt in H0. lia. }
    assert (Hk0 : (0 <= k)%Z).
    { assert (H1 : pow2 0 < pow2 (k + 1)).
      { eapply Qle_lt_trans; [|exact Hhi]. rewrite Hx. change (pow2 0) with (inject_Z 1).
        rewrite <- Zle_Qle. lia. }
      apply pow2_lt_inv in H1. lia. }
    assert (Hk52 : (k <= 52)%Z).
    { assert (H1 : pow2 k < pow2 53).
      { eapply Qle_lt_trans; [exact Hlo|]. rewrite Hx, (pow2_Z 53) by lia.
        rewrite <- Zlt_Qlt. exact Hn. }
      apply pow2_lt_inv in H1. lia. }
    replace (Z.max (k - 52) (-1074)) with (k - 52)%Z by lia.
    pose proof (pow2_pos (k - 52)) as Hp.
    assert (Hm : x / pow2 (k - 52) == inject_Z (n * 2 ^ (52 - k))).
    { rewrite inject_Z_mult, <- (pow2_Z (52 - k)) by lia. rewrite Hx.
      replace (52 - k)%Z with (- (k - 52))%Z by lia. rewrite pow2_opp. reflexivity. }
    rewrite (round_half_even_whole _ _ Hm).
    assert (Hy : inject_Z (n * 2 ^ (52 - k)) * pow2 (k - 52) == inject_Z n).
    { rewrite inject_Z_mult, <- (pow2_Z (52 - k)) by lia.
      replace (52 - k)%Z with (- (k - 52))%Z by lia. rewrite pow2_opp. field. lra. }
    destruct (Qle_bool (pow2 1024) _) eqn:Eo.
    + exfalso. apply Qle_bool_iff in Eo. rewrite Hy in Eo.
      assert (H1 : inject_Z n < pow2 1024).
      { eapply Qlt_le_trans; [|apply (pow2_le 53 1024); lia].
        rewrite (pow2_Z 53) by lia. rewrite <- Zlt_Qlt. exact Hn. }
      lra.
    + eexists. split; [reflexivity|exact Hy].
Qed.

Lemma round_half_up_integer (x : Q) (z : Z) : x == inject_Z z -> round_half_up x = z.
Proof.
  intros H. unfold round_half_up.
  assert (Hx : (x + (1 # 2) == inject_Z z + (1 # 2))%Q) by now rewrite H.
  rewrite (Qfloor_comp _ _ Hx). unfold Qfloor, Qplus, inject_Z. simpl.
  change (Z.pos (1 * 2)) with 2%Z. symmetry. apply (Z.div_unique _ 2 z 1); lia.
Qed.

(** A product of whole numbers that stays below 2^53 is exact. *)
Lemma times_whole (a : double) (x : Q) (n k : Z) :
  a = Finite x -> x == inject_Z n -> (0 <= n)%Z -> (0 <= k)%Z -> (n * k < 2 ^ 53)%Z ->
  exists y, times a (inject_Z k) = Finite y /\ y == inject_Z (n * k).
Proof.
  intros -> Hx Hn Hk Hlt. unfold times. apply nearest_double_whole; [|lia].
  now rewrite Hx, inject_Z_mult.
Qed.

(** Rounding to an integer moves a number by at most a half. *)
Lemma round_half_even_near (x : Q) :
  x - (1 # 2) <= inject_Z (round_half_even x) /\ inject_Z (round_half_even x) <= x + (1 # 2).
Proof.
  unfold round_half_even.
  pose proof (Qfloor_le x) as Hlo. pose proof (Qlt_floor x) as Hhi.
  rewrite inject_Z_plus in Hhi. change (inject_Z 1) with 1 in Hhi.
  destruct (x - inject_Z (Qfloor x) ?= 1 # 2) eqn:E.
  - apply Qeq_alt in E.
    destruct (Z.even (Qfloor x)); rewrite ?inject_Z_plus; change (inject_Z 1) with 1; lra.
  - apply Qlt_alt in E. lra.
  - apply Qgt_alt in E. rewrite inject_Z_plus. change (inject_Z 1) with 1. lra.
Qed.

(** The double is within half a unit in the last place of the number. *)
Lemma nearest_double_near (x y : Q) :
  0 < x -> nearest_double x = Finite y ->
  let ulp := pow2 (Z.max (ilog2 x - 52) (-1074)) in
  x - ulp / 2 <= y /\ y <= x + ulp / 2.
Proof.
  intros Hx. unfold nearest_double.
  destruct (Qle_bool x 0) eqn:E.
  { apply Qle_bool_iff in E. lra. }
  set (e := Z.max (ilog2 x - 52) (-1074)).
  destruct (Qle_bool (pow2 1024) _); [discriminate|]. intros [= <-]. cbv zeta.
  pose proof (pow2_pos e) as He.
  destruct (round_half_even_near (x / pow2 e)) as [H1 H2].
  assert (Hne : ~ pow2 e == 0) by lra.
  assert (E1 : (x / pow2 e - (1 # 2)) * pow2 e == x - pow2 e / 2) by (field; exact Hne).
  assert (E2 : (x / pow2 e + (1 # 2)) * pow2 e == x + pow2 e / 2) by (field; exact Hne).
  rewrite <- E1, <- E2. split; apply Qmult_le_compat_r; lra.
Qed.

End DoubleFacts.

(** ** parseSoldText *)

Section SoldTextFacts.

Import SoldShape.

Lemma span_all (p : N -> bool) (ds rest : jstring) :
  forallb p ds = true -> stops p rest = true ->
  span p (ds ++ rest) = (ds, rest).
Proof.
  intros Hds Hrest. induction ds as [|c ds IH]; simpl in *.
  - destruct rest as [|c r]; [reflexivity|]. simpl in *.
    destruct (p c); [discriminate | reflexivity].
  - apply andb_prop in Hds as [Hc Hds]. rewrite Hc, (IH Hds). reflexivity.
Qed.

Lemma span_all_nil (p : N -> bool) (ds : jstring) :
  forallb p ds = true -> span p ds = (ds, []).
Proof.
  intros H. rewrite <- (app_nil_r ds) at 1. now apply span_all.
Qed.

Lemma match_here_non_digit (c : N) (s : jstring) :
  is_digit c = false -> match_here (c :: s) = None.
Proof. intros H. unfold match_here. simpl. now rewrite H. Qed.

Lemma regex_match_skip (pre s : jstring) :
  no_digit pre = true -> regex_match (pre ++ s) = regex_match s.
Proof.
  induction pre as [|c pre IH]; [reflexivity|]. simpl. intros H.
  apply andb_prop in H as [Hc Hpre]. apply negb_true_iff in Hc.
  rewrite (match_here_non_digit _ _ Hc). now apply IH.
Qed.

Lemma regex_match_no_digit (s : jstring) :
  no_digit s = true -> regex_match s = None.
Proof.
  intros H. rewrite <- (app_nil_r s). rewrite (regex_match_skip _ _ H). reflexivity.
Qed.

Lemma digit_not_sep (c : N) : is_digit c = true -> is_sep c = false.
Proof.
  unfold is_digit, is_sep. intros H. apply andb_prop in H as [H1 H2].
  apply N.leb_le in H1. apply N.leb_le in H2.
  apply orb_false_iff. split; apply N.eqb_neq; lia.
Qed.

Lemma digit_not_comma (c : N) : is_digit c = true -> (c =? 44)%N = false.
Proof.
  intros H. apply digit_not_sep in H. unfold is_sep in H.
  now apply orb_false_iff in H as [_ H].
Qed.

Lemma sep_not_digit (c : N) : is_sep c = true -> is_digit c = false.
Proof.
  intros H. destruct (is_digit c) eqn:E; [|reflexivity].
  apply digit_not_sep in E. congruence.
Qed.

Lemma replace_comma_digits (ds rest : jstring) :
  forallb is_digit ds = true ->
  replace_comma (ds ++ rest) = ds ++ replace_comma rest.
Proof.
  induction ds as [|c ds IH]; [reflexivity|]. simpl. intros H.
  apply andb_prop in H as [Hc Hds]. rewrite (digit_not_comma _ Hc), (IH Hds). reflexivity.
Qed.

Lemma digits_forallb (s : jstring) : digits s = true -> forallb is_digit s = true.
Proof. destruct s; [discriminate | trivial]. Qed.

Lemma digits_cons (s : jstring) : digits s = true -> exists c r, s = c :: r.
Proof. destruct s; [discriminate | eauto]. Qed.

(** Capture group 1 is read back as the number it spells. *)
Lemma parseFloat_group1 (ds : jstring) (f : Fraction) (after : jstring) :
  digits ds = true -> fraction_ok f after = true ->
  parseFloat (replace_comma (ds ++ fraction_text f))
  = nearest_double (decimal ds (fraction_digits f)).
Proof.
  intros Hds Hf. apply digits_forallb in Hds.
  rewrite (replace_comma_digits _ _ Hds). unfold parseFloat.
  destruct f as [|sep fd]; simpl in *.
  - rewrite app_nil_r, (span_all_nil _ _ Hds). reflexivity.
  - apply andb_prop in Hf as [Hf _]. apply andb_prop in Hf as [Hsep Hfd].
    apply digits_forallb in Hfd.
    assert (Hfd' : replace_comma fd = fd).
    { rewrite <- (app_nil_r fd) at 1. rewrite (replace_comma_digits _ _ Hfd).
      simpl. now rewrite app_nil_r. }
    assert (Hdot : span is_digit (ds ++ 46%N :: fd) = (ds, 46%N :: fd))
      by exact (span_all is_digit ds (46%N :: fd) Hds eq_refl).
    unfold is_sep in Hsep. destruct (sep =? 44)%N eqn:E.
    + rewrite Hdot. simpl. rewrite (span_all_nil _ _ Hfd). reflexivity.
    + rewrite orb_false_r in Hsep. apply N.eqb_eq in Hsep. subst sep.
      rewrite Hfd', Hdot. simpl. rewrite (span_all_nil _ _ Hfd). reflexivity.
Qed.

Lemma match_fraction_shape (f : Fraction) (after : jstring) :
  fraction_ok f after = true ->
  match_fraction (fraction_text f ++ after) = (fraction_text f, after).
Proof.
  destruct f as [|sep fd]; simpl; intros H.
  - apply andb_prop in H as [Hstop H].
    destruct after as [|c [|d r]]; simpl; try reflexivity.
    + destruct (is_sep c); reflexivity.
    + destruct (is_sep c) eqn:Ec; [|reflexivity]. simpl in H.
      apply negb_true_iff in H. rewrite H. reflexivity.
  - apply andb_prop in H as [H Hstop]. apply andb_prop in H as [Hsep Hfd].
    rewrite Hsep. destruct (digits_cons _ Hfd) as (c & r & ->).
    rewrite (span_all is_digit (c :: r) after (digits_forallb _ Hfd) Hstop). reflexivity.
Qed.

Lemma letter_cases (upper c : N) :
  is_letter upper c = true -> c = upper \/ c = (upper + 32)%N.
Proof.
  unfold is_letter. intros H. apply orb_prop in H as [H|H]; apply N.eqb_eq in H; auto.
Qed.

Lemma letter_not_space (upper c : N) :
  (upper = 82 \/ upper = 74)%N -> is_letter upper c = true -> is_space c = false.
Proof.
  intros Hu H. apply letter_cases in H. destruct Hu; subst upper; destruct H; subst c; reflexivity.
Qed.

Lemma parseSoldText_unfold (text : jstring) :
  parseSoldText text =
  match regex_match text with
  | None => Finite 0
  | Some (g1, g2) =>
      Math_round
        match option_map toUpperCase g2 with
        | Some u =>
            if jstring_eqb u (js "JT") then times (parseFloat (replace_comma g1)) 1000000
            else if jstring_eqb u (js "RB") then times (parseFloat (replace_comma g1)) 1000
            else parseFloat (replace_comma g1)
        | None => parseFloat (replace_comma g1)
        end
  end.
Proof. destruct text; reflexivity. Qed.

Lemma suffix_stops_space (u : Suffix) (rest : jstring) :
  suffix_ok u rest = true -> stops is_space (suffix_text u ++ rest) = true.
Proof.
  destruct u as [|a b|a b]; simpl; intros H.
  - now apply andb_prop in H as [H _].
  - apply andb_prop in H as [H _]. now rewrite (letter_not_space 82 a) by auto.
  - apply andb_prop in H as [H _]. now rewrite (letter_not_space 74 a) by auto.
Qed.

(** The unit the match reports, upper-cased, selects the factor. *)
Lemma unit_scale (u : Suffix) (rest : jstring) (x : double) :
  suffix_ok u rest = true ->
  match option_map toUpperCase (match_unit (suffix_text u ++ rest)) with
  | Some t =>
      if jstring_eqb t (js "JT") then times x 1000000
      else if jstring_eqb t (js "RB") then times x 1000
      else x
  | None => x
  end = scale u x.
Proof.
  destruct u as [|a b|a b]; simpl; intros H.
  - apply andb_prop in H as [_ H]. unfold match_unit.
    destruct rest as [|a [|b r]]; try reflexivity.
    apply andb_prop in H as [H1 H2].
    apply negb_true_iff in H1. apply negb_true_iff in H2. now rewrite H1, H2.
  - apply andb_prop in H as [Ha Hb].
    apply letter_cases in Ha. apply letter_cases in Hb.
    destruct Ha; subst a; destruct Hb; subst b; reflexivity.
  - apply andb_prop in H as [Ha Hb].
    apply letter_cases in Ha. apply letter_cases in Hb.
    destruct Ha; subst a; destruct Hb; subst b; reflexivity.
Qed.

Lemma match_here_shape (ds : jstring) (f : Fraction) (ws : jstring) (u : Suffix)
    (rest : jstring) :
  digits ds = true ->
  fraction_ok f (ws ++ suffix_text u ++ rest) = true ->
  forallb is_space ws = true ->
  suffix_ok u rest = true ->
  match_here (ds ++ fraction_text f ++ ws ++ suffix_text u ++ rest)
  = Some (ds ++ fraction_text f, match_unit (suffix_text u ++ rest)).
Proof.
  intros Hds Hf Hws Hu. unfold match_here.
  assert (Hstop : stops is_digit (fraction_text f ++ ws ++ suffix_text u ++ rest) = true).
  { destruct f as [|sep fd]; simpl in *.
    - now apply andb_prop in Hf as [Hf _].
    - apply andb_prop in Hf as [Hf _]. apply andb_prop in Hf as [Hsep _].
      now rewrite (sep_not_digit _ Hsep). }
  rewrite (span_all _ _ _ (digits_forallb _ Hds) Hstop).
  destruct (digits_cons _ Hds) as (c & r & ->).
  rewrite (match_fraction_shape _ _ Hf).
  rewrite (span_all _ _ _ Hws (suffix_stops_space _ _ Hu)). reflexivity.
Qed.

Lemma parseSoldText_shape (pre ds : jstring) (f : Fraction) (ws : jstring) (u : Suffix)
    (rest : jstring) :
  no_digit pre = true ->
  digits ds = true ->
  fraction_ok f (ws ++ suffix_text u ++ rest) = true ->
  forallb is_space ws = true ->
  suffix_ok u rest = true ->
  parseSoldText (pre ++ ds ++ fraction_text f ++ ws ++ suffix_text u ++ rest)
  = Math_round (scale u (nearest_double (decimal ds (fraction_digits f)))).
Proof.
  intros Hpre Hds Hf Hws Hu.
  rewrite parseSoldText_unfold, (regex_match_skip _ _ Hpre).
  assert (Hm : regex_match (ds ++ fraction_text f ++ ws ++ suffix_text u ++ rest)
               = Some (ds ++ fraction_text f, match_unit (suffix_text u ++ rest))).
  { pose proof (match_here_shape ds f ws u rest Hds Hf Hws Hu) as Hh.
    destruct (ds ++ fraction_text f ++ ws ++ suffix_text u ++ rest) as [|c l];
      [discriminate Hh | simpl; now rewrite Hh]. }
  rewrite Hm, (parseFloat_group1 _ _ _ Hds Hf). f_equal. now apply unit_scale.
Qed.

Lemma span_spec (p : N -> bool) (s : jstring) :
  s = (span p s).1 ++ (span p s).2 /\
  forallb p (span p s).1 = true /\ stops p (span p s).2 = true.
Proof.
  induction s as [|c s (IH1 & IH2 & IH3)]; simpl; [auto|].
  destruct (p c) eqn:E.
  - destruct (span p s) as [a b]. simpl in *. rewrite E. subst s. auto.
  - simpl. rewrite E. auto.
Qed.

(** Every text without the shape holds no digit: a text either has no digit
    or reads as non-digits, digits, an optional fraction, white space, an
    optional unit and a rest. *)
Lemma sold_shape_total (text : jstring) :
  no_digit text = true \/
  exists pre ds f ws u rest,
    text = pre ++ ds ++ fraction_text f ++ ws ++ suffix_text u ++ rest /\
    no_digit pre = true /\ digits ds = true /\
    fraction_ok f (ws ++ suffix_text u ++ rest) = true /\
    forallb is_space ws = true /\ suffix_ok u rest = true.
Proof.
  destruct (span_spec (fun c => negb (is_digit c)) text) as (Ht & Hpre & Hs1).
  destruct (span (fun c => negb (is_digit c)) text) as [pre s1]. simpl in *.
  destruct s1 as [|c0 s1'].
  { left. rewrite Ht, app_nil_r. exact Hpre. }
  right. simpl in Hs1. rewrite negb_involutive in Hs1.
  destruct (span_spec is_digit (c0 :: s1')) as (Hd & Hds & Hr1).
  assert (Hne : digits (span is_digit (c0 :: s1')).1 = true).
  { simpl in *. rewrite Hs1 in *. destruct (span is_digit s1'). simpl in *.
    exact Hds. }
  destruct (span is_digit (c0 :: s1')) as [ds r1]. simpl in Hd, Hds, Hr1, Hne.
  (* the fraction and the text after it *)
  assert (Hfrac : exists f after, r1 = fraction_text f ++ after /\ fraction_ok f after = true).
  { destruct r1 as [|c r]; [exists NoFraction, []; auto|].
    destruct (is_sep c) eqn:Ec.
    - destruct (span_spec is_digit r) as (Hr & Hfd & Hr2).
      destruct (span is_digit r) as [[|d fd] r2]; simpl in Hr, Hfd, Hr2.
      + exists NoFraction, (c :: r). split; [reflexivity|]. simpl.
        rewrite (sep_not_digit _ Ec). simpl. subst r.
        destruct r2 as [|d r2]; [reflexivity|]. simpl in Hr2. rewrite Ec. simpl.
        exact Hr2.
      + exists (Frac c (d :: fd)), r2. split; [simpl; now rewrite Hr|].
        simpl. rewrite Ec. simpl. now rewrite Hfd, Hr2.
    - exists NoFraction, (c :: r). split; [reflexivity|]. simpl in *.
      rewrite Hr1, Ec. simpl. now destruct r. }
  destruct Hfrac as (f & after & Hr1' & Hf).
  destruct (span_spec is_space after) as (Ha & Hws & Hr3).
  destruct (span is_space after) as [ws r3]. simpl in Ha, Hws, Hr3.
  (* the unit and the rest *)
  assert (Hunit : exists u rest, r3 = suffix_text u ++ rest /\ suffix_ok u rest = true).
  { destruct r3 as [|a [|b rest]];
      [exists NoUnit, []; auto | exists NoUnit, [a]; simpl in *; now rewrite Hr3 |].
    destruct (is_letter 82 a && is_letter 66 b) eqn:E1;
      [exists (Thousand a b), rest; auto|].
    destruct (is_letter 74 a && is_letter 84 b) eqn:E2;
      [exists (Million a b), rest; auto|].
    exists NoUnit, (a :: b :: rest). split; [reflexivity|]. simpl in *.
    now rewrite Hr3, E1, E2. }
  destruct Hunit as (u & rest & Hr3' & Hu).
  exists pre, ds, f, ws, u, rest. subst r3 after r1.
  repeat split; try assumption. now rewrite Ht, Hd.
Qed.

Lemma digits_val_acc (ds : jstring) (acc : Z) :
  forallb is_digit ds = true -> 0 <= acc ->
  0 <= fold_left (fun acc c => 10 * acc + (Z.of_N c - 48)) ds acc.
Proof.
  revert acc. induction ds as [|c ds IH]; intros acc Hds Hacc; [exact Hacc|].
  simpl in *. apply andb_prop in Hds as [Hc Hds]. apply IH; [exact Hds|].
  unfold is_digit in Hc. apply andb_prop in Hc as [Hc _]. apply N.leb_le in Hc. lia.
Qed.

(** The value of a text without a fraction is the whole number its digits
    spell, and scaling keeps it exact as long as it stays below 2^53. *)
Lemma scale_whole (u : Suffix) (ds : jstring) :
  forallb is_digit ds = true ->
  digits_val ds * factor u < 2 ^ 53 ->
  Math_round (scale u (nearest_double (decimal ds []))) = Finite (digits_val ds * factor u).
Proof.
  intros Hds Hlt.
  assert (Hn : 0 <= digits_val ds) by (apply digits_val_acc; [exact Hds | lia]).
  assert (Hd : (decimal ds [] == inject_Z (digits_val ds))%Q).
  { unfold decimal. simpl. unfold Qdiv. rewrite Qmult_0_l. apply Qplus_0_r. }
  assert (Hf : 1 <= factor u) by (destruct u; simpl; lia).
  destruct (nearest_double_whole _ _ Hd) as (y & Hy & Hyn); [nia|].
  rewrite Hy. destruct u; simpl scale.
  - simpl. f_equal. rewrite Z.mul_1_r. now apply round_half_up_integer.
  - destruct (times_whole (Finite y) y (digits_val ds) 1000 eq_refl Hyn Hn ltac:(lia) Hlt)
      as (z & Hz & Hzn).
    change (nearest_double (y * 1000) = Finite z) in Hz. rewrite Hz. simpl. f_equal.
    now apply round_half_up_integer.
  - destruct (times_whole (Finite y) y (digits_val ds) 1000000 eq_refl Hyn Hn ltac:(lia) Hlt)
      as (z & Hz & Hzn).
    change (nearest_double (y * 1000000) = Finite z) in Hz. rewrite Hz. simpl. f_equal.
    now apply round_half_up_integer.
Qed.

End SoldTextFacts.

(** C2. [parseSoldText] on the four sample texts and on five texts that
    show the rounding: a tie goes up, be the integer below it odd or even,
    [0,5005RB] is 500 because the double product is just below 500.5, and
    9007199254740993 reads as the double next to it. On a text without a digit (the empty text included) it
    returns 0; on any text that reads as non-digits, a first run of digits,
    an optional [.] or [,] with more digits, white space, an optional RB or
    JT in any letter case, and a rest, it returns [Math.round] of the
    nearest double of the number, multiplied in doubles by 1,000 (RB) or
    1,000,000 (JT); without a fraction and below 2^53 that is the integer
    times the factor. Every text is of one of these two kinds, and the
    function is total: no input makes it throw. *)
Theorem parseSoldText_spec :
  parseSoldText (js "10RB+ terjual") = Finite 10000 /\
  parseSoldText (js "1,5JT terjual") = Finite 1500000 /\
  parseSoldText [] = Finite 0 /\
  parseSoldText (js "terjual") = Finite 0 /\
  parseSoldText (js "1,5") = Finite 2 /\
  parseSoldText (js "2,5") = Finite 3 /\
  parseSoldText (js "2,4") = Finite 2 /\
  parseSoldText (js "0,5005RB") = Finite 500 /\
  parseSoldText (js "9007199254740993") = Finite 9007199254740992 /\
  (forall text, SoldShape.no_digit text = true -> parseSoldText text = Finite 0) /\
  (forall pre ds f ws u rest,
     SoldShape.no_digit pre = true ->
     SoldShape.digits ds = true ->
     SoldShape.fraction_ok f (ws ++ SoldShape.suffix_text u ++ rest) = true ->
     forallb is_space ws = true ->
     SoldShape.suffix_ok u rest = true ->
     parseSoldText (pre ++ ds ++ SoldShape.fraction_text f ++ ws
                        ++ SoldShape.suffix_text u ++ rest)
     = Math_round (SoldShape.scale u
                     (nearest_double (decimal ds (SoldShape.fraction_digits f))))) /\
  (forall pre ds ws u rest,
     SoldShape.no_digit pre = true ->
     SoldShape.digits ds = true ->
     SoldShape.fraction_ok SoldShape.NoFraction (ws ++ SoldShape.suffix_text u ++ rest)
     = true ->
     forallb is_space ws = true ->
     SoldShape.suffix_ok u rest = true ->
     digits_val ds * SoldShape.factor u < 2 ^ 53 ->
     parseSoldText (pre ++ ds ++ ws ++ SoldShape.suffix_text u ++ rest)
     = Finite (digits_val ds * SoldShape.factor u)) /\
  (forall text,
     SoldShape.no_digit text = true \/
     exists pre ds f ws u rest,
       text = pre ++ ds ++ SoldShape.fraction_text f ++ ws
                  ++ SoldShape.suffix_text u ++ rest /\
       SoldShape.no_digit pre = true /\ SoldShape.digits ds = true /\
       SoldShape.fraction_ok f (ws ++ SoldShape.suffix_text u ++ rest) = true /\
       forallb is_space ws = true /\ SoldShape.suffix_ok u rest = true).
Proof.
  do 9 (split; [vm_compute; reflexivity|]).
  split; [|split; [|split]].
  - intros text H. rewrite parseSoldText_unfold, (regex_match_no_digit _ H). reflexivity.
  - intros. now apply parseSoldText_shape.
  - intros pre ds ws u rest Hpre Hds Hf Hws Hu Hlt.
    pose proof (parseSoldText_shape pre ds SoldShape.NoFraction ws u rest
                  Hpre Hds Hf Hws Hu) as H.
    simpl in H. rewrite H. apply scale_whole; [|exact Hlt].
    now apply digits_forallb.
  - apply sold_shape_total.
Qed.

(** The general case at "Stok: 2,75 jt lebih": 2.75 million. *)
Lemma parseSoldText_spec_witness :
  parseSoldText (js "Stok: 2,75 jt lebih") = Finite 2750000.
Proof.
  pose proof (proj1 (proj2 (proj2 (proj2 (proj2 (proj2 (proj2 (proj2 (proj2 (proj2 (proj2
                parseSoldText_spec))))))))))) as H.
  specialize (H (js "Stok: ") (js "2") (SoldShape.Frac 44%N (js "75")) (js " ")
                (SoldShape.Million 106%N 116%N) (js " lebih")
                eq_refl eq_refl eq_refl eq_refl eq_refl).
  etransitivity; [exact H|]. vm_compute. reflexivity.
Defined.

(** The claim as first stated, the result the rounded integer for every
    text, fails on a run of 400 digits, where [parseFloat] overflows and the
    result is [Infinity]; and what is rounded is the double product, not the
    number the text spells: [0,5005RB] spells 500.5, which rounds to 501,
    and is parsed as 500. *)
Lemma parseSoldText_overflow :
  parseSoldText (repeat 57%N 400) = Infinity /\
  parseSoldText (js "0,5005RB") = Finite 500 /\
  round_half_up (decimal (js "0") (js "5005") * 1000) = 501.
Proof. split; [|split]; vm_compute; reflexivity. Qed.

(** ** The response classifier *)

Section ClassifierFacts.

Import Classifier.

Lemma starts_with_app (p q s : jstring) :
  starts_with (p ++ q) s = true -> starts_with p s = true.
Proof.
  revert s. induction p as [|a p IH]; intros s H; [reflexivity|].
  destruct s as [|b s]; simpl in *; [discriminate|].
  apply andb_prop in H as [Hab H]. rewrite Hab. simpl. now apply IH.
Qed.

(** A text that includes a needle includes every prefix of the needle. *)
Lemma includes_prefix (s p q : jstring) :
  includes s (p ++ q) = true -> includes s p = true.
Proof.
  induction s as [|c s IH]; simpl; intros H.
  - apply orb_prop in H as [H|H]; [|discriminate].
    rewrite (starts_with_app _ _ _ H). reflexivity.
  - apply orb_prop in H as [H|H].
    + rewrite (starts_with_app _ _ _ H). reflexivity.
    + rewrite (IH H). apply orb_true_r.
Qed.

Lemma category_is_products (url : jstring) :
  includes url url_category = true ->
  includes url (js "/api/v4/recommend/recommend") = true.
Proof.
  intros H. apply (includes_prefix url (js "/api/v4/recommend/recommend") (js "_v2")).
  exact H.
Qed.

(** The calls a response triggers: the shop call, the product-detail call,
    then at most one of search, category and products. *)
Lemma responseReceived_shape (url : jstring) :
  exists last,
    responseReceived url
    = (if includes url url_shop then [shop] else [])
      ++ (if includes url url_pdp then [pdp] else []) ++ last /\
    last = (if includes url url_search then [search]
            else if includes url url_category then [category]
            else if existsb (includes url) url_products then [products]
            else []).
Proof.
  unfold responseReceived. eexists. split; [|reflexivity].
  destruct (includes url url_search); [reflexivity|].
  destruct (includes url url_category); [reflexivity|].
  destruct (existsb (includes url) url_products); [reflexivity|].
  now rewrite app_nil_r.
Qed.

Lemma In_responseReceived (url : jstring) (k : Kind) :
  In k (responseReceived url) <->
  match k with
  | shop => includes url url_shop = true
  | pdp => includes url url_pdp = true
  | search => includes url url_search = true
  | category => includes url url_search = false /\ includes url url_category = true
  | products =>
      includes url url_search = false /\ includes url url_category = false /\
      existsb (includes url) url_products = true
  end.
Proof.
  unfold responseReceived.
  destruct (includes url url_shop), (includes url url_pdp), (includes url url_search),
    (includes url url_category), (existsb (includes url) url_products), k;
    simpl; intuition congruence.
Qed.

End ClassifierFacts.

(** C6, as the listener has it. A response whose URL includes the search
    path is fetched as search and never as category or product-list; one
    whose URL includes the category path and not the search path is fetched
    as category and never as product-list, although it includes the
    product-list substring [/api/v4/recommend/recommend]; the shop and
    product-detail checks are independent of these: a shop fetch is started
    exactly when the URL includes the shop path and a product-detail fetch
    exactly when it includes the product-detail path, whatever else the URL
    includes, and nothing else is started; a URL that includes none of the
    known substrings, and any event other than [Network.responseReceived],
    triggers no fetch. The classifier is a total function. *)
Theorem classifier_exclusive (url : jstring) :
  let calls := Classifier.responseReceived url in
  (includes url Classifier.url_search = true ->
     In Classifier.search calls /\ ~ In Classifier.category calls /\
     ~ In Classifier.products calls) /\
  (includes url Classifier.url_category = true ->
     includes url (js "/api/v4/recommend/recommend") = true /\
     ~ In Classifier.products calls /\
     (includes url Classifier.url_search = false ->
        In Classifier.category calls /\ ~ In Classifier.search calls)) /\
  (includes url Classifier.url_shop = false ->
   includes url Classifier.url_pdp = false ->
     (includes url Classifier.url_search = true -> calls = [Classifier.search]) /\
     (includes url Classifier.url_search = false ->
      includes url Classifier.url_category = true -> calls = [Classifier.category])) /\
  (includes url Classifier.url_shop = false ->
   includes url Classifier.url_pdp = false ->
   includes url Classifier.url_search = false ->
   includes url Classifier.url_category = false ->
   existsb (includes url) Classifier.url_products = false ->
     calls = []) /\
  Classifier.onEvent (js "Network.responseReceived") (Some url) = calls /\
  Classifier.onEvent (js "Network.responseReceived") None = [] /\
  (forall method, method <> js "Network.responseReceived" ->
     Classifier.onEvent method (Some url) = []) /\
  (In Classifier.shop calls <-> includes url Classifier.url_shop = true) /\
  (In Classifier.pdp calls <-> includes url Classifier.url_pdp = true) /\
  calls = (if includes url Classifier.url_shop then [Classifier.shop] else [])
          ++ (if includes url Classifier.url_pdp then [Classifier.pdp] else [])
          ++ (if includes url Classifier.url_search then [Classifier.search]
              else if includes url Classifier.url_category then [Classifier.category]
              else if existsb (includes url) Classifier.url_products
                   then [Classifier.products]
              else []).
Proof.
  intros calls. subst calls.
  split; [|split; [|split; [|split; [|split; [|split; [|split; [|split; [|split]]]]]]]];
    [| | | | | | | apply (In_responseReceived url Classifier.shop)
                 | apply (In_responseReceived url Classifier.pdp)
                 | destruct (responseReceived_shape url) as (last & -> & ->); reflexivity].
  - intros Hs. split; [now apply In_responseReceived|].
    split; rewrite In_responseReceived; intros [Hn _]; congruence.
  - intros Hc. split; [now apply category_is_products|]. split.
    + rewrite In_responseReceived. intros (_ & Hn & _). congruence.
    + intros Hs. split; [apply In_responseReceived; auto|].
      rewrite In_responseReceived. congruence.
  - intros H1 H2. unfold Classifier.responseReceived. rewrite H1, H2. split.
    + intros Hs. now rewrite Hs.
    + intros Hs Hc. now rewrite Hs, Hc.
  - intros H1 H2 H3 H4 H5. unfold Classifier.responseReceived.
    now rewrite H1, H2, H3, H4, H5.
  - unfold Classifier.onEvent. rewrite bool_decide_eq_true_2 by reflexivity.
    destruct url; reflexivity.
  - reflexivity.
  - intros method Hm. unfold Classifier.onEvent.
    now rewrite bool_decide_eq_false_2.
Qed.

(** C6 as stated fails: a URL that includes the search path is not always
    fetched only as search (here the shop fetch comes first), and a URL that
    includes the category path is not always fetched as category (here the
    search path wins). *)
Lemma classifier_not_only_search :
  Classifier.responseReceived
    (js "https://shopee.co.id/api/v4/search/search_items?from=/api/v4/shop/get_shop_base")
  = [Classifier.shop; Classifier.search] /\
  Classifier.responseReceived
    (js "https://shopee.co.id/api/v4/recommend/recommend_v2?from=/api/v4/search/search_items")
  = [Classifier.search] /\
  ~ (forall url, includes url Classifier.url_search = true ->
       Classifier.responseReceived url = [Classifier.search]) /\
  ~ (forall url, includes url Classifier.url_category = true ->
       Classifier.responseReceived url = [Classifier.category]).
Proof.
  split; [vm_compute; reflexivity|]. split; [vm_compute; reflexivity|]. split.
  - intros H.
    specialize (H (js "/api/v4/search/search_items?from=/api/v4/shop/get_shop_base") eq_refl).
    vm_compute in H. discriminate H.
  - intros H.
    specialize (H (js "/api/v4/recommend/recommend_v2?from=/api/v4/search/search_items") eq_refl).
    vm_compute in H. discriminate H.
Qed.

(** ** The JavaScript [Map] *)

Section JsMapFacts.

Context {V : Type}.
Implicit Types (m : JsMap.t V) (k : Z) (v : V).

Lemma has_keys m k : JsMap.has m k = true <-> k ∈ JsMap.keys m.
Proof.
  unfold JsMap.has, JsMap.keys. induction m as [|[k' v'] m IH]; csimpl.
  - split; [discriminate | intros H; inversion H].
  - rewrite elem_of_cons, orb_true_iff, IH, Z.eqb_eq. intuition congruence.
Qed.

Lemma keys_set m k v :
  JsMap.keys (JsMap.set k v m)
  = if JsMap.has m k then JsMap.keys m else JsMap.keys m ++ [k].
Proof.
  unfold JsMap.keys, JsMap.has. induction m as [|[k' v'] m IH]; csimpl; [reflexivity|].
  destruct (Z.eqb_spec k' k) as [->|Hne]; csimpl; [reflexivity|].
  fold (JsMap.set k v m). rewrite IH. now destruct (existsb _ m).
Qed.

Lemma size_set m k v :
  JsMap.size (JsMap.set k v m)
  = if JsMap.has m k then JsMap.size m else S (JsMap.size m).
Proof.
  pose proof (keys_set m k v) as H. apply (f_equal length) in H.
  unfold JsMap.keys, JsMap.size in *. rewrite length_fmap in H. rewrite H.
  destruct (JsMap.has m k); rewrite ?length_app, length_fmap; csimpl; lia.
Qed.

Lemma elem_of_keys_set m k v k' :
  k' ∈ JsMap.keys (JsMap.set k v m) <-> k' = k \/ k' ∈ JsMap.keys m.
Proof.
  rewrite keys_set. destruct (JsMap.has m k) eqn:E.
  - apply has_keys in E. intuition congruence.
  - rewrite elem_of_app, list_elem_of_singleton. tauto.
Qed.

Lemma NoDup_keys_set m k v :
  NoDup (JsMap.keys m) -> NoDup (JsMap.keys (JsMap.set k v m)).
Proof.
  intros H. rewrite keys_set. destruct (JsMap.has m k) eqn:E; [exact H|].
  apply NoDup_app. repeat split; [exact H | | apply NoDup_singleton].
  intros x Hx Hk. apply list_elem_of_singleton in Hk. subst x.
  apply has_keys in Hx. congruence.
Qed.

Lemma get_set_eq m k v : JsMap.get (JsMap.set k v m) k = Some v.
Proof.
  induction m as [|[k' v'] m IH]; csimpl.
  - now rewrite Z.eqb_refl.
  - destruct (Z.eqb_spec k' k) as [->|Hne]; csimpl.
    + now rewrite Z.eqb_refl.
    + destruct (Z.eqb_spec k' k); [contradiction | exact IH].
Qed.

Lemma get_set_ne m k v k' : k <> k' -> JsMap.get (JsMap.set k v m) k' = JsMap.get m k'.
Proof.
  intros Hne. induction m as [|[k0 v0] m IH]; csimpl.
  - destruct (Z.eqb_spec k k'); [contradiction | reflexivity].
  - destruct (Z.eqb_spec k0 k) as [->|Hk]; csimpl.
    + destruct (Z.eqb_spec k k'); [contradiction | reflexivity].
    + now rewrite IH.
Qed.

Lemma get_None_keys m k : JsMap.get m k = None <-> k ∉ JsMap.keys m.
Proof.
  unfold JsMap.keys. induction m as [|[k' v'] m IH]; csimpl.
  - split; [intros _ H; inversion H | reflexivity].
  - rewrite elem_of_cons. destruct (Z.eqb_spec k' k) as [->|Hne].
    + split; [discriminate | intros H; exfalso; apply H; now left].
    + rewrite IH. intuition congruence.
Qed.

(** A value found in the map was in it before or is the one just set. *)
Lemma get_set_inv m k v k' v' :
  JsMap.get (JsMap.set k v m) k' = Some v' ->
  (k' = k /\ v' = v) \/ JsMap.get m k' = Some v'.
Proof.
  destruct (Z.eq_dec k k') as [->|Hne].
  - rewrite get_set_eq. intros [= ->]. now left.
  - rewrite get_set_ne by exact Hne. now right.
Qed.

Lemma NoDup_keys_set_all kvs m :
  NoDup (JsMap.keys m) -> NoDup (JsMap.keys (JsMap.set_all kvs m)).
Proof.
  revert m. induction kvs as [|e kvs IH]; intros m H; [exact H|].
  apply IH. now apply NoDup_keys_set.
Qed.

Lemma elem_of_keys_set_all kvs m k :
  k ∈ JsMap.keys (JsMap.set_all kvs m) <-> k ∈ JsMap.keys m \/ k ∈ kvs.*1.
Proof.
  revert m. induction kvs as [|e kvs IH]; intros m; csimpl.
  - rewrite elem_of_nil. tauto.
  - unfold JsMap.set_all in *. csimpl. rewrite IH, elem_of_keys_set, elem_of_cons. tauto.
Qed.

Lemma get_set_all_inv kvs m k v :
  JsMap.get (JsMap.set_all kvs m) k = Some v -> JsMap.get m k = Some v \/ (k, v) ∈ kvs.
Proof.
  revert m. induction kvs as [|[k0 v0] kvs IH]; intros m H; [now left|].
  unfold JsMap.set_all in *. csimpl in H. apply IH in H as [H|H].
  - apply get_set_inv in H as [[-> ->]|H]; [right; left | now left].
  - right. now right.
Qed.

End JsMapFacts.

Section NewIds.

Import Distinct.

Lemma new_ids_known (known ids : list Z) (k : Z) :
  k ∈ known -> new_ids known (k :: ids) = new_ids known ids.
Proof.
  intros H. unfold new_ids. now rewrite filter_cons_False by (intros Hn; now apply Hn).
Qed.

Lemma new_ids_fresh (known ids : list Z) (k : Z) :
  k ∉ known ->
  length (new_ids known (k :: ids)) = S (length (new_ids (known ++ [k]) ids)).
Proof.
  intros H. unfold new_ids. rewrite filter_cons_True by exact H.
  change (S (length ?l)) with (length (k :: l)).
  apply Permutation_length, NoDup_Permutation.
  - apply NoDup_remove_dups.
  - apply NoDup_cons. split; [|apply NoDup_remove_dups].
    rewrite elem_of_remove_dups, list_elem_of_filter, elem_of_app, list_elem_of_singleton.
    tauto.
  - intros x.
    rewrite elem_of_remove_dups, !elem_of_cons, elem_of_remove_dups,
      !list_elem_of_filter, elem_of_app, list_elem_of_singleton.
    destruct (decide (x = k)); tauto.
Qed.

Lemma new_ids_nil (ids : list Z) : new_ids [] ids = remove_dups ids.
Proof.
  unfold new_ids. f_equal. induction ids as [|k ids IH]; [reflexivity|].
  rewrite filter_cons_True by apply not_elem_of_nil. now rewrite IH.
Qed.

(** Setting a batch of entries adds one record per distinct new key. *)
Lemma size_set_all {V} (kvs : list (Z * V)) (m : JsMap.t V) :
  JsMap.size (JsMap.set_all kvs m)
  = (JsMap.size m + length (new_ids (JsMap.keys m) kvs.*1))%nat.
Proof.
  revert m. induction kvs as [|[k v] kvs IH]; intros m.
  - simpl. unfold new_ids. simpl. lia.
  - unfold JsMap.set_all in *. csimpl. rewrite IH, size_set, keys_set.
    destruct (JsMap.has m k) eqn:E.
    + apply has_keys in E. now rewrite new_ids_known.
    + assert (k ∉ JsMap.keys m) by (rewrite <- has_keys; congruence).
      rewrite new_ids_fresh by assumption. lia.
Qed.

End NewIds.

(** ** The per-tab store: [processItems] and [mergeProducts] *)

Section StoreFacts.

Import Distinct.

Lemma normalize_key (item : Item.t) :
  fst <$> Store.normalize item = Store.key_of item.
Proof.
  unfold Store.normalize. destruct (Store.key_of item); [|reflexivity].
  now destruct (Store.prices item).
Qed.

Lemma normalize_itemid (item : Item.t) (k : Z) (p : Product.t) :
  Store.normalize item = Some (k, p) -> Product.itemid p = k /\ Store.key_of item = Some k.
Proof.
  unfold Store.normalize. destruct (Store.key_of item); [|discriminate].
  destruct (Store.prices item). intros [= <- <-]. auto.
Qed.

Lemma fold_upsert (items : list Item.t) (m : JsMap.t Product.t) :
  fold_left Store.upsert items m = JsMap.set_all (omap Store.normalize items) m.
Proof.
  revert m. induction items as [|item items IH]; intros m; [reflexivity|].
  simpl. rewrite IH. unfold Store.upsert.
  now destruct (Store.normalize item) as [[k p]|].
Qed.

Lemma normalized_keys (items : list Item.t) :
  (omap Store.normalize items).*1 = batch_ids items.
Proof.
  unfold batch_ids. induction items as [|item items IH]; [reflexivity|].
  csimpl. rewrite <- normalize_key.
  destruct (Store.normalize item) as [[k p]|]; csimpl; now rewrite IH.
Qed.

Lemma entry_ensure (tabId : Z) (tbl : gmap Z Store.ShopData) :
  Store.entry tabId (Store.ensure tabId tbl) = Store.entry tabId tbl.
Proof.
  unfold Store.entry, Store.ensure. destruct (tbl !! tabId) eqn:E.
  - now rewrite E.
  - now rewrite lookup_insert_eq.
Qed.

Lemma entry_insert (tabId : Z) (d : Store.ShopData) (tbl : gmap Z Store.ShopData) :
  Store.entry tabId (<[tabId := d]> tbl) = d.
Proof. unfold Store.entry. now rewrite lookup_insert_eq. Qed.

(** What one call leaves in the tab's entry. *)
Lemma processItems_entry (tabId : Z) (items : list Item.t) (total : option Q)
    (tbl : gmap Z Store.ShopData) :
  let d := Store.entry tabId (Store.processItems tabId items total tbl) in
  Store.products d = fold_left Store.upsert items (Store.products (Store.entry tabId tbl)) /\
  Store.totalCaptured d = JsMap.size (Store.products d) /\
  Store.shopInfo d = Store.shopInfo (Store.entry tabId tbl).
Proof.
  unfold Store.processItems. rewrite entry_insert, entry_ensure. simpl. auto.
Qed.

Lemma batches_products (tabId : Z) (batches : list (list Item.t * option Q))
    (tbl : gmap Z Store.ShopData) :
  Store.products (Store.entry tabId (batches_run tabId batches tbl))
  = fold_left Store.upsert (concat batches.*1) (Store.products (Store.entry tabId tbl)).
Proof.
  revert tbl. induction batches as [|[items total] batches IH]; intros tbl; [reflexivity|].
  unfold batches_run in *. csimpl. rewrite IH, fold_left_app.
  now rewrite (proj1 (processItems_entry tabId items total tbl)).
Qed.

Lemma batches_counter (tabId : Z) (batches : list (list Item.t * option Q))
    (tbl : gmap Z Store.ShopData) :
  batches <> [] ->
  let d := Store.entry tabId (batches_run tabId batches tbl) in
  Store.totalCaptured d = JsMap.size (Store.products d).
Proof.
  intros Hne. destruct (exists_last Hne) as (front & [items total] & ->).
  unfold batches_run. rewrite fold_left_app. simpl.
  apply processItems_entry.
Qed.

Lemma merge_second_fold (news : list Product.t) (m : JsMap.t Product.t) (n : nat) :
  fold_left (fun '(m, n) p =>
               (JsMap.set (Product.itemid p) p m,
                if JsMap.has m (Product.itemid p) then n else S n))
            news (m, n)
  = (JsMap.set_all ((fun p => (Product.itemid p, p)) <$> news) m,
     (n + length (new_ids (JsMap.keys m) (Product.itemid <$> news)))%nat).
Proof.
  revert m n. induction news as [|p news IH]; intros m n.
  - simpl. unfold new_ids. simpl. f_equal. lia.
  - csimpl. rewrite IH. unfold JsMap.set_all at 2. csimpl. f_equal.
    rewrite keys_set. destruct (JsMap.has m (Product.itemid p)) eqn:E.
    + apply has_keys in E. now rewrite new_ids_known.
    + assert (Product.itemid p ∉ JsMap.keys m) by (rewrite <- has_keys; congruence).
      rewrite new_ids_fresh by assumption. lia.
Qed.

Lemma merge_first_fold (existing : list Product.t) (m : JsMap.t Product.t) :
  fold_left (fun m p => JsMap.set (Product.itemid p) p m) existing m
  = JsMap.set_all ((fun p => (Product.itemid p, p)) <$> existing) m.
Proof.
  revert m. induction existing as [|p l IH]; intros m; [reflexivity|].
  simpl. now rewrite IH.
Qed.

Lemma fmap_pair_fst (l : list Product.t) :
  ((fun p => (Product.itemid p, p)) <$> l).*1 = Product.itemid <$> l.
Proof. rewrite <- list_fmap_compose. reflexivity. Qed.

Lemma length_remove_dups_NoDup (l : list Z) : NoDup l -> length (remove_dups l) = length l.
Proof.
  intros H. apply Permutation_length, NoDup_Permutation;
    [apply NoDup_remove_dups | exact H | intros x; apply elem_of_remove_dups].
Qed.

(** The values of a map hold their own keys when every entry set did. *)
Lemma values_itemid (kvs : list (Z * Product.t)) (m : JsMap.t Product.t) :
  Forall (fun e => Product.itemid e.2 = e.1) kvs ->
  Forall (fun e => Product.itemid e.2 = e.1) m ->
  Forall (fun e => Product.itemid e.2 = e.1) (JsMap.set_all kvs m).
Proof.
  revert m. induction kvs as [|[k v] kvs IH]; intros m Hk Hm; [exact Hm|].
  unfold JsMap.set_all in *. simpl. inversion Hk; subst. apply IH; [assumption|].
  clear -Hm H1. induction m as [|[k' v'] m IHm]; simpl.
  - constructor; [assumption | constructor].
  - inversion Hm; subst. destruct (Z.eqb k' k); constructor; auto.
Qed.

Lemma merge_ids (existing news : list Product.t) :
  Product.itemid <$> (Overlay.mergeProducts existing news).1
  = JsMap.keys (JsMap.set_all ((fun p => (Product.itemid p, p)) <$> news)
                  (JsMap.set_all ((fun p => (Product.itemid p, p)) <$> existing) [])).
Proof.
  unfold Overlay.mergeProducts. rewrite merge_first_fold, merge_second_fold. simpl.
  unfold JsMap.values, JsMap.keys. rewrite <- list_fmap_compose.
  apply Forall_fmap_ext_1.
  apply values_itemid.
  - apply Forall_fmap, Forall_true. reflexivity.
  - apply values_itemid; [|constructor]. apply Forall_fmap, Forall_true. reflexivity.
Qed.

End StoreFacts.

Section UpsertFacts.

Import Distinct.

Lemma new_ids_same_known (known known' ids : list Z) :
  (forall x, x ∈ known <-> x ∈ known') -> new_ids known ids = new_ids known' ids.
Proof.
  intros H. unfold new_ids. f_equal. apply list_filter_iff. intros x. now rewrite H.
Qed.

Lemma processItems_size (tabId : Z) (items : list Item.t) (total : option Q)
    (tbl : gmap Z Store.ShopData) :
  let before := Store.products (Store.entry tabId tbl) in
  let d := Store.entry tabId (Store.processItems tabId items total tbl) in
  JsMap.size (Store.products d)
  = (JsMap.size before + length (new_ids (JsMap.keys before) (batch_ids items)))%nat.
Proof.
  intros before d. subst d.
  rewrite (proj1 (processItems_entry tabId items total tbl)), fold_upsert, size_set_all.
  now rewrite normalized_keys.
Qed.

Lemma processItems_NoDup (tabId : Z) (items : list Item.t) (total : option Q)
    (tbl : gmap Z Store.ShopData) :
  NoDup (JsMap.keys (Store.products (Store.entry tabId tbl))) ->
  NoDup (JsMap.keys (Store.products
           (Store.entry tabId (Store.processItems tabId items total tbl)))).
Proof.
  intros H. rewrite (proj1 (processItems_entry tabId items total tbl)), fold_upsert.
  now apply NoDup_keys_set_all.
Qed.

Lemma batches_bound (tabId : Z) (batches : list (list Item.t * option Q))
    (tbl : gmap Z Store.ShopData) :
  Store.products (Store.entry tabId tbl) = [] ->
  let d := Store.entry tabId (batches_run tabId batches tbl) in
  NoDup (JsMap.keys (Store.products d)) /\
  (JsMap.size (Store.products d)
   <= length (remove_dups (batch_ids (concat batches.*1))))%nat.
Proof.
  intros Hempty d. subst d. rewrite batches_products, Hempty, fold_upsert.
  assert (Hnd : NoDup (JsMap.keys (JsMap.set_all
             (omap Store.normalize (concat batches.*1)) ([] : JsMap.t Product.t))))
    by (apply NoDup_keys_set_all; constructor).
  split; [exact Hnd|].
  unfold JsMap.size. rewrite <- (length_fmap fst). apply submseteq_length.
  apply NoDup_submseteq; [exact Hnd|].
  intros x Hx. apply elem_of_keys_set_all in Hx as [Hx|Hx]; [inversion Hx|].
  rewrite normalized_keys in Hx. now apply elem_of_remove_dups.
Qed.

Lemma mergeProducts_NoDup (existing news : list Product.t) :
  NoDup (Product.itemid <$> (Overlay.mergeProducts existing news).1).
Proof.
  rewrite merge_ids. apply NoDup_keys_set_all, NoDup_keys_set_all. constructor.
Qed.

Lemma mergeProducts_count (existing news : list Product.t) :
  NoDup (Product.itemid <$> existing) ->
  let k := length (new_ids (Product.itemid <$> existing) (Product.itemid <$> news)) in
  length (Overlay.mergeProducts existing news).1 = (length existing + k)%nat /\
  (Overlay.mergeProducts existing news).2 = k.
Proof.
  intros Hnd k. subst k.
  assert (Hknown : new_ids (JsMap.keys (JsMap.set_all
              ((fun p => (Product.itemid p, p)) <$> existing) []))
              (Product.itemid <$> news)
            = new_ids (Product.itemid <$> existing) (Product.itemid <$> news)).
  { apply new_ids_same_known. intros x.
    rewrite elem_of_keys_set_all, fmap_pair_fst.
    split; [intros [H|H]; [inversion H | exact H] | now right]. }
  split.
  - rewrite <- (length_fmap Product.itemid), merge_ids.
    unfold JsMap.keys. rewrite length_fmap.
    change (length ?m) with (JsMap.size m) at 1.
    rewrite !size_set_all, !fmap_pair_fst, Hknown, new_ids_nil.
    rewrite (length_remove_dups_NoDup _ Hnd), length_fmap. reflexivity.
  - unfold Overlay.mergeProducts. rewrite merge_first_fold, merge_second_fold. simpl.
    now rewrite Hknown.
Qed.

End UpsertFacts.

(** C3. Feeding any sequence of batches to [processItems] for a tab whose
    product map starts empty leaves a map with pairwise distinct keys, no
    larger than the number of distinct item ids submitted, and a capture
    counter equal to the map size; one call on any table adds exactly one
    record per distinct new id of the batch, keeps the keys distinct and
    sets the counter to the new size; [mergeProducts] returns records with
    distinct ids, and on an existing array with distinct ids it returns
    |A|+k records, k being the number of distinct new ids, which is also
    the count it logs. *)
Theorem upsert_correct :
  (forall tabId batches tbl,
     Store.products (Store.entry tabId tbl) = [] ->
     let d := Store.entry tabId (Distinct.batches_run tabId batches tbl) in
     NoDup (JsMap.keys (Store.products d)) /\
     (JsMap.size (Store.products d)
      <= length (remove_dups (Distinct.batch_ids (concat batches.*1))))%nat /\
     (batches <> [] -> Store.totalCaptured d = JsMap.size (Store.products d))) /\
  (forall tabId items total tbl,
     let before := Store.products (Store.entry tabId tbl) in
     let d := Store.entry tabId (Store.processItems tabId items total tbl) in
     JsMap.size (Store.products d)
     = (JsMap.size before
        + length (Distinct.new_ids (JsMap.keys before) (Distinct.batch_ids items)))%nat /\
     Store.totalCaptured d = JsMap.size (Store.products d) /\
     (NoDup (JsMap.keys before) -> NoDup (JsMap.keys (Store.products d)))) /\
  (forall existing news,
     let merged := Overlay.mergeProducts existing news in
     let k := length (Distinct.new_ids (Product.itemid <$> existing)
                                       (Product.itemid <$> news)) in
     NoDup (Product.itemid <$> merged.1) /\
     (NoDup (Product.itemid <$> existing) ->
        length merged.1 = (length existing + k)%nat /\ merged.2 = k)).
Proof.
  split; [|split].
  - intros tabId batches tbl Hempty d.
    destruct (batches_bound tabId batches tbl Hempty) as [Hnd Hle].
    split; [exact Hnd|]. split; [exact Hle|].
    intros Hne. now apply batches_counter.
  - intros tabId items total tbl before d. split; [apply processItems_size|].
    split; [apply processItems_entry | apply processItems_NoDup].
  - intros existing news merged k. split; [apply mergeProducts_NoDup|].
    intros Hnd. now apply mergeProducts_count.
Qed.

(** C3 at one batch with ids 1, 2, 1 fed to an empty table: two records. *)
Lemma upsert_correct_witness :
  let items := [Samples.list_item 1 (Some 5000%Q) None;
                Samples.list_item 2 (Some 7000%Q) None;
                Samples.list_item 1 (Some 6000%Q) None] in
  let d := Store.entry 7 (Store.processItems 7 items None ∅) in
  JsMap.size (Store.products d) = 2%nat /\ Store.totalCaptured d = 2%nat.
Proof.
  intros items d.
  destruct (proj1 (proj2 upsert_correct) 7 items None ∅) as (Hsize & Hcount & _).
  fold d in Hsize, Hcount. rewrite Hcount, Hsize. split; reflexivity.
Defined.

(** ** The price rescale *)

Section PriceFacts.

Local Open Scope Q_scope.

Lemma truthy_spec (x : Q) : truthy x = true <-> ~ x == 0.
Proof.
  unfold truthy. rewrite negb_true_iff. split.
  - intros H E. apply Qeq_bool_iff in E. congruence.
  - intros H. destruct (Qeq_bool x 0) eqn:E; [|reflexivity].
    apply Qeq_bool_iff in E. contradiction.
Qed.

Lemma rescaled_nonzero (x : Q) : ~ x == 0 -> ~ x / 100000 == 0.
Proof.
  intros H E. apply H.
  assert (Hx : x == x / 100000 * 100000) by field.
  rewrite Hx, E. reflexivity.
Qed.

(** The price fields of a stored record, in terms of [Store.prices]. *)
Lemma normalize_prices (item : Item.t) (k : Z) (prod : Product.t) :
  Store.normalize item = Some (k, prod) ->
  Product.price prod = (Store.prices item).1 /\
  Product.original_price prod
  = (if truthy (Store.prices item).2 then (Store.prices item).2 else (Store.prices item).1).
Proof.
  unfold Store.normalize. destruct (Store.key_of item); [|discriminate].
  destruct (Store.prices item) as [p s]. intros [= <- <-]. simpl. auto.
Qed.

(** Both list prices follow the main price: divided when it exceeds
    1,000,000, kept otherwise. *)
Lemma list_price_rule (item : Item.t) (k : Z) (prod : Product.t) :
  Store.normalize item = Some (k, prod) ->
  let info := or_empty (Item.item_card_display_price item) PriceInfo.empty in
  let p := num_or (PriceInfo.price info) (num_or (Item.price item) 0) in
  let s := num_or (PriceInfo.strikethrough_price info) 0 in
  (1000000 < p ->
   Product.price prod = p / 100000 /\
   Product.original_price prod
   = if truthy (s / 100000) then s / 100000 else p / 100000) /\
  (p <= 1000000 ->
   Product.price prod = p /\
   Product.original_price prod = if truthy s then s else p).
Proof.
  intros H info p s. apply normalize_prices in H as [-> ->].
  unfold Store.prices, Store.input_price, Store.input_strikethrough. fold info. fold p s.
  destruct (Qlt_le_dec 1000000 p) as [Hlt|Hle]; simpl; split; intros H;
    try (split; reflexivity); exfalso; lra.
Qed.

Lemma category_price_rule (u : Category.UnitItem) :
  let info := or_empty (Category.item_card_display_price
                          (or_empty (Category.item_data u) Category.no_item_data))
                PriceInfo.empty in
  let p := num_or (PriceInfo.price info) 0 in
  let o := num_or (PriceInfo.strikethrough_price info) p in
  let prod := Category.product_of u in
  (1000000 < p ->
   Category.price prod = p / 100000 /\ Category.originalPrice prod = o / 100000) /\
  (p <= 1000000 -> Category.price prod = p /\ Category.originalPrice prod = o).
Proof.
  intros info p o prod. subst prod. unfold Category.product_of. fold info.
  unfold Category.prices, Category.input_price. fold p. fold o.
  destruct (Qlt_le_dec 1000000 p) as [Hlt|Hle]; simpl; split; intros H;
    try (split; reflexivity); exfalso; lra.
Qed.

(** Every record [processItems] leaves in a fresh table is the
    normalization of one of the items. *)
Lemma processItems_records (tabId : Z) (items : list Item.t) (total : option Q)
    (k : Z) (prod : Product.t) :
  JsMap.get (Store.products (Store.entry tabId (Store.processItems tabId items total ∅))) k
  = Some prod ->
  exists item, item ∈ items /\ Store.normalize item = Some (k, prod).
Proof.
  rewrite (proj1 (processItems_entry tabId items total ∅)), fold_upsert.
  intros H. apply get_set_all_inv in H as [H|H]; [discriminate H|].
  apply list_elem_of_omap in H as (item & Hin & Hn). eauto.
Qed.

(** The [products] array of the category branch holds the normalization of
    the item units, in order. *)
Lemma category_products (units : list Category.Unit) :
  (Category.normalize units).1
  = omap (fun unit =>
            if jstring_eqb (str_or (Category.data_type unit) []) (js "item")
            then Category.product_of <$> Category.item unit else None) units.
Proof.
  unfold Category.normalize.
  assert (H : forall acc,
    (fold_left Category.visit units acc).1
    = acc.1 ++ omap (fun unit =>
            if jstring_eqb (str_or (Category.data_type unit) []) (js "item")
            then Category.product_of <$> Category.item unit else None) units).
  { induction units as [|unit units IH]; intros acc; csimpl.
    - now rewrite app_nil_r.
    - rewrite IH. unfold Category.visit.
      destruct (Category.item unit) as [u|]; csimpl.
      + destruct (jstring_eqb _ _); csimpl; [now rewrite <- app_assoc | reflexivity].
      + now destruct (jstring_eqb _ _). }
  specialize (H ([], [])). destruct (fold_left Category.visit units ([], [])). exact H.
Qed.

End PriceFacts.

(** C1. In product-list normalization and in category normalization it is
    the main input price (the display price, else in the product list the
    legacy price, else 0) that decides the rescale of both prices of an
    item: when it exceeds 1,000,000 the price and the strikethrough price
    (in the category branch the original price: the strikethrough price, or
    else the price) are divided by 100,000, and when it is at most
    1,000,000 both are emitted as they are. Every record [processItems]
    stores and every product of the category branch is such a
    normalization. In both branches a price of 2,500,000 gives 25 and a
    price of 50,000 gives 50,000. *)
Theorem price_rescale :
  (forall item k prod,
     Store.normalize item = Some (k, prod) ->
     let info := or_empty (Item.item_card_display_price item) PriceInfo.empty in
     let p := num_or (PriceInfo.price info) (num_or (Item.price item) 0) in
     let s := num_or (PriceInfo.strikethrough_price info) 0 in
     ((1000000 < p)%Q ->
      Product.price prod = (p / 100000)%Q /\
      Product.original_price prod
      = if truthy (s / 100000) then (s / 100000)%Q else (p / 100000)%Q) /\
     ((p <= 1000000)%Q ->
      Product.price prod = p /\
      Product.original_price prod = if truthy s then s else p)) /\
  (forall tabId items total k prod,
     JsMap.get (Store.products
                  (Store.entry tabId (Store.processItems tabId items total ∅))) k
     = Some prod ->
     exists item, item ∈ items /\ Store.normalize item = Some (k, prod)) /\
  (forall u,
     let info := or_empty (Category.item_card_display_price
                             (or_empty (Category.item_data u) Category.no_item_data))
                   PriceInfo.empty in
     let p := num_or (PriceInfo.price info) 0 in
     let o := num_or (PriceInfo.strikethrough_price info) p in
     let prod := Category.product_of u in
     ((1000000 < p)%Q ->
      Category.price prod = (p / 100000)%Q /\
      Category.originalPrice prod = (o / 100000)%Q) /\
     ((p <= 1000000)%Q ->
      Category.price prod = p /\ Category.originalPrice prod = o)) /\
  (forall units prod,
     prod ∈ (Category.normalize units).1 ->
     exists unit u, unit ∈ units /\ Category.item unit = Some u /\
                    prod = Category.product_of u) /\
  (forall id prod,
     Store.normalize (Samples.list_item id (Some 2500000%Q) None) = Some (id, prod) ->
     (Product.price prod == 25)%Q /\ (Product.original_price prod == 25)%Q) /\
  (forall id strikethrough prod,
     Store.normalize (Samples.list_item id (Some 50000%Q) strikethrough) = Some (id, prod) ->
     Product.price prod = 50000%Q) /\
  (let big := Category.product_of (Samples.priced_unit (Some 2500000%Q) None) in
   let small := Category.product_of (Samples.priced_unit (Some 50000%Q) None) in
   (Category.price big == 25)%Q /\ (Category.originalPrice big == 25)%Q /\
   Category.price small = 50000%Q /\ Category.originalPrice small = 50000%Q).
Proof.
  split; [|split; [|split; [|split; [|split; [|split]]]]].
  - intros item k prod H. exact (list_price_rule item k prod H).
  - apply processItems_records.
  - intros u. exact (category_price_rule u).
  - intros units prod H. rewrite category_products in H.
    apply list_elem_of_omap in H as (unit & Hin & Hu).
    destruct (jstring_eqb _ _); [|discriminate].
    destruct (Category.item unit) as [u|] eqn:E; [|discriminate].
    injection Hu as <-. eauto.
  - intros id prod H. destruct (list_price_rule _ _ _ H) as [Hhi _].
    destruct (Hhi eq_refl) as [-> ->]. split; reflexivity.
  - intros id strikethrough prod H. destruct (list_price_rule _ _ _ H) as [_ Hlo].
    apply Hlo. discriminate.
  - repeat split.
Qed.

(** C1 at a list item priced 2,500,000: the stored price equals 25. *)
Lemma price_rescale_witness :
  exists prod,
    Store.normalize (Samples.list_item 7 (Some 2500000%Q) None) = Some (7, prod) /\
    (Product.price prod == 25)%Q.
Proof.
  eexists. split; [reflexivity|].
  match goal with
  | |- (Product.price ?prod == _)%Q =>
      pose proof (proj1 (proj1 price_rescale (Samples.list_item 7 (Some 2500000%Q) None)
                           7 prod eq_refl) eq_refl) as [H _]
  end.
  rewrite H. reflexivity.
Defined.

(** The claim as first stated, every input price above 1,000,000 divided
    and every other one kept, fails for the strikethrough price: beside a
    price of 900,000 a strikethrough price of 2,000,000 is kept, and beside
    a price of 2,000,000 a strikethrough price of 500,000 is divided; the
    category branch does the same. *)
Lemma price_rescale_not_by_own_value :
  (exists prod,
     Store.normalize (Samples.list_item 7 (Some 900000%Q) (Some 2000000%Q)) = Some (7, prod) /\
     Product.original_price prod = 2000000%Q) /\
  (exists prod,
     Store.normalize (Samples.list_item 7 (Some 2000000%Q) (Some 500000%Q)) = Some (7, prod) /\
     (Product.original_price prod == 5)%Q) /\
  Category.originalPrice
    (Category.product_of (Samples.priced_unit (Some 900000%Q) (Some 2000000%Q)))
  = 2000000%Q /\
  (Category.originalPrice
     (Category.product_of (Samples.priced_unit (Some 2000000%Q) (Some 500000%Q))) == 5)%Q.
Proof.
  split; [|split; [|split]].
  - eexists. split; reflexivity.
  - eexists. split; reflexivity.
  - reflexivity.
  - reflexivity.
Qed.

(** C9. In product-list normalization the strikethrough price is divided by
    100,000 exactly when the main input price exceeds 1,000,000, whatever
    its own magnitude; the emitted [original_price] is that rescaled
    strikethrough price when it is not 0 and the emitted price otherwise; so
    a non-zero input price gives a non-zero price, and a non-zero price
    gives a non-zero [original_price]. *)
Theorem strikethrough_coupled (item : Item.t) (k : Z) (prod : Product.t) :
  Store.normalize item = Some (k, prod) ->
  let p := Store.input_price item in
  let s := Store.input_strikethrough item in
  let s' := if Qlt_le_dec 1000000 p then (s / 100000)%Q else s in
  Product.original_price prod = (if truthy s' then s' else Product.price prod) /\
  (~ (p == 0)%Q -> ~ (Product.price prod == 0)%Q) /\
  (~ (Product.price prod == 0)%Q -> ~ (Product.original_price prod == 0)%Q).
Proof.
  intros H p s s'. destruct (normalize_prices item k prod H) as [Hp Ho].
  unfold Store.prices in Hp, Ho. fold p s in Hp, Ho.
  assert (Hs : (if Qlt_le_dec 1000000 p then ((p / 100000)%Q, (s / 100000)%Q) else (p, s)).2 = s')
    by (subst s'; now destruct (Qlt_le_dec 1000000 p)).
  rewrite Hs in Ho. rewrite <- Hp in Ho. split; [exact Ho|]. split.
  - intros Hnz. rewrite Hp. destruct (Qlt_le_dec 1000000 p); simpl; [|exact Hnz].
    now apply rescaled_nonzero.
  - intros Hnz. rewrite Ho. destruct (truthy s') eqn:E; [|exact Hnz].
    now apply truthy_spec.
Qed.

(** C9 at a list item priced 900,000 with a strikethrough price of
    2,000,000: the strikethrough price is kept as it is. *)
Lemma strikethrough_coupled_witness :
  exists prod,
    Store.normalize (Samples.list_item 7 (Some 900000%Q) (Some 2000000%Q)) = Some (7, prod) /\
    Product.original_price prod = 2000000%Q.
Proof.
  eexists. split; [reflexivity|].
  match goal with
  | |- Product.original_price ?prod = _ =>
      exact (proj1 (strikethrough_coupled
                      (Samples.list_item 7 (Some 900000%Q) (Some 2000000%Q)) 7 prod eq_refl))
  end.
Defined.

(** ** Sorting *)

Section SortFacts.

Context {A : Type}.
Implicit Types (cmp : A -> A -> Z) (l : list A).

Lemma insert_sorted_Permutation cmp x l : insert_sorted cmp x l ≡ₚ x :: l.
Proof.
  induction l as [|y l IH]; simpl; [reflexivity|].
  destruct (cmp x y <=? 0); [reflexivity|].
  rewrite IH. apply Permutation_swap.
Qed.

Lemma sort_Permutation cmp l : sort cmp l ≡ₚ l.
Proof.
  induction l as [|x l IH]; simpl; [reflexivity|].
  now rewrite insert_sorted_Permutation, IH.
Qed.

Lemma elem_of_sort cmp l x : x ∈ sort cmp l <-> x ∈ l.
Proof. now rewrite sort_Permutation. Qed.

(** A comparator that orders by a key, largest first, sorts by that key. *)
Lemma sort_descending cmp (key : A -> Z) l :
  (forall x y, cmp x y <= 0 <-> key y <= key x) ->
  StronglySorted (fun a b => key b <= key a) (sort cmp l).
Proof.
  intros Hcmp. induction l as [|x l IH]; simpl; [constructor|].
  induction IH as [|y r Hr IHr Hy]; simpl; [repeat constructor|].
  destruct (Z.leb_spec (cmp x y) 0) as [Hle|Hgt].
  - apply Hcmp in Hle. constructor; [now constructor|].
    constructor; [exact Hle|]. eapply Forall_impl; [exact Hy|].
    simpl. intros z Hz. lia.
  - assert (key x < key y) by (destruct (Z.le_gt_cases (key y) (key x)) as [Hk|Hk];
      [apply Hcmp in Hk; lia | exact Hk]).
    constructor; [exact IHr|].
    rewrite insert_sorted_Permutation. constructor; [lia | exact Hy].
Qed.

End SortFacts.

(** ** Product-detail normalization *)

Section PdpFacts.

Local Open Scope Q_scope.

Lemma scaled_value (x : Q) : Pdp.scaled (Some x) == x / 100000.
Proof.
  unfold Pdp.scaled. destruct (truthy x) eqn:E; [reflexivity|].
  assert (Hx : x == 0).
  { destruct (Qeq_dec x 0) as [H|H]; [exact H|].
    apply truthy_spec in H. congruence. }
  rewrite Hx. reflexivity.
Qed.

Lemma pdp_models (d : Pdp.PdpData) (mi : Pdp.ModelInfo) :
  mi ∈ Pdp.o_models (Pdp.normalize d) <->
  exists m, m ∈ or_empty (Pdp.models (or_empty (Pdp.item d) (Pdp.own d))) [] /\
            mi = Pdp.model_of m.
Proof.
  unfold Pdp.normalize. simpl. rewrite elem_of_sort.
  change (map Pdp.model_of ?l) with (Pdp.model_of <$> l).
  rewrite list_elem_of_fmap. split; intros (m & H1 & H2); eauto.
Qed.

End PdpFacts.

(** C7, as the pdp branch has it. Product-detail normalization applies no
    threshold: the item's price, price_min, price_max and
    price_before_discount and every variant's price and
    price_before_discount are the input value divided by 100,000 whatever
    its size, and 0 when the input is absent or 0. *)
Theorem pdp_prices_divided (d : Pdp.PdpData) :
  let it := or_empty (Pdp.item d) (Pdp.own d) in
  let info := Pdp.normalize d in
  Pdp.o_price info = Pdp.scaled (Pdp.i_price it) /\
  Pdp.o_price_min info = Pdp.scaled (Pdp.price_min it) /\
  Pdp.o_price_max info = Pdp.scaled (Pdp.price_max it) /\
  Pdp.o_price_before_discount info = Pdp.scaled (Pdp.i_price_before_discount it) /\
  (forall mi, mi ∈ Pdp.o_models info <->
     exists m, m ∈ or_empty (Pdp.models it) [] /\ mi = Pdp.model_of m) /\
  (forall m, Pdp.mi_price (Pdp.model_of m) = Pdp.scaled (Pdp.price m) /\
             Pdp.mi_price_before_discount (Pdp.model_of m)
             = Pdp.scaled (Pdp.price_before_discount m)) /\
  (forall x, (Pdp.scaled (Some x) == x / 100000)%Q) /\
  Pdp.scaled None = 0%Q.
Proof.
  intros it info. repeat split; try reflexivity.
  - apply pdp_models.
  - apply pdp_models.
  - apply scaled_value.
Qed.

(** C7 as stated fails: a detail price of 50,000, which is in the normal
    range, is not left untouched but sent as 0.5, and so is a variant's. *)
Lemma pdp_small_price_divided :
  let info := Pdp.normalize
                (Samples.detail (Some 50000%Q) [Samples.variant (Some 50000%Q)]) in
  (Pdp.o_price info == 1 # 2)%Q /\
  ~ (Pdp.o_price info == 50000)%Q /\
  (Pdp.mi_price <$> Pdp.o_models info) = [Pdp.scaled (Some 50000%Q)] /\
  ~ (Pdp.scaled (Some 50000%Q) == 50000)%Q /\
  ~ (forall d x,
       Pdp.i_price (or_empty (Pdp.item d) (Pdp.own d)) = Some x ->
       (x <= 1000000)%Q -> (Pdp.o_price (Pdp.normalize d) == x)%Q).
Proof.
  repeat split.
  - intros H. vm_compute in H. discriminate H.
  - intros H. vm_compute in H. discriminate H.
  - intros H.
    specialize (H (Samples.detail (Some 50000%Q) []) 50000%Q eq_refl).
    assert (Hle : (50000 <= 1000000)%Q) by discriminate.
    specialize (H Hle). vm_compute in H. discriminate H.
Qed.

(** ** Category normalization and the official-store aggregate *)

Section CategoryFacts.

Local Open Scope Q_scope.
Import Category.

Lemma Forall_set {V} (P : Z * V -> Prop) (m : JsMap.t V) (k : Z) (v : V) :
  Forall P m -> P (k, v) -> Forall P (JsMap.set k v m).
Proof.
  intros Hm Hkv. induction Hm as [|[k' v'] m Hx Hm IH]; simpl.
  - constructor; [exact Hkv | constructor].
  - destruct (Z.eqb k' k); constructor; auto.
Qed.

Lemma get_Some_elem {V} (m : JsMap.t V) (k : Z) (v : V) :
  JsMap.get m k = Some v -> (k, v) ∈ m.
Proof.
  induction m as [|[k' v'] m IH]; simpl; [discriminate|].
  destruct (Z.eqb_spec k' k) as [->|Hne].
  - intros [= ->]. left.
  - intros H. right. auto.
Qed.

Lemma track_inv (p : CatProduct) (m : JsMap.t StoreAcc) :
  stores_inv m -> stores_inv (track p m).
Proof.
  intros [Hnd Hall]. unfold track.
  destruct (p_shopid p) as [sid|]; [|now split].
  destruct (isOfficialShop p && negb (sid =? 0)%Z); [|now split].
  destruct (JsMap.get m sid) as [existing|] eqn:E.
  - apply get_Some_elem in E. rewrite Forall_forall in Hall.
    destruct (Hall _ E) as (H1 & H2 & H3). simpl in *.
    split; [now apply NoDup_keys_set|].
    apply Forall_set; [now apply Forall_forall|]. simpl. repeat split; [exact H1 | lia | lia].
  - split; [now apply NoDup_keys_set|].
    apply Forall_set; [exact Hall|]. simpl. repeat split. lia.
Qed.

Lemma visit_inv (acc : list CatProduct * JsMap.t StoreAcc) (unit : Unit) :
  stores_inv acc.2 -> stores_inv (visit acc unit).2.
Proof.
  intros H. unfold visit. destruct (item unit); [|exact H].
  destruct (jstring_eqb _ _); [|exact H]. simpl. now apply track_inv.
Qed.

Lemma fold_visit_inv (units : list Unit) (acc : list CatProduct * JsMap.t StoreAcc) :
  stores_inv acc.2 -> stores_inv (fold_left visit units acc).2.
Proof.
  revert acc. induction units as [|u units IH]; intros acc H; [exact H|].
  simpl. apply IH. now apply visit_inv.
Qed.

(** The output list in terms of the traversal's final map. *)
Lemma normalize_stores (units : list Unit) :
  (normalize units).2
  = sort by_count_desc (map with_average (JsMap.values (fold_left visit units ([], [])).2)).
Proof. unfold normalize. now destruct (fold_left visit units ([], [])). Qed.

Lemma stores_sorted (units : list Unit) :
  StronglySorted (fun a b => (productCount b <= productCount a)%Z) (normalize units).2.
Proof.
  rewrite normalize_stores. apply sort_descending.
  intros x y. unfold by_count_desc. lia.
Qed.

Lemma stores_wellformed (units : list Unit) (s : OfficialStore) :
  s ∈ (normalize units).2 ->
  ratingSum s = productCount s /\ (1 <= productCount s)%Z /\
  avgRating s = totalRating s / inject_Z (ratingSum s).
Proof.
  rewrite normalize_stores, elem_of_sort.
  change (map with_average ?l) with (with_average <$> l).
  unfold JsMap.values. rewrite <- list_fmap_compose, list_elem_of_fmap.
  intros ([k a] & -> & Hin).
  destruct (fold_visit_inv units ([], [])) as [_ Hall]; [split; constructor|].
  rewrite Forall_forall in Hall. destruct (Hall _ Hin) as (_ & H2 & H3). simpl in *.
  repeat split; [exact H2 | exact H3|].
  destruct (Z.ltb_spec 0 (a_ratingSum a)); [reflexivity | lia].
Qed.

Lemma stores_distinct (units : list Unit) :
  NoDup (shopid_of <$> (normalize units).2).
Proof.
  rewrite normalize_stores, sort_Permutation.
  change (map with_average ?l) with (with_average <$> l).
  unfold JsMap.values. rewrite <- !list_fmap_compose.
  destruct (fold_visit_inv units ([], [])) as [Hnd Hall]; [split; constructor|].
  unfold JsMap.keys in Hnd.
  erewrite (Forall_fmap_ext_1 _ fst); [exact Hnd|].
  eapply Forall_impl; [exact Hall|]. simpl. intros [k a] (H & _). exact H.
Qed.

End CategoryFacts.

Section AggregationExample.

Local Open Scope Q_scope.
Import Category.

Lemma str_or_Some (s : jstring) : str_or (Some s) [] = s.
Proof. now destruct s. Qed.

Lemma visit_unit_of (acc : list CatProduct * JsMap.t StoreAcc)
    (shop : Z) (flag sold : jstring) (rating : Q) :
  visit acc (Samples.unit_of shop flag sold rating)
  = (acc.1 ++ [product_of (Samples.unit_item shop flag sold rating)],
     track (product_of (Samples.unit_item shop flag sold rating)) acc.2).
Proof. reflexivity. Qed.

Lemma sample_product (shop : Z) (flag sold : jstring) (r : Q) :
  let p := product_of (Samples.unit_item shop flag sold r) in
  p_shopid p = Some shop /\
  isOfficialShop p = jstring_eqb flag (js "OFFICIAL_SHOP") /\
  historicalSold p = parseSoldText sold /\
  rating p = num_or (Some r) 0 /\
  p_shopName p = [] /\ p_shopLocation p = [].
Proof.
  unfold product_of. destruct (prices _) as [p0 o0]. simpl.
  fold (str_or (Some flag) []). fold (str_or (Some sold) []).
  rewrite !str_or_Some. repeat split.
Qed.

Lemma track_other (shop : Z) (flag sold : jstring) (r : Q) (m : JsMap.t StoreAcc) :
  jstring_eqb flag (js "OFFICIAL_SHOP") = false ->
  track (product_of (Samples.unit_item shop flag sold r)) m = m.
Proof.
  intros H. unfold track.
  destruct (sample_product shop flag sold r) as (-> & -> & _). now rewrite H.
Qed.

Lemma track_official (shop : Z) (sold : jstring) (r : Q) (m : JsMap.t StoreAcc) :
  shop <> 0%Z ->
  track (product_of (Samples.unit_item shop (js "OFFICIAL_SHOP") sold r)) m
  = match JsMap.get m shop with
    | Some existing =>
        JsMap.set shop
          {| a_shopid := a_shopid existing;
             a_shopName := a_shopName existing;
             a_shopLocation := a_shopLocation existing;
             a_productCount := (a_productCount existing + 1)%Z;
             a_totalSold := plus (a_totalSold existing) (parseSoldText sold);
             a_totalRating := a_totalRating existing + num_or (Some r) 0;
             a_ratingSum := (a_ratingSum existing + 1)%Z |} m
    | None =>
        JsMap.set shop
          {| a_shopid := shop; a_shopName := []; a_shopLocation := [];
             a_productCount := 1;
             a_totalSold := parseSoldText sold;
             a_totalRating := num_or (Some r) 0;
             a_ratingSum := 1 |} m
    end.
Proof.
  intros H. unfold track.
  destruct (sample_product shop (js "OFFICIAL_SHOP") sold r)
    as (-> & -> & -> & -> & -> & ->).
  apply Z.eqb_neq in H. rewrite H. reflexivity.
Qed.

(** The aggregate of the three sample units, in any order. *)
Lemma sample_aggregate (X Y : Z) (flag sold : jstring) (rating : Q) (units : list Unit) :
  X <> 0%Z ->
  jstring_eqb flag (js "OFFICIAL_SHOP") = false ->
  units ≡ₚ [Samples.official X (js "100") 4; Samples.official X (js "50") 5;
            Samples.unit_of Y flag sold rating] ->
  exists s,
    (normalize units).2 = [s] /\ shopid_of s = X /\ productCount s = 2%Z /\
    totalSold s = Finite 150%Z /\ avgRating s == 9 # 2.
Proof.
  intros HX Hflag Hperm. symmetry in Hperm. apply permutations_Permutation in Hperm.
  unfold Samples.official in *.
  cbn [permutations interleave fmap list_fmap mbind list_bind app] in Hperm.
  rewrite normalize_stores.
  repeat (apply elem_of_cons in Hperm as [->|Hperm]); [..|inversion Hperm];
    cbv [fold_left]; rewrite !visit_unit_of; cbv [fst snd];
    repeat first [ rewrite (track_other _ _ _ _ _ Hflag)
                 | rewrite (track_official _ _ _ _ HX) ];
    repeat (cbn [JsMap.get JsMap.set]; rewrite ?Z.eqb_refl);
    (eexists; split; [reflexivity|]);
    (split; [reflexivity|]); (split; [reflexivity|]);
    split; vm_compute; reflexivity.
Qed.

End AggregationExample.

(** C5. For two official-store units of shop X (sold 100 with rating 4,
    sold 50 with rating 5) and one unit of shop Y that is not flagged as
    official store, in any order, category normalization yields exactly one
    OfficialStore entry, for X, with productCount 2, totalSold 150 and
    avgRating 4.5, and none for Y. For every units array: the products and
    the aggregate map come from the same traversal; the output list is the
    map's entries, each with its average computed from the stored totals,
    sorted by descending product count; there is one entry per shop id. *)
Theorem official_store_aggregation :
  (forall X Y flag sold rating units,
     X <> 0 ->
     jstring_eqb flag (js "OFFICIAL_SHOP") = false ->
     units ≡ₚ [Samples.official X (js "100") 4%Q; Samples.official X (js "50") 5%Q;
               Samples.unit_of Y flag sold rating] ->
     exists s,
       (Category.normalize units).2 = [s] /\
       Category.shopid_of s = X /\ Category.productCount s = 2 /\
       Category.totalSold s = Finite 150 /\ (Category.avgRating s == 9 # 2)%Q /\
       (Y <> X -> forall t, t ∈ (Category.normalize units).2 -> Category.shopid_of t <> Y)) /\
  (forall units,
     let traversal := fold_left Category.visit units ([], []) in
     let stores := (Category.normalize units).2 in
     (Category.normalize units).1 = traversal.1 /\
     stores ≡ₚ Category.with_average <$> JsMap.values traversal.2 /\
     StronglySorted
       (fun a b => Category.productCount b <= Category.productCount a) stores /\
     NoDup (Category.shopid_of <$> stores) /\
     (forall s, s ∈ stores ->
        Category.ratingSum s = Category.productCount s /\
        1 <= Category.productCount s /\
        Category.avgRating s
        = (Category.totalRating s / inject_Z (Category.ratingSum s))%Q)).
Proof.
  split.
  - intros X Y flag sold rating units HX Hflag Hperm.
    destruct (sample_aggregate X Y flag sold rating units HX Hflag Hperm)
      as (s & Hs & H1 & H2 & H3 & H4).
    exists s. repeat split; try assumption.
    intros HY t Ht. rewrite Hs in Ht. apply list_elem_of_singleton in Ht. congruence.
  - intros units traversal stores. subst traversal stores. repeat split.
    + unfold Category.normalize. now destruct (fold_left Category.visit units ([], [])).
    + rewrite normalize_stores. apply sort_Permutation.
    + apply stores_sorted.
    + apply stores_distinct.
    + now apply (stores_wellformed units s).
    + now apply (stores_wellformed units s).
    + now apply (stores_wellformed units s).
Qed.

(** C5 at shops 11 and 22, the non-official unit first. *)
Lemma official_store_aggregation_witness :
  exists s,
    (Category.normalize
       [Samples.unit_of 22 (js "PREFERRED_PLUS") (js "7 terjual") 3%Q;
        Samples.official 11 (js "100") 4%Q;
        Samples.official 11 (js "50") 5%Q]).2 = [s] /\
    Category.shopid_of s = 11 /\ Category.productCount s = 2 /\
    Category.totalSold s = Finite 150 /\ (Category.avgRating s == 9 # 2)%Q.
Proof.
  destruct (proj1 official_store_aggregation 11 22 (js "PREFERRED_PLUS") (js "7 terjual") 3%Q
              [Samples.unit_of 22 (js "PREFERRED_PLUS") (js "7 terjual") 3%Q;
               Samples.official 11 (js "100") 4%Q;
               Samples.official 11 (js "50") 5%Q])
    as (s & H1 & H2 & H3 & H4 & H5 & _).
  - discriminate.
  - reflexivity.
  - apply (Permutation_cons_append [_; _]).
  - exists s. auto.
Defined.

(** ** The body resolver *)

Section ResolverFacts.

Import Background Trace.

(** The recursive equation of [getResponseBody]. *)
Lemma getResponseBody_step (tabId : Z) (attempt : nat -> Attempt) (now : Q)
    (w : World) (retryCount : nat) :
  getResponseBody tabId attempt now w retryCount
  = let '(w', done, e) := try_block tabId (attempt retryCount) now w retryCount in
    match e with
    | None => (w', done)
    | Some errorMessage =>
        if includes errorMessage no_data && (retryCount <? MAX_RETRIES)%nat
        then
          let r := getResponseBody tabId attempt now w' (S retryCount) in
          (r.1, done ++ [LogRetry (S retryCount); Sleep RETRY_DELAY] ++ r.2)
        else (w', done ++ [LogError errorMessage])
    end.
Proof.
  rewrite getResponseBody_unfold_eq.
  unfold getResponseBody_unfold, getResponseBody_unfold_clause_1,
    getResponseBody_unfold_clause_1_clause_2,
    getResponseBody_unfold_clause_1_clause_2_clause_1.
  destruct (try_block tabId (attempt retryCount) now w retryCount) as [[w' done] [msg|]];
    [|reflexivity].
  destruct (lt_dec retryCount MAX_RETRIES) as [Hlt|Hge].
  - apply Nat.ltb_lt in Hlt. rewrite Hlt, andb_true_r. reflexivity.
  - apply Nat.ltb_nlt in Hge. rewrite Hge, andb_false_r. reflexivity.
Qed.

Lemma notify_messages (tabId : Z) (w : World) :
  forallb is_message (notifyContentScript tabId w) = true.
Proof. unfold notifyContentScript. now destruct (shopDataByTab w !! tabId). Qed.

(** The try block's own actions are messages, and its exception is the one
    [failure] names. *)
Lemma process_messages (tabId : Z) (body : Body) (now : Q) (w : World) :
  forallb is_message (process tabId body now w).1.2 = true /\
  (process tabId body now w).2 = failure (Parsed body).
Proof.
  unfold process. destruct body as [data|b|b|b|data]; simpl.
  - destruct data as [info|]; [|now split]. destruct (json_truthy info); [|now split].
    simpl. split; [apply notify_messages | reflexivity].
  - destruct (products_items b) as [[|i items] total]; [now split|].
    simpl. split; [apply notify_messages | reflexivity].
  - destruct (search_items b) as [[[|i items] total]|]; now split.
  - destruct (or_empty (units b) []) as [|u us]; [now split|].
    destruct (Category.normalize (u :: us)). now split.
  - destruct data; now split.
Qed.

Lemma try_block_shape (tabId : Z) (a : Attempt) (now : Q) (w : World) (retryCount : nat) :
  exists sent,
    (try_block tabId a now w retryCount).1.2
    = (if Nat.eqb retryCount 0 then [Sleep 100] else []) ++ [SendCommand] ++ sent /\
    forallb is_message sent = true /\
    (try_block tabId a now w retryCount).2 = failure a.
Proof.
  unfold try_block. destruct a as [body|message].
  - destruct (process_messages tabId body now w) as [Hm Hf].
    destruct (process tabId body now w) as [[w' sent] e]. simpl in *.
    exists sent. auto.
  - exists []. simpl. auto.
Qed.

Lemma count_messages (p : Action -> bool) (sent : list Action) :
  (forall a, is_message a = true -> p a = false) ->
  forallb is_message sent = true -> length (List.filter p sent) = 0%nat.
Proof.
  intros Hp. induction sent as [|a sent IH]; [reflexivity|]. simpl.
  intros H. apply andb_prop in H as [Ha Hs]. now rewrite (Hp a Ha), IH.
Qed.

(** The counts of one pass's own actions. *)
Lemma pass_counts (retryCount : nat) (sent : list Action) :
  forallb is_message sent = true ->
  let done := (if Nat.eqb retryCount 0 then [Sleep 100] else []) ++ [SendCommand] ++ sent in
  fetches done = 1%nat /\ waits RETRY_DELAY done = 0%nat /\
  all_waits done = (if Nat.eqb retryCount 0 then 1 else 0)%nat /\ errors done = 0%nat.
Proof.
  intros Hs done. subst done. unfold fetches, waits, all_waits, errors.
  rewrite !List.filter_app, !length_app.
  rewrite !(count_messages _ sent) by (assumption || (intros [] ?; simpl in *; congruence)).
  destruct (Nat.eqb retryCount 0); simpl; auto.
Qed.

Lemma counts_app (t1 t2 : list Action) :
  fetches (t1 ++ t2) = (fetches t1 + fetches t2)%nat /\
  waits RETRY_DELAY (t1 ++ t2) = (waits RETRY_DELAY t1 + waits RETRY_DELAY t2)%nat /\
  all_waits (t1 ++ t2) = (all_waits t1 + all_waits t2)%nat /\
  errors (t1 ++ t2) = (errors t1 + errors t2)%nat.
Proof.
  unfold fetches, waits, all_waits, errors.
  now rewrite !List.filter_app, !length_app.
Qed.

(** The trace of the passes from [retryCount] on, when [budget] retries
    are left. *)
Lemma resolver_counts (tabId : Z) (attempt : nat -> Attempt) (now : Q) (budget : nat) :
  forall (retryCount : nat) (w : World),
    (retryCount + budget = MAX_RETRIES)%nat ->
    let t := (getResponseBody tabId attempt now w retryCount).2 in
    let k := retries_from attempt retryCount budget in
    fetches t = S k /\
    waits RETRY_DELAY t = k /\
    all_waits t = (k + if Nat.eqb retryCount 0 then 1 else 0)%nat /\
    match failure (attempt (retryCount + k)%nat) with
    | Some message => last t = Some (LogError message) /\ errors t = 1%nat
    | None => errors t = 0%nat
    end.
Proof.
  induction budget as [|budget IH]; intros retryCount w Hb t k; subst t k;
    rewrite getResponseBody_step;
    destruct (try_block_shape tabId (attempt retryCount) now w retryCount)
      as (sent & Hdone & Hsent & Hfail);
    destruct (try_block tabId (attempt retryCount) now w retryCount) as [[w' done] e];
    cbn [fst snd] in Hdone, Hfail; subst e;
    destruct (pass_counts retryCount sent Hsent) as (Hf & Hw & Ha & He);
    rewrite <- Hdone in Hf, Hw, Ha, He.
  - assert (Hrc : (retryCount <? MAX_RETRIES)%nat = false) by (apply Nat.ltb_ge; lia).
    simpl retries_from. rewrite Nat.add_0_r.
    destruct (failure (attempt retryCount)) as [message|]; simpl.
    + rewrite Hrc, andb_false_r. simpl.
      destruct (counts_app done [LogError message]) as (-> & -> & -> & ->).
      rewrite Hf, Hw, Ha, He, last_snoc. repeat split; unfold fetches, waits, all_waits, errors; simpl; lia.
    + rewrite Hf, Hw, Ha, He. repeat split; lia.
  - assert (Hrc : (retryCount <? MAX_RETRIES)%nat = true) by (apply Nat.ltb_lt; lia).
    simpl retries_from. unfold retryable.
    destruct (failure (attempt retryCount)) as [message|] eqn:Efail; simpl.
    + rewrite Hrc, andb_true_r.
      destruct (includes message no_data) eqn:Einc; simpl.
      * specialize (IH (S retryCount) w' ltac:(lia)). simpl in IH.
        destruct IH as (IHf & IHw & IHa & IHe).
        set (t' := (getResponseBody tabId attempt now w' (S retryCount)).2) in *.
        destruct (counts_app done (LogRetry (S retryCount) :: Sleep RETRY_DELAY :: t'))
          as (-> & -> & -> & ->).
        destruct (counts_app [LogRetry (S retryCount); Sleep RETRY_DELAY] t')
          as (Hf' & Hw' & Ha' & He'). simpl app in *.
        rewrite Hf', Hw', Ha', He', Hf, Hw, Ha, He, IHf, IHw, IHa.
        do 3 (split; [unfold fetches, waits, all_waits, errors; simpl; lia|]).
        rewrite (Nat.add_succ_r retryCount).
        match type of IHe with
        | match failure ?a with _ => _ end => destruct (failure a) as [m|]
        end.
        -- destruct IHe as [Hlast ->]. split; [|unfold errors; simpl; lia].
           apply last_app_Some. left.
           apply (last_app_Some [LogRetry (S retryCount); Sleep RETRY_DELAY] t'). now left.
        -- rewrite IHe. unfold errors. simpl. lia.
      * rewrite Nat.add_0_r, Efail.
        destruct (counts_app done [LogError message]) as (-> & -> & -> & ->).
        rewrite Hf, Hw, Ha, He, last_snoc. repeat split; unfold fetches, waits, all_waits, errors; simpl; lia.
    + rewrite Nat.add_0_r, Efail, Hf, Hw, Ha, He. repeat split; lia.
Qed.

Lemma retries_from_le (attempt : nat -> Attempt) (budget retryCount : nat) :
  (retries_from attempt retryCount budget <= budget)%nat.
Proof.
  revert retryCount. induction budget as [|b IH]; intros rc; simpl; [lia|].
  destruct (retryable (attempt rc)); [|lia]. specialize (IH (S rc)). lia.
Qed.

Lemma retries_from_all (attempt : nat -> Attempt) (budget retryCount i : nat) :
  (i < retries_from attempt retryCount budget)%nat ->
  retryable (attempt (retryCount + i)%nat) = true.
Proof.
  revert retryCount i. induction budget as [|b IH]; intros rc i; simpl; [lia|].
  destruct (retryable (attempt rc)) eqn:E; [|lia].
  destruct i as [|i]; [now rewrite Nat.add_0_r|].
  intros H. rewrite Nat.add_succ_r. apply (IH (S rc) i). lia.
Qed.

Lemma retries_from_stop (attempt : nat -> Attempt) (budget retryCount : nat) :
  (retries_from attempt retryCount budget < budget)%nat ->
  retryable (attempt (retryCount + retries_from attempt retryCount budget)%nat) = false.
Proof.
  revert retryCount. induction budget as [|b IH]; intros rc; simpl; [lia|].
  destruct (retryable (attempt rc)) eqn:E; [|now rewrite Nat.add_0_r].
  intros H. rewrite Nat.add_succ_r. apply (IH (S rc)). lia.
Qed.

Lemma waits_bound (t : list Action) :
  (waits 100 t + waits RETRY_DELAY t <= all_waits t)%nat.
Proof.
  unfold waits, all_waits. induction t as [|a t IH]; simpl; [lia|].
  destruct a as [ms| | | | | | |]; simpl; try exact IH.
  destruct (Z.eqb_spec ms 100) as [->|H1]; simpl; [lia|].
  destruct (Z.eqb ms RETRY_DELAY); simpl; lia.
Qed.

(** The first pass waits 100 ms and then sends the command. *)
Lemma first_pass (tabId : Z) (attempt : nat -> Attempt) (now : Q) (w : World) :
  exists rest,
    (getResponseBody tabId attempt now w 0).2 = Sleep 100 :: SendCommand :: rest.
Proof.
  rewrite getResponseBody_step.
  destruct (try_block_shape tabId (attempt 0%nat) now w 0) as (sent & Hdone & _ & _).
  destruct (try_block tabId (attempt 0%nat) now w 0) as [[w' done] e].
  cbn [fst snd] in Hdone. subst done.
  destruct e as [msg|]; [|simpl; eauto].
  destruct (includes msg no_data && (0 <? MAX_RETRIES)%nat); simpl; eauto.
Qed.

(** A rejection that is not "No data found" ends the task at once. *)
Lemma terminal_rejection (tabId : Z) (attempt : nat -> Attempt) (now : Q) (w : World)
    (retryCount : nat) (message : jstring) :
  attempt retryCount = Rejected message ->
  includes message no_data = false ->
  getResponseBody tabId attempt now w retryCount
  = (w, (if Nat.eqb retryCount 0 then [Sleep 100] else [])
          ++ [SendCommand; LogError message]).
Proof.
  intros Ha Hi. rewrite getResponseBody_step, Ha. simpl. rewrite Hi. simpl.
  now rewrite <- app_assoc.
Qed.

(** A "No data found" rejection is retried while retries are left. *)
Lemma retried_rejection (tabId : Z) (attempt : nat -> Attempt) (now : Q) (w : World)
    (retryCount : nat) (message : jstring) :
  attempt retryCount = Rejected message ->
  includes message no_data = true ->
  getResponseBody tabId attempt now w retryCount
  = if (retryCount <? MAX_RETRIES)%nat
    then
      ((getResponseBody tabId attempt now w (S retryCount)).1,
       (if Nat.eqb retryCount 0 then [Sleep 100] else [])
         ++ [SendCommand; LogRetry (S retryCount); Sleep RETRY_DELAY]
         ++ (getResponseBody tabId attempt now w (S retryCount)).2)
    else (w, (if Nat.eqb retryCount 0 then [Sleep 100] else [])
               ++ [SendCommand; LogError message]).
Proof.
  intros Ha Hi. rewrite getResponseBody_step, Ha. simpl. rewrite Hi. simpl.
  destruct (retryCount <? MAX_RETRIES)%nat; now rewrite <- app_assoc.
Qed.

End ResolverFacts.

(** C8. [getResponseBody], called with [retryCount = 0], waits 100 ms once,
    before the first fetch, and then fetches; it fetches again only after a
    pass that ended with an exception whose message includes "No data
    found", each time after a wait of 200 ms and at most three times, so it
    always ends after at most four fetches; a failure with any other
    message ends it at once; the failure of the last pass is logged, and
    the function returns normally in every case. *)
Theorem resolver_retry_policy (tabId : Z) (attempt : nat -> Background.Attempt)
    (now : Q) (w : Background.World) :
  let t := (Background.getResponseBody tabId attempt now w 0).2 in
  let k := Trace.retries attempt in
  (exists rest, t = Background.Sleep 100 :: Background.SendCommand :: rest /\
                Trace.waits 100 rest = 0%nat) /\
  Trace.fetches t = S k /\ (Trace.fetches t <= 4)%nat /\
  Trace.waits Background.RETRY_DELAY t = k /\ Trace.all_waits t = S k /\
  (k <= Background.MAX_RETRIES)%nat /\
  (forall i, (i < k)%nat -> Trace.retryable (attempt i) = true) /\
  ((k < Background.MAX_RETRIES)%nat -> Trace.retryable (attempt k) = false) /\
  match Trace.failure (attempt k) with
  | Some message => last t = Some (Background.LogError message) /\ Trace.errors t = 1%nat
  | None => Trace.errors t = 0%nat
  end /\
  (forall message,
     attempt 0%nat = Background.Rejected message ->
     includes message Background.no_data = false ->
     Background.getResponseBody tabId attempt now w 0
     = (w, [Background.Sleep 100; Background.SendCommand; Background.LogError message])) /\
  (forall m0 m1 m2 m3,
     attempt 0%nat = Background.Rejected m0 -> attempt 1%nat = Background.Rejected m1 ->
     attempt 2%nat = Background.Rejected m2 -> attempt 3%nat = Background.Rejected m3 ->
     includes m0 Background.no_data = true -> includes m1 Background.no_data = true ->
     includes m2 Background.no_data = true ->
     Background.getResponseBody tabId attempt now w 0
     = (w, [Background.Sleep 100; Background.SendCommand;
            Background.LogRetry 1; Background.Sleep 200; Background.SendCommand;
            Background.LogRetry 2; Background.Sleep 200; Background.SendCommand;
            Background.LogRetry 3; Background.Sleep 200; Background.SendCommand;
            Background.LogError m3])).
Proof.
  intros t k.
  destruct (resolver_counts tabId attempt now Background.MAX_RETRIES 0 w eq_refl)
    as (Hf & Hw & Ha & He).
  fold t in Hf, Hw, Ha, He. fold (Trace.retries attempt) in Hf, Hw, Ha, He. fold k in Hf, Hw, Ha, He.
  simpl in Ha, He.
  assert (Hk : (k <= Background.MAX_RETRIES)%nat) by apply retries_from_le.
  split.
  { destruct (first_pass tabId attempt now w) as (rest & Hrest). fold t in Hrest.
    exists rest. split; [exact Hrest|].
    pose proof (waits_bound rest) as Hb.
    rewrite Hrest in Hw, Ha. unfold Trace.waits, Trace.all_waits in *. simpl in Hw, Ha. lia. }
  split; [exact Hf|]. split; [unfold Background.MAX_RETRIES in Hk; lia|].
  split; [exact Hw|]. split; [lia|]. split; [exact Hk|].
  split; [intros i Hi; apply (retries_from_all attempt Background.MAX_RETRIES 0 i Hi)|].
  split; [intros Hlt; apply (retries_from_stop attempt Background.MAX_RETRIES 0 Hlt)|].
  split; [exact He|]. split.
  - intros message H0 Hi. now rewrite (terminal_rejection _ _ _ _ _ _ H0 Hi).
  - intros m0 m1 m2 m3 H0 H1 H2 H3 I0 I1 I2.
    rewrite (retried_rejection _ _ _ _ _ _ H0 I0), (retried_rejection _ _ _ _ _ _ H1 I1),
      (retried_rejection _ _ _ _ _ _ H2 I2). simpl.
    destruct (includes m3 Background.no_data) eqn:I3.
    + now rewrite (retried_rejection _ _ _ _ _ _ H3 I3).
    + now rewrite (terminal_rejection _ _ _ _ _ _ H3 I3).
Qed.

(** C8 at a body that never becomes available: four fetches, three waits
    of 200 ms, one error log. *)
Lemma resolver_retry_policy_witness :
  let message := js "No data found for resource with given identifier" in
  Background.getResponseBody 5 (fun _ => Background.Rejected message) 0%Q
    Background.initial 0
  = (Background.initial,
     [Background.Sleep 100; Background.SendCommand;
      Background.LogRetry 1; Background.Sleep 200; Background.SendCommand;
      Background.LogRetry 2; Background.Sleep 200; Background.SendCommand;
      Background.LogRetry 3; Background.Sleep 200; Background.SendCommand;
      Background.LogError message]).
Proof.
  intros message.
  pose proof (resolver_retry_policy 5 (fun _ => Background.Rejected message) 0%Q
                Background.initial) as H.
  cbv zeta in H.
  exact (proj2 (proj2 (proj2 (proj2 (proj2 (proj2 (proj2 (proj2 (proj2 (proj2 H)))))))))
           message message message message
           eq_refl eq_refl eq_refl eq_refl eq_refl eq_refl eq_refl).
Defined.

(** ** The search and category caches *)

Section CacheFacts.

Import Background.

(** Case analysis along the branches of the try block: the body's kind,
    then what each branch tests. *)
Ltac by_branch body :=
  unfold process;
  let data := fresh "data" in
  let b := fresh "b" in
  destruct body as [data|b|b|b|data]; simpl;
  [ destruct data as [?info|]; [destruct (json_truthy info)|]
  | destruct (products_items b) as [[|? ?] ?]
  | destruct (search_items b) as [[[|? ?] ?]|]
  | destruct (or_empty (units b) []) as [|?u ?us];
    [|destruct (Category.normalize (u :: us))]
  | destruct data ].

(** What the try block does to the search cache. *)
Lemma process_search_cache (tabId : Z) (body : Body) (now : Q) (w : World) :
  searchDataByTab (process tabId body now w).1.1
  = match body with
    | SearchOf b =>
        match search_items b with
        | Some (i :: items, total) =>
            <[tabId := {| items := i :: items; totalCount := total; timestamp := now |}]>
              (searchDataByTab w)
        | _ => searchDataByTab w
        end
    | _ => searchDataByTab w
    end.
Proof. by_branch body; reflexivity. Qed.

(** What the try block does to the category cache. *)
Lemma process_category_cache (tabId : Z) (body : Body) (now : Q) (w : World) :
  categoryDataByTab (process tabId body now w).1.1
  = match body with
    | CategoryOf b =>
        match or_empty (units b) [] with
        | [] => categoryDataByTab w
        | us =>
            <[tabId := {| c_products := (Category.normalize us).1;
                          officialStores := (Category.normalize us).2;
                          c_totalCount := num_or (cb_total b) 0;
                          c_timestamp := now |}]> (categoryDataByTab w)
        end
    | _ => categoryDataByTab w
    end.
Proof. by_branch body; reflexivity. Qed.

(** The messages of an empty search or category capture: none. *)
Lemma process_empty_silent (tabId : Z) (body : Body) (now : Q) (w : World) :
  match body with
  | SearchOf b =>
      match search_items b with Some (_ :: _, _) => False | _ => True end
  | CategoryOf b => or_empty (units b) [] = []
  | _ => False
  end ->
  (process tabId body now w).1.2 = [].
Proof.
  unfold process. destruct body as [data|b|b|b|data]; simpl; try contradiction.
  - destruct (search_items b) as [[[|i items] total]|]; simpl; tauto.
  - now intros ->.
Qed.

End CacheFacts.

(** C10. A search response from which no item is extracted (the list is
    empty, or the extraction throws) leaves the search cache as it was and
    sends no message; a category response whose units list is empty or
    absent leaves the category cache as it was and sends no message. A
    search response with at least one extracted item replaces the tab's
    search cache entry by the items, the total and the capture time, and a
    category response with at least one unit replaces the tab's category
    cache entry; no other response kind touches either cache. Run as a
    resolver task, an empty capture's whole trace is the wait and the
    fetch. *)
Theorem empty_capture_keeps_cache (tabId : Z) (now : Q) (w : Background.World) :
  (forall b,
     let r := Background.process tabId (Background.SearchOf b) now w in
     match Background.search_items b with
     | Some (i :: items, total) =>
         let cache := {| Background.items := i :: items;
                         Background.totalCount := total;
                         Background.timestamp := now |} in
         Background.searchDataByTab r.1.1
         = <[tabId := cache]> (Background.searchDataByTab w) /\
         r.1.2 = [Background.SendMessage tabId (Background.SHOPEE_SEARCH_UPDATE cache)]
     | _ =>
         Background.searchDataByTab r.1.1 = Background.searchDataByTab w /\ r.1.2 = []
     end) /\
  (forall b,
     let r := Background.process tabId (Background.CategoryOf b) now w in
     match or_empty (Background.units b) [] with
     | [] =>
         Background.categoryDataByTab r.1.1 = Background.categoryDataByTab w /\ r.1.2 = []
     | us =>
         let cache := {| Background.c_products := (Category.normalize us).1;
                         Background.officialStores := (Category.normalize us).2;
                         Background.c_totalCount := num_or (Background.cb_total b) 0;
                         Background.c_timestamp := now |} in
         Background.categoryDataByTab r.1.1
         = <[tabId := cache]> (Background.categoryDataByTab w) /\
         r.1.2 = [Background.SendMessage tabId (Background.SHOPEE_CATEGORY_UPDATE cache)]
     end) /\
  (forall body,
     (forall b, body <> Background.SearchOf b) ->
     Background.searchDataByTab (Background.process tabId body now w).1.1
     = Background.searchDataByTab w) /\
  (forall body,
     (forall b, body <> Background.CategoryOf b) ->
     Background.categoryDataByTab (Background.process tabId body now w).1.1
     = Background.categoryDataByTab w) /\
  (forall attempt b total,
     attempt 0%nat = Background.Parsed (Background.SearchOf b) ->
     Background.search_items b = Some ([], total) ->
     let r := Background.getResponseBody tabId attempt now w 0 in
     Background.searchDataByTab r.1 = Background.searchDataByTab w /\
     r.2 = [Background.Sleep 100; Background.SendCommand]) /\
  (forall attempt b,
     attempt 0%nat = Background.Parsed (Background.CategoryOf b) ->
     or_empty (Background.units b) [] = [] ->
     let r := Background.getResponseBody tabId attempt now w 0 in
     Background.categoryDataByTab r.1 = Background.categoryDataByTab w /\
     r.2 = [Background.Sleep 100; Background.SendCommand]).
Proof.
  split; [|split; [|split; [|split; [|split]]]].
  - intros b r. subst r. rewrite process_search_cache.
    unfold Background.process.
    destruct (Background.search_items b) as [[[|i items] total]|]; simpl; auto.
  - intros b r. subst r. rewrite process_category_cache.
    unfold Background.process.
    destruct (or_empty (Background.units b) []) as [|u us]; simpl; [auto|].
    destruct (Category.normalize (u :: us)); simpl; auto.
  - intros body Hb. rewrite process_search_cache.
    destruct body; try reflexivity. now destruct (Hb b).
  - intros body Hb. rewrite process_category_cache.
    destruct body; try reflexivity. now destruct (Hb b).
  - intros attempt b total Ha Hs r. subst r.
    rewrite getResponseBody_step, Ha. unfold Background.try_block.
    pose proof (process_search_cache tabId (Background.SearchOf b) now w) as Hc.
    pose proof (process_messages tabId (Background.SearchOf b) now w) as [_ Hf].
    pose proof (process_empty_silent tabId (Background.SearchOf b) now w) as He.
    remember (Background.process tabId (Background.SearchOf b) now w) as p eqn:Ep.
    clear Ep. simpl in Hc, Hf, He. rewrite Hs in Hc, Hf, He. specialize (He I).
    destruct p as [[w' sent] e]. simpl in *. subst e sent. auto.
  - intros attempt b Ha Hu r. subst r.
    rewrite getResponseBody_step, Ha. unfold Background.try_block.
    pose proof (process_category_cache tabId (Background.CategoryOf b) now w) as Hc.
    pose proof (process_messages tabId (Background.CategoryOf b) now w) as [_ Hf].
    pose proof (process_empty_silent tabId (Background.CategoryOf b) now w Hu) as He.
    remember (Background.process tabId (Background.CategoryOf b) now w) as p eqn:Ep.
    clear Ep. simpl in Hc, Hf. rewrite Hu in Hc.
    destruct p as [[w' sent] e]. simpl in *. subst e sent. auto.
Qed.

(** C10 at a search response with an empty item list, on the initial
    world: the search cache stays empty and nothing is sent. *)
Lemma empty_capture_keeps_cache_witness :
  let b := {| Background.sb_item_cards := None; Background.sb_data_items := Some [];
              Background.sb_items := None; Background.sb_data_total := None;
              Background.sb_data_total_count := None;
              Background.sb_total_count := None |} in
  let r := Background.getResponseBody 5 (fun _ => Background.Parsed (Background.SearchOf b))
             0%Q Background.initial 0 in
  Background.searchDataByTab r.1 = ∅ /\
  r.2 = [Background.Sleep 100; Background.SendCommand].
Proof.
  intros b r.
  exact (proj1 (proj2 (proj2 (proj2 (proj2 (empty_capture_keeps_cache 5 0%Q Background.initial)))))
           (fun _ => Background.Parsed (Background.SearchOf b)) b 0%Q eq_refl eq_refl).
Defined.

(** ** Push and pull *)

Section DispatcherFacts.

Import Background.

Lemma lookup_ensure (tabId t : Z) (tbl : gmap Z Store.ShopData) :
  Store.ensure t tbl !! tabId
  = match tbl !! tabId with
    | Some d => Some d
    | None => if decide (t = tabId) then Some Store.fresh else None
    end.
Proof.
  unfold Store.ensure. destruct (tbl !! t) eqn:E.
  - destruct (tbl !! tabId) eqn:E'; [reflexivity|].
    destruct (decide (t = tabId)) as [->|]; [congruence | reflexivity].
  - rewrite lookup_insert. destruct (decide (t = tabId)) as [->|].
    + now rewrite E.
    + now destruct (tbl !! tabId).
Qed.











Lemma pull_response (tabId : Z) (w : World) :
  tabId <> 0 ->
  onMessage GET_CAPTURED_DATA (Some tabId) w
  = (w, match shopDataByTab w !! tabId with
        | Some d => [Respond (CapturedData (Some (snapshot d)))]
        | None => [AttachDebugger tabId; Respond (CapturedData None)]
        end).
Proof.
  intros H. unfold onMessage. apply Z.eqb_neq in H. rewrite H.
  now destruct (shopDataByTab w !! tabId).
Qed.


End DispatcherFacts.




(** * Further properties of the background script and the overlay *)

(** ** More on the sold-count parser *)

Section SoldTextMore.

Import SoldShape.

Lemma round_half_up_nonneg (x : Q) : (0 <= x)%Q -> 0 <= round_half_up x.
Proof.
  intros H. unfold round_half_up.
  change 0 with (Qfloor 0). apply Qfloor_resp_le.
  apply Qle_trans with x; [exact H|]. rewrite <- (Qplus_0_r x) at 1.
  apply Qplus_le_r. discriminate.
Qed.

Lemma scale_nonneg (u : Suffix) (x : Q) :
  match scale u (nearest_double x) with Finite y => (0 <= y)%Q | Infinity => True end.
Proof.
  pose proof (nearest_double_nonneg x) as H.
  destruct u; simpl; [exact H| |];
    (destruct (nearest_double x); [apply nearest_double_nonneg | exact I]).
Qed.

End SoldTextMore.

(** X1. [parseSoldText] never returns a negative number: a sign before the
    digits is not part of the match, so "-5" counts as 5. *)
Theorem parseSoldText_nonneg (text : jstring) :
  match parseSoldText text with Finite n => 0 <= n | Infinity => True end /\
  parseSoldText (js "-5") = Finite 5.
Proof.
  split; [|vm_compute; reflexivity].
  destruct (sold_shape_total text) as [H|(pre & ds & f & ws & u & rest & -> & H1 & H2 & H3 & H4 & H5)].
  - rewrite parseSoldText_unfold, (regex_match_no_digit _ H). lia.
  - rewrite (parseSoldText_shape pre ds f ws u rest H1 H2 H3 H4 H5).
    pose proof (scale_nonneg u (decimal ds (SoldShape.fraction_digits f))) as Hs.
    destruct (SoldShape.scale u _) as [y|]; simpl; [|exact I].
    now apply round_half_up_nonneg.
Qed.

(** X2. Text before the first digit does not matter: a prefix without a
    digit can be dropped or added without changing the parsed count. *)
Theorem parseSoldText_prefix (pre text : jstring) :
  SoldShape.no_digit pre = true ->
  parseSoldText (pre ++ text) = parseSoldText text.
Proof.
  intros H. now rewrite !parseSoldText_unfold, (regex_match_skip _ _ H).
Qed.

(** X2 at "Terjual 10RB+": the same count as "10RB+". *)
Lemma parseSoldText_prefix_witness :
  parseSoldText (js "Terjual 10RB+") = parseSoldText (js "10RB+").
Proof. exact (parseSoldText_prefix (js "Terjual ") (js "10RB+") eq_refl). Defined.

(** ** More on the classifier *)

(** X3. One response triggers at most three body fetches and never two of
    the same kind; a shop fetch, if any, comes first and a product-detail
    fetch before any search, category or product-list fetch. *)
Theorem classifier_calls_distinct (url : jstring) :
  let calls := Classifier.responseReceived url in
  NoDup calls /\ (length calls <= 3)%nat /\
  (forall k, In k calls -> k <> Classifier.shop -> head calls = Some Classifier.shop ->
     In k (tail calls)) /\
  (In Classifier.shop calls -> head calls = Some Classifier.shop) /\
  (In Classifier.pdp calls ->
     head calls = Some Classifier.pdp \/ head (tail calls) = Some Classifier.pdp).
Proof.
  intros calls. subst calls. unfold Classifier.responseReceived.
  destruct (includes url Classifier.url_shop), (includes url Classifier.url_pdp),
    (includes url Classifier.url_search), (includes url Classifier.url_category),
    (existsb (includes url) Classifier.url_products); simpl;
    (split; [repeat (apply NoDup_cons; split;
                     [rewrite ?elem_of_cons, elem_of_nil; intuition discriminate|]);
             apply NoDup_nil_2
            | split; [lia | intuition (try discriminate; try congruence)]]).
Qed.

(** ** More on the per-tab store *)

Section StoreMore.

Lemma get_set_all_absent {V} (kvs : list (Z * V)) (m : JsMap.t V) (k : Z) :
  k ∉ kvs.*1 -> JsMap.get (JsMap.set_all kvs m) k = JsMap.get m k.
Proof.
  revert m. induction kvs as [|[k0 v0] kvs IH]; intros m Hk; [reflexivity|].
  unfold JsMap.set_all in *. csimpl in *. rewrite not_elem_of_cons in Hk.
  destruct Hk as [Hne Hk]. rewrite (IH _ Hk). apply get_set_ne. congruence.
Qed.

(** The keys after setting entries: the old keys, then the new ones. *)
Lemma keys_set_all_prefix {V} (kvs : list (Z * V)) (m : JsMap.t V) :
  exists added,
    JsMap.keys (JsMap.set_all kvs m) = JsMap.keys m ++ added /\
    NoDup added /\
    (forall k, k ∈ added <-> k ∈ kvs.*1 /\ k ∉ JsMap.keys m).
Proof.
  revert m. induction kvs as [|[k v] kvs IH]; intros m.
  - exists []. rewrite app_nil_r. split; [reflexivity|]. split; [constructor|].
    intros k. csimpl. rewrite !elem_of_nil. tauto.
  - destruct (IH (JsMap.set k v m)) as (added & Hkeys & Hnd & Hin).
    unfold JsMap.set_all in *. csimpl. rewrite Hkeys, keys_set.
    destruct (JsMap.has m k) eqn:E.
    + exists added. split; [reflexivity|]. split; [exact Hnd|].
      intros k'. rewrite Hin, keys_set, E, elem_of_cons.
      apply has_keys in E. split; [tauto|]. intros [[->|H] Hn]; [contradiction | tauto].
    + assert (Hk : k ∉ JsMap.keys m) by (rewrite <- has_keys; congruence).
      exists (k :: added). split; [now rewrite <- app_assoc|].
      assert (Hka : k ∉ added).
      { rewrite Hin, keys_set, E, elem_of_app, list_elem_of_singleton. tauto. }
      split; [now apply NoDup_cons|].
      intros k'. rewrite !elem_of_cons, Hin, keys_set, E, elem_of_app,
        list_elem_of_singleton.
      destruct (decide (k' = k)) as [->|Hne]; tauto.
Qed.

End StoreMore.

(** X4. [processItems] is last-write-wins per item id: the record found
    under an id afterwards is the normalization of the last item of the batch
    that carries the id, and the record of an id the batch does not mention
    is the one that was there before. *)
Theorem processItems_last_write_wins (tabId : Z) (total : option Q)
    (tbl : gmap Z Store.ShopData) :
  let products_after items :=
    Store.products (Store.entry tabId (Store.processItems tabId items total tbl)) in
  (forall front item back k p,
     Store.normalize item = Some (k, p) ->
     k ∉ Distinct.batch_ids back ->
     JsMap.get (products_after (front ++ item :: back)) k = Some p) /\
  (forall items k,
     k ∉ Distinct.batch_ids items ->
     JsMap.get (products_after items) k
     = JsMap.get (Store.products (Store.entry tabId tbl)) k).
Proof.
  intros products_after. subst products_after. split.
  - intros front item back k p Hn Hk. cbv beta.
    rewrite (proj1 (processItems_entry tabId _ total tbl)), fold_left_app. simpl.
    rewrite fold_upsert. unfold Store.upsert at 1. rewrite Hn.
    rewrite get_set_all_absent by now rewrite normalized_keys.
    apply get_set_eq.
  - intros items k Hk. cbv beta.
    rewrite (proj1 (processItems_entry tabId _ total tbl)), fold_upsert.
    apply get_set_all_absent. now rewrite normalized_keys.
Qed.

(** X5. [processItems] keeps the order of the product map: the ids already
    captured keep their positions and the batch's new ids are appended, each
    once; so the products array of a later snapshot starts with the ids of
    every earlier one. *)
Theorem processItems_order_stable (tabId : Z) (items : list Item.t) (total : option Q)
    (tbl : gmap Z Store.ShopData) :
  let before := JsMap.keys (Store.products (Store.entry tabId tbl)) in
  let after :=
    JsMap.keys (Store.products
                  (Store.entry tabId (Store.processItems tabId items total tbl))) in
  exists added,
    after = before ++ added /\ NoDup added /\
    (forall k, k ∈ added <-> k ∈ Distinct.batch_ids items /\ k ∉ before).
Proof.
  intros before after. subst before after.
  rewrite (proj1 (processItems_entry tabId items total tbl)), fold_upsert.
  destruct (keys_set_all_prefix (omap Store.normalize items)
              (Store.products (Store.entry tabId tbl))) as (added & H1 & H2 & H3).
  exists added. rewrite normalized_keys in H3. auto.
Qed.

(** X6. [processItems] touches only the tab it is called for, keeps that
    tab's shop info, and replaces the expected total only by a non-zero
    total: a batch that reports no total, or 0, keeps the total reported
    before. *)
Theorem processItems_frame (tabId : Z) (items : list Item.t) (total : option Q)
    (tbl : gmap Z Store.ShopData) :
  let tbl' := Store.processItems tabId items total tbl in
  (forall t, t <> tabId -> tbl' !! t = tbl !! t) /\
  is_Some (tbl' !! tabId) /\
  Store.shopInfo (Store.entry tabId tbl') = Store.shopInfo (Store.entry tabId tbl) /\
  Store.totalExpected (Store.entry tabId tbl')
  = match total with
    | Some n => if truthy n then n else Store.totalExpected (Store.entry tabId tbl)
    | None => Store.totalExpected (Store.entry tabId tbl)
    end.
Proof.
  intros tbl'. subst tbl'. unfold Store.processItems. repeat split.
  - intros t Hne. rewrite lookup_insert_ne by congruence.
    rewrite lookup_ensure. destruct (tbl !! t); [reflexivity|].
    destruct (decide (tabId = t)); congruence.
  - rewrite lookup_insert_eq. eauto.
  - now rewrite entry_insert, entry_ensure.
  - rewrite entry_insert, entry_ensure. reflexivity.
Qed.

(** X4 at a batch with ids 1, 2, 1: id 1 holds the third item's price. *)
Lemma processItems_last_write_wins_witness :
  exists p,
    JsMap.get (Store.products (Store.entry 7 (Store.processItems 7
                 [Samples.list_item 1 (Some 5000%Q) None;
                  Samples.list_item 2 (Some 7000%Q) None;
                  Samples.list_item 1 (Some 6000%Q) None] None ∅))) 1 = Some p /\
    Product.price p = 6000%Q.
Proof.
  eexists. split.
  - apply (proj1 (processItems_last_write_wins 7 None ∅)
             [Samples.list_item 1 (Some 5000%Q) None; Samples.list_item 2 (Some 7000%Q) None]
             (Samples.list_item 1 (Some 6000%Q) None) [] 1 _ eq_refl).
    apply not_elem_of_nil.
  - reflexivity.
Defined.

(** ** More on the dispatcher *)

Section DispatcherMore.

Import Background CacheWrites.

Lemma step_search_cache (tabId : Z) (e : Event) (w : World) :
  writes_search tabId e = false ->
  searchDataByTab (step w e).1 !! tabId = searchDataByTab w !! tabId.
Proof.
  intros H. destruct e as [t loading url|t|t|t body now|req sender]; simpl.
  - unfold tabs_onUpdated. now destruct (loading && _).
  - reflexivity.
  - reflexivity.
  - pose proof (process_search_cache t body now w) as Hc.
    destruct (process t body now w) as [[w' sent] e]. simpl in *. rewrite Hc.
    destruct body as [data|b|b|b|data]; try reflexivity. simpl in H.
    destruct (search_items b) as [[[|i items] total]|]; try reflexivity.
    rewrite andb_true_r in H. apply Z.eqb_neq in H. now rewrite lookup_insert_ne.
  - unfold onMessage. destruct sender as [t|]; [|reflexivity].
    destruct (Z.eqb t 0); [reflexivity|]. destruct req; try reflexivity.
    now destruct (shopDataByTab w !! t).
Qed.

Lemma step_category_cache (tabId : Z) (e : Event) (w : World) :
  writes_category tabId e = false ->
  categoryDataByTab (step w e).1 !! tabId = categoryDataByTab w !! tabId.
Proof.
  intros H. destruct e as [t loading url|t|t|t body now|req sender]; simpl.
  - unfold tabs_onUpdated. now destruct (loading && _).
  - reflexivity.
  - reflexivity.
  - pose proof (process_category_cache t body now w) as Hc.
    destruct (process t body now w) as [[w' sent] e]. simpl in *. rewrite Hc.
    destruct body as [data|b|b|b|data]; try reflexivity. simpl in H.
    destruct (or_empty (units b) []) as [|u us]; [reflexivity|].
    rewrite andb_true_r in H. apply Z.eqb_neq in H. now rewrite lookup_insert_ne.
  - unfold onMessage. destruct sender as [t|]; [|reflexivity].
    destruct (Z.eqb t 0); [reflexivity|]. destruct req; try reflexivity.
    now destruct (shopDataByTab w !! t).
Qed.

Lemma run_cons (w : World) (e : Event) (es : list Event) :
  (run w (e :: es)).1 = (run (step w e).1 es).1.
Proof.
  cbn [run]. destruct (step w e) as [w1 a1]. cbn [fst]. now destruct (run w1 es).
Qed.

Lemma run_caches (tabId : Z) (es : list Event) (w : World) :
  (forallb (fun e => negb (writes_search tabId e)) es = true ->
   searchDataByTab (run w es).1 !! tabId = searchDataByTab w !! tabId) /\
  (forallb (fun e => negb (writes_category tabId e)) es = true ->
   categoryDataByTab (run w es).1 !! tabId = categoryDataByTab w !! tabId).
Proof.
  revert w. induction es as [|e es IH]; intros w; [split; reflexivity|].
  rewrite run_cons. simpl. split; intros H; apply andb_prop in H as [He Hes];
    apply negb_true_iff in He.
  - rewrite (proj1 (IH _) Hes). now apply step_search_cache.
  - rewrite (proj2 (IH _) Hes). now apply step_category_cache.
Qed.

End DispatcherMore.

(** X7. A page load into the site and a forced refresh reset the tab: the
    next pull is answered with the empty snapshot whatever had been
    captured, while the other tabs' data and both caches stay as they were;
    an update that is not a load, or whose URL is not on the site, resets
    nothing. *)
Theorem reset_clears (tabId : Z) (w : Background.World) :
  tabId <> 0 ->
  let empty := Background.CapturedData (Some
    {| Background.s_shopInfo := None; Background.s_products := [];
       Background.totalProducts := 0; Background.s_totalExpected := 0%Q |}) in
  (forall w',
     (w' = (Background.onMessage Background.FORCE_REFRESH_CAPTURE (Some tabId) w).1 \/
      exists url, includes url (js "shopee.co.id") = true /\
                  w' = (Background.tabs_onUpdated tabId true (Some url) w).1) ->
     (Background.onMessage Background.GET_CAPTURED_DATA (Some tabId) w').2
     = [Background.Respond empty] /\
     (forall t, t <> tabId ->
        Background.shopDataByTab w' !! t = Background.shopDataByTab w !! t) /\
     Background.searchDataByTab w' = Background.searchDataByTab w /\
     Background.categoryDataByTab w' = Background.categoryDataByTab w) /\
  (forall loading url,
     loading = false \/
     match url with Some u => includes u (js "shopee.co.id") = false | None => True end ->
     Background.tabs_onUpdated tabId loading url w = (w, [])).
Proof.
  intros Hid empty. split.
  - intros w' Hw'.
    assert (Hr : w' = Background.reset tabId w).
    { destruct Hw' as [->|(url & Hurl & ->)].
      - unfold Background.onMessage. apply Z.eqb_neq in Hid. now rewrite Hid.
      - unfold Background.tabs_onUpdated. now rewrite Hurl. }
    subst w'. rewrite (pull_response _ _ Hid). simpl. rewrite lookup_insert_eq.
    repeat split. intros t Hne. now rewrite lookup_insert_ne.
  - intros loading url [->|H]; [reflexivity|].
    unfold Background.tabs_onUpdated. destruct url as [u|]; [rewrite H|];
      now rewrite andb_false_r.
Qed.

(** X7 at tab 5 after a capture of one item: the forced refresh empties the
    snapshot. *)
Lemma reset_clears_witness :
  let w := (Background.step Background.initial
              (Background.Resolved 5
                 (Background.ProductsOf
                    {| Background.pb_item_cards := None;
                       Background.pb_data_items := None;
                       Background.pb_items :=
                         Some [Samples.list_item 1 (Some 5000%Q) None];
                       Background.pb_total := None |}) 0%Q)).1 in
  (Background.onMessage Background.GET_CAPTURED_DATA (Some 5)
     (Background.onMessage Background.FORCE_REFRESH_CAPTURE (Some 5) w).1).2
  = [Background.Respond (Background.CapturedData (Some
       {| Background.s_shopInfo := None; Background.s_products := [];
          Background.totalProducts := 0; Background.s_totalExpected := 0%Q |}))].
Proof.
  intros w.
  exact (proj1 (proj1 (reset_clears 5 w ltac:(discriminate)) _ (or_introl eq_refl))).
Defined.

(** X8. The caches are never cleared: once a tab has a search cache entry,
    every later GET_SEARCH_DATA request of the tab is answered with exactly
    that entry until a search capture for the tab with at least one item
    replaces it, whatever happens in between, a page load, a forced refresh
    and the closing of the tab included; and likewise for the category
    cache. *)
Theorem caches_survive (tabId : Z) (es : list Background.Event) (w : Background.World) :
  tabId <> 0 ->
  (forall c,
     Background.searchDataByTab w !! tabId = Some c ->
     forallb (fun e => negb (CacheWrites.writes_search tabId e)) es = true ->
     Background.onMessage Background.GET_SEARCH_DATA (Some tabId) (Background.run w es).1
     = ((Background.run w es).1, [Background.Respond (Background.SearchData (Some c))])) /\
  (forall c,
     Background.categoryDataByTab w !! tabId = Some c ->
     forallb (fun e => negb (CacheWrites.writes_category tabId e)) es = true ->
     Background.onMessage Background.GET_CATEGORY_DATA (Some tabId) (Background.run w es).1
     = ((Background.run w es).1, [Background.Respond (Background.CategoryData (Some c))])).
Proof.
  intros Hid. apply Z.eqb_neq in Hid.
  split; intros c Hc Hes; unfold Background.onMessage; rewrite Hid.
  - now rewrite (proj1 (run_caches tabId es w) Hes), Hc.
  - now rewrite (proj2 (run_caches tabId es w) Hes), Hc.
Qed.

(** X8 at tab 5: the search cache outlives the closing of the tab and a
    new page load. *)
Lemma caches_survive_witness :
  let b := {| Background.sb_item_cards := None; Background.sb_data_items := None;
              Background.sb_items := Some [JNum 1]; Background.sb_data_total := None;
              Background.sb_data_total_count := None;
              Background.sb_total_count := None |} in
  let w := (Background.step Background.initial
              (Background.Resolved 5 (Background.SearchOf b) 1700000000%Q)).1 in
  let es := [Background.Removed 5;
             Background.Updated 5 true (Some (js "https://shopee.co.id/"))] in
  (Background.onMessage Background.GET_SEARCH_DATA (Some 5) (Background.run w es).1).2
  = [Background.Respond (Background.SearchData (Some
       {| Background.items := [JNum 1]; Background.totalCount := 1%Q;
          Background.timestamp := 1700000000%Q |}))].
Proof.
  intros b w es.
  rewrite (proj1 (caches_survive 5 es w ltac:(discriminate))
             {| Background.items := [JNum 1]; Background.totalCount := 1%Q;
                Background.timestamp := 1700000000%Q |} eq_refl eq_refl).
  reflexivity.
Defined.

Section CacheInvariant.

Import Background CacheWrites.

Lemma category_ok_normalize (us : list Category.Unit) (total now : Q) :
  category_ok {| c_products := (Category.normalize us).1;
                 officialStores := (Category.normalize us).2;
                 c_totalCount := total; c_timestamp := now |}.
Proof.
  unfold category_ok. simpl. split; [apply stores_sorted|].
  split; [apply stores_distinct|].
  apply Forall_forall. intros s Hs. now apply (stores_wellformed us s).
Qed.

Lemma step_caches_ok (w : World) (e : Event) : caches_ok w -> caches_ok (step w e).1.
Proof.
  intros [Hs Hc]. destruct e as [t loading url|t|t|t body now|req sender]; simpl.
  - unfold tabs_onUpdated. destruct (loading && _); now split.
  - now split.
  - now split.
  - pose proof (process_search_cache t body now w) as Es.
    pose proof (process_category_cache t body now w) as Ec.
    destruct (process t body now w) as [[w' sent] e]. simpl in *. split.
    + intros t' c. rewrite Es. destruct body as [data|b|b|b|data]; try apply Hs.
      destruct (search_items b) as [[[|i l] total]|]; try apply Hs.
      rewrite lookup_insert. destruct (decide (t = t')); [|apply Hs].
      intros [= <-]. discriminate.
    + intros t' c. rewrite Ec. destruct body as [data|b|b|b|data]; try apply Hc.
      destruct (or_empty (units b) []) as [|u us]; [apply Hc|].
      rewrite lookup_insert. destruct (decide (t = t')); [|apply Hc].
      intros [= <-]. apply category_ok_normalize.
  - unfold onMessage. destruct sender as [t|]; [|now split].
    destruct (Z.eqb t 0); [now split|]. destruct req; try now split.
    destruct (shopDataByTab w !! t); now split.
Qed.

Lemma run_caches_ok (es : list Event) (w : World) : caches_ok w -> caches_ok (run w es).1.
Proof.
  revert w. induction es as [|e es IH]; intros w H; [exact H|].
  rewrite run_cons. apply IH. now apply step_caches_ok.
Qed.

End CacheInvariant.

(** X9. Whatever the script has gone through since it started, a cached
    search result holds at least one item and a cached category result has
    its official stores sorted by descending product count, one per shop id,
    each with at least one product; so a GET_SEARCH_DATA or
    GET_CATEGORY_DATA answer is null or such a result. *)
Theorem cached_results_wellformed (es : list Background.Event) (tabId : Z) :
  let w := (Background.run Background.initial es).1 in
  (forall c,
     In (Background.Respond (Background.SearchData (Some c)))
        (Background.onMessage Background.GET_SEARCH_DATA (Some tabId) w).2 ->
     Background.items c <> []) /\
  (forall c,
     In (Background.Respond (Background.CategoryData (Some c)))
        (Background.onMessage Background.GET_CATEGORY_DATA (Some tabId) w).2 ->
     CacheWrites.category_ok c).
Proof.
  intros w.
  assert (Hok : CacheWrites.caches_ok w).
  { apply run_caches_ok. split; intros t c H; simpl in H;
      rewrite lookup_empty in H; discriminate. }
  destruct Hok as [Hs Hc]. unfold Background.onMessage.
  split; intros c Hin; destruct (Z.eqb tabId 0); simpl in Hin; try tauto;
    destruct Hin as [[= Hin]|[]].
  - now apply (Hs tabId).
  - now apply (Hc tabId).
Qed.

(** X10. Requests other than FORCE_REFRESH_CAPTURE change none of the
    tables. A request whose sender has no tab id, or tab id 0, is not
    answered at all; each of the four known requests of a tab is answered
    exactly once. *)
Theorem requests_answered (req : Background.Request) (sender : option Z)
    (w : Background.World) :
  let r := Background.onMessage req sender w in
  let answers := List.filter
    (fun a => match a with Background.Respond _ => true | _ => false end) r.2 in
  (req <> Background.FORCE_REFRESH_CAPTURE -> r.1 = w) /\
  (sender = None \/ sender = Some 0 -> r = (w, [])) /\
  (forall t, sender = Some t -> t <> 0 -> req <> Background.OtherRequest ->
     length answers = 1%nat).
Proof.
  intros r answers. subst answers r. unfold Background.onMessage. repeat split.
  - intros Hreq. destruct sender as [t|]; [|reflexivity].
    destruct (Z.eqb t 0); [reflexivity|]. destruct req; try reflexivity; try contradiction.
    now destruct (Background.shopDataByTab w !! t).
  - intros [->| ->]; reflexivity.
  - intros t -> Ht Hreq. apply Z.eqb_neq in Ht. rewrite Ht.
    destruct req; try reflexivity; try contradiction.
    now destruct (Background.shopDataByTab w !! t).
Qed.

(** ** Captures in either order *)

Section CaptureOrder.

Import Background.

Lemma ensure_insert (tabId : Z) (d : Store.ShopData) (tbl : gmap Z Store.ShopData) :
  Store.ensure tabId (<[tabId := d]> tbl) = <[tabId := d]> tbl.
Proof. unfold Store.ensure. now rewrite lookup_insert_eq. Qed.

Lemma ensure_as_insert (tabId : Z) (tbl : gmap Z Store.ShopData) :
  Store.ensure tabId tbl = <[tabId := Store.entry tabId tbl]> tbl.
Proof.
  unfold Store.ensure, Store.entry. destruct (tbl !! tabId) eqn:E; simpl.
  - symmetry. now apply insert_id.
  - reflexivity.
Qed.

(** The world after a shop capture with a truthy body. *)
Lemma process_shop (tabId : Z) (info : json) (now : Q) (w : World) :
  json_truthy info = true ->
  (process tabId (ShopBody (Some info)) now w).1.1
  = with_shops w
      (<[tabId := {| Store.shopInfo := Some info;
                     Store.products := Store.products (Store.entry tabId (shopDataByTab w));
                     Store.totalCaptured :=
                       Store.totalCaptured (Store.entry tabId (shopDataByTab w));
                     Store.totalExpected :=
                       Store.totalExpected (Store.entry tabId (shopDataByTab w)) |}]>
         (shopDataByTab w)).
Proof.
  intros H. unfold process. rewrite H. simpl. unfold with_shops. simpl.
  rewrite entry_ensure, ensure_as_insert, insert_insert_eq. reflexivity.
Qed.

(** The world after a product-list capture with at least one item. *)
Lemma process_products (tabId : Z) (b : ProductsBody) (now : Q) (w : World)
    (i : Item.t) (items : list Item.t) (total : Q) :
  products_items b = (i :: items, total) ->
  (process tabId (ProductsOf b) now w).1.1
  = with_shops w
      (<[tabId :=
           let d := Store.entry tabId (shopDataByTab w) in
           let products' := fold_left Store.upsert (i :: items) (Store.products d) in
           {| Store.shopInfo := Store.shopInfo d;
              Store.products := products';
              Store.totalCaptured := JsMap.size products';
              Store.totalExpected := if truthy total then total else Store.totalExpected d |}]>
         (shopDataByTab w)).
Proof.
  intros H. unfold process. rewrite H. simpl. unfold with_shops. simpl.
  unfold Store.processItems.
  rewrite !entry_ensure, (ensure_as_insert tabId (Store.ensure tabId (shopDataByTab w))).
  rewrite entry_ensure, insert_insert_eq, ensure_as_insert, insert_insert_eq. reflexivity.
Qed.

End CaptureOrder.

(** X12. A shop capture and a product-list capture for the same tab commute:
    whichever body resolves first, the tables end up the same, with the
    shop info of the one and the products and totals of the other. *)
Theorem captures_commute (tabId : Z) (info : json) (b : Background.ProductsBody)
    (n1 n2 : Q) (w : Background.World) (i : Item.t) (items : list Item.t) (total : Q) :
  json_truthy info = true ->
  Background.products_items b = (i :: items, total) ->
  let shop := Background.Resolved tabId (Background.ShopBody (Some info)) n1 in
  let list := Background.Resolved tabId (Background.ProductsOf b) n2 in
  (Background.run w [shop; list]).1 = (Background.run w [list; shop]).1 /\
  Store.shopInfo (Store.entry tabId
                    (Background.shopDataByTab (Background.run w [shop; list]).1))
  = Some info /\
  Store.products (Store.entry tabId
                    (Background.shopDataByTab (Background.run w [shop; list]).1))
  = fold_left Store.upsert (i :: items)
      (Store.products (Store.entry tabId (Background.shopDataByTab w))).
Proof.
  intros Hinfo Hb shop list. subst shop list.
  rewrite !run_cons. cbn [Background.run fst].
  assert (Hstep : forall body n w0,
            (Background.step w0 (Background.Resolved tabId body n)).1
            = (Background.process tabId body n w0).1.1).
  { intros body n w0. simpl. now destruct (Background.process tabId body n w0) as [[? ?] ?]. }
  rewrite !Hstep.
  rewrite (process_shop tabId info n1 w Hinfo).
  rewrite (process_products tabId b n2 w i items total Hb).
  rewrite (process_products tabId b n2 _ i items total Hb).
  rewrite (process_shop tabId info n1 _ Hinfo).
  unfold Background.with_shops. cbn [Background.shopDataByTab
    Background.searchDataByTab Background.categoryDataByTab].
  rewrite !entry_insert, !insert_insert_eq. cbn zeta.
  cbn [Store.shopInfo Store.products Store.totalCaptured Store.totalExpected].
  repeat split.
Qed.

(** X12 at tab 5 on the initial world. *)
Lemma captures_commute_witness :
  let b := {| Background.pb_item_cards := None; Background.pb_data_items := None;
              Background.pb_items := Some [Samples.list_item 1 (Some 5000%Q) None];
              Background.pb_total := None |} in
  let shop := Background.Resolved 5 (Background.ShopBody (Some (JStr (js "toko")))) 1%Q in
  let list := Background.Resolved 5 (Background.ProductsOf b) 2%Q in
  (Background.run Background.initial [shop; list]).1
  = (Background.run Background.initial [list; shop]).1.
Proof.
  intros b shop list.
  exact (proj1 (captures_commute 5 (JStr (js "toko")) b 1%Q 2%Q Background.initial
                  (Samples.list_item 1 (Some 5000%Q) None) [] 0%Q eq_refl eq_refl)).
Defined.

(** ** The sums of the official-store aggregate *)

Section AggregateSums.

Import Category Aggregate.

Lemma sum_Z_app (l1 l2 : list Z) : sum_Z (l1 ++ l2) = sum_Z l1 + sum_Z l2.
Proof. unfold sum_Z. induction l1 as [|x l1 IH]; simpl; [reflexivity | rewrite IH; lia]. Qed.














End AggregateSums.


(** ** More on [mergeProducts] *)

Section MergeMore.

Context {V : Type}.
Implicit Types (m : JsMap.t V) (k : Z) (v : V) (kvs : list (Z * V)).

Lemma set_all_app kvs1 kvs2 m :
  JsMap.set_all (kvs1 ++ kvs2) m = JsMap.set_all kvs2 (JsMap.set_all kvs1 m).
Proof. unfold JsMap.set_all. apply fold_left_app. Qed.

(** The last entry of a key decides what is found under it. *)
Lemma get_set_all_last front k v back m :
  k ∉ back.*1 -> JsMap.get (JsMap.set_all (front ++ (k, v) :: back) m) k = Some v.
Proof.
  intros H. rewrite set_all_app.
  change ((k, v) :: back) with ([(k, v)] ++ back). rewrite set_all_app.
  rewrite get_set_all_absent by exact H. apply get_set_eq.
Qed.

Lemma last_entry kvs k :
  k ∈ kvs.*1 -> exists front v back, kvs = front ++ (k, v) :: back /\ k ∉ back.*1.
Proof.
  induction kvs as [|[k0 v0] kvs IH]; csimpl; intros H; [inversion H|].
  destruct (decide (k ∈ kvs.*1)) as [Hin|Hnin].
  - destruct (IH Hin) as (front & v & back & -> & Hb).
    exists ((k0, v0) :: front), v, back. auto.
  - apply elem_of_cons in H as [->|H]; [|contradiction].
    exists [], v0, kvs. auto.
Qed.

Lemma set_fresh m k v : k ∉ JsMap.keys m -> JsMap.set k v m = m ++ [(k, v)].
Proof.
  unfold JsMap.keys. induction m as [|[k' v'] m IH]; csimpl; intros H; [reflexivity|].
  rewrite not_elem_of_cons in H. destruct H as [Hne Hm].
  destruct (Z.eqb_spec k' k); [congruence|]. now rewrite IH.
Qed.

(** Entries with new, pairwise distinct keys are appended as they are. *)
Lemma set_all_fresh kvs m :
  NoDup (JsMap.keys (m ++ kvs)) -> JsMap.set_all kvs m = m ++ kvs.
Proof.
  revert m. induction kvs as [|[k v] kvs IH]; intros m H; [now rewrite app_nil_r|].
  unfold JsMap.set_all in *. simpl.
  assert (Hk : k ∉ JsMap.keys m).
  { unfold JsMap.keys in *. rewrite fmap_app in H. apply NoDup_app in H as (_ & H & _).
    intros Hin. apply (H k Hin). csimpl. left. }
  rewrite (set_fresh m k v Hk), IH; [now rewrite <- app_assoc|].
  now rewrite <- app_assoc.
Qed.

(** Two maps with the same keys in the same order and the same values under
    them are the same map. *)
Lemma JsMap_ext m1 m2 :
  NoDup (JsMap.keys m1) -> JsMap.keys m1 = JsMap.keys m2 ->
  (forall k, JsMap.get m1 k = JsMap.get m2 k) -> m1 = m2.
Proof.
  unfold JsMap.keys. revert m2.
  induction m1 as [|[k v] m1 IH]; intros [|[k' v'] m2] Hnd Hk Hg; csimpl in *;
    try discriminate; [reflexivity|].
  injection Hk as <- Hk. apply NoDup_cons in Hnd as [Hnin Hnd].
  pose proof (Hg k) as Hgk. simpl in Hgk. rewrite Z.eqb_refl in Hgk.
  injection Hgk as <-. f_equal. apply IH; [exact Hnd | exact Hk|].
  intros k0. specialize (Hg k0). simpl in Hg.
  destruct (Z.eqb_spec k k0) as [Heq|Hne]; [|exact Hg].
  rewrite <- Heq. clear Hg.
  assert (H1 : JsMap.get m1 k = None) by now apply get_None_keys.
  assert (H2 : JsMap.get m2 k = None)
    by (apply get_None_keys; unfold JsMap.keys; now rewrite <- Hk).
  congruence.
Qed.

(** Setting the same entries a second time changes nothing. *)
Lemma set_all_twice kvs m :
  NoDup (JsMap.keys m) ->
  JsMap.set_all kvs (JsMap.set_all kvs m) = JsMap.set_all kvs m.
Proof.
  intros Hnd. apply JsMap_ext.
  - now apply NoDup_keys_set_all, NoDup_keys_set_all.
  - destruct (keys_set_all_prefix kvs (JsMap.set_all kvs m)) as (added & -> & _ & Hin).
    destruct added as [|k added]; [now rewrite app_nil_r|]. exfalso.
    destruct (proj1 (Hin k) ltac:(left)) as [H1 H2].
    apply H2, elem_of_keys_set_all. now right.
  - intros k. destruct (decide (k ∈ kvs.*1)) as [Hin|Hnin].
    + destruct (last_entry kvs k Hin) as (front & v & back & -> & Hb).
      now rewrite !get_set_all_last.
    + now rewrite get_set_all_absent.
Qed.

End MergeMore.

Lemma filter_none {A} (P : A -> Prop) `{forall x, Decision (P x)} (l : list A) :
  (forall x, x ∈ l -> ~ P x) -> filter P l = [].
Proof.
  induction l as [|x l IH]; intros Hl; [reflexivity|].
  rewrite filter_cons_False by (apply Hl; left).
  apply IH. intros y Hy. apply Hl. now right.
Qed.

Section MergeProducts.

Local Notation "'keyed'" := (fun p : Product.t => (Product.itemid p, p)).

Lemma keyed_values (m : JsMap.t Product.t) :
  Forall (fun e => Product.itemid e.2 = e.1) m -> keyed <$> JsMap.values m = m.
Proof.
  unfold JsMap.values. induction 1 as [|[k p] m H _ IH]; csimpl; [reflexivity|].
  simpl in H. now rewrite H, IH.
Qed.

Lemma values_keyed (l : list Product.t) : JsMap.values (keyed <$> l) = l.
Proof.
  unfold JsMap.values. rewrite <- list_fmap_compose. apply list_fmap_id.
Qed.

(** The map [mergeProducts] builds. *)
Lemma merge_map (existing news : list Product.t) :
  Overlay.mergeProducts existing news
  = (JsMap.values (JsMap.set_all (keyed <$> news) (JsMap.set_all (keyed <$> existing) [])),
     length (Distinct.new_ids
               (JsMap.keys (JsMap.set_all (keyed <$> existing) []))
               (Product.itemid <$> news))).
Proof.
  unfold Overlay.mergeProducts. now rewrite merge_first_fold, merge_second_fold.
Qed.

Lemma merge_map_ok (existing news : list Product.t) :
  let m := JsMap.set_all (keyed <$> news) (JsMap.set_all (keyed <$> existing) []) in
  NoDup (JsMap.keys m) /\ Forall (fun e => Product.itemid e.2 = e.1) m.
Proof.
  split.
  - apply NoDup_keys_set_all, NoDup_keys_set_all. constructor.
  - apply values_itemid; [apply Forall_fmap, Forall_true; reflexivity|].
    apply values_itemid; [apply Forall_fmap, Forall_true; reflexivity | constructor].
Qed.

(** Rebuilding the map from a merged array gives the map back. *)
Lemma rebuild (m : JsMap.t Product.t) :
  NoDup (JsMap.keys m) -> Forall (fun e => Product.itemid e.2 = e.1) m ->
  JsMap.set_all (keyed <$> JsMap.values m) [] = m.
Proof.
  intros Hnd Hall. rewrite (keyed_values m Hall). now apply (set_all_fresh m []).
Qed.

End MergeProducts.

(** X14. [mergeProducts] is idempotent in its batch: merging the same batch
    into the merged array again returns the same array, and counts no new
    product. *)
Theorem mergeProducts_idempotent (existing news : list Product.t) :
  let merged := (Overlay.mergeProducts existing news).1 in
  Overlay.mergeProducts merged news = (merged, 0%nat).
Proof.
  intros merged. subst merged.
  destruct (merge_map_ok existing news) as [Hnd Hall].
  rewrite (merge_map existing news). cbn [fst].
  rewrite merge_map, (rebuild _ Hnd Hall), set_all_twice
    by (apply NoDup_keys_set_all; constructor).
  f_equal. unfold Distinct.new_ids.
  assert (Hf : filter (fun k => k ∉ JsMap.keys
                 (JsMap.set_all ((fun p : Product.t => (Product.itemid p, p)) <$> news)
                    (JsMap.set_all ((fun p : Product.t => (Product.itemid p, p)) <$> existing) [])))
                 (Product.itemid <$> news) = []).
  { apply filter_none. intros k Hk Hn. apply Hn.
    apply elem_of_keys_set_all. right. now rewrite fmap_pair_fst. }
  now rewrite Hf.
Qed.

(** X15. On an array without repeated ids [mergeProducts] keeps the existing
    products' positions and appends the ids it has not seen, merging an empty
    page returns the array itself, the last record of a page with a given id
    is the one in the result, and an existing record whose id the page does
    not carry stays. *)
Theorem mergeProducts_content (existing news : list Product.t) :
  NoDup (Product.itemid <$> existing) ->
  let merged := (Overlay.mergeProducts existing news).1 in
  Overlay.mergeProducts existing [] = (existing, 0%nat) /\
  (exists added,
     Product.itemid <$> merged = (Product.itemid <$> existing) ++ added /\
     NoDup added /\
     (forall k, k ∈ added <->
                k ∈ Product.itemid <$> news /\ k ∉ Product.itemid <$> existing)) /\
  (forall front p back,
     news = front ++ p :: back -> Product.itemid p ∉ Product.itemid <$> back ->
     p ∈ merged) /\
  (forall p, p ∈ existing -> Product.itemid p ∉ Product.itemid <$> news ->
             p ∈ merged).
Proof.
  intros Hnd merged.
  assert (Hex : JsMap.set_all ((fun p => (Product.itemid p, p)) <$> existing) []
                = (fun p => (Product.itemid p, p)) <$> existing).
  { apply (set_all_fresh _ []). simpl. unfold JsMap.keys. now rewrite fmap_pair_fst. }
  assert (Hmem : forall p, JsMap.get
             (JsMap.set_all ((fun p => (Product.itemid p, p)) <$> news)
                (JsMap.set_all ((fun p => (Product.itemid p, p)) <$> existing) []))
             (Product.itemid p) = Some p -> p ∈ merged).
  { intros p Hp. subst merged. rewrite merge_map. cbn [fst].
    apply get_Some_elem in Hp. unfold JsMap.values.
    apply list_elem_of_fmap. now exists (Product.itemid p, p). }
  split; [|split; [|split]].
  - rewrite merge_map. rewrite Hex. csimpl. change (JsMap.set_all [] ?m) with m.
    now rewrite values_keyed.
  - subst merged. rewrite merge_ids.
    destruct (keys_set_all_prefix ((fun p => (Product.itemid p, p)) <$> news)
                (JsMap.set_all ((fun p => (Product.itemid p, p)) <$> existing) []))
      as (added & Hk & Hnda & Hin).
    exists added. rewrite Hk, Hex. unfold JsMap.keys. rewrite fmap_pair_fst.
    split; [reflexivity|]. split; [exact Hnda|].
    intros k. rewrite Hin, Hex. unfold JsMap.keys. now rewrite !fmap_pair_fst.
  - intros front p back -> Hb. apply Hmem.
    rewrite fmap_app, fmap_cons. apply get_set_all_last. now rewrite fmap_pair_fst.
  - intros p Hp Hn. apply Hmem.
    rewrite get_set_all_absent by now rewrite fmap_pair_fst.
    apply list_elem_of_split in Hp as (l1 & l2 & ->).
    rewrite fmap_app, fmap_cons in Hnd. apply NoDup_app in Hnd as (_ & _ & Hnd).
    apply NoDup_cons in Hnd as [Hp _].
    rewrite fmap_app, fmap_cons. apply get_set_all_last. now rewrite fmap_pair_fst.
Qed.

(** X15 at a stored page with ids 1 and 2 and a new page that repeats id 1
    with another price: the new record of id 1 and the old record of id 2 are
    both in the result. *)
Lemma mergeProducts_content_witness :
  let a := StoredSamples.product 1 5000%Q in
  let b := StoredSamples.product 2 7000%Q in
  let a' := StoredSamples.product 1 6000%Q in
  NoDup (Product.itemid <$> [a; b]) /\
  a' ∈ (Overlay.mergeProducts [a; b] [a']).1 /\
  b ∈ (Overlay.mergeProducts [a; b] [a']).1.
Proof.
  intros a b a'.
  assert (Hnd : NoDup (Product.itemid <$> [a; b])).
  { apply NoDup_cons. split; [|apply NoDup_singleton].
    intros H. apply list_elem_of_singleton in H. discriminate H. }
  split; [exact Hnd|].
  destruct (mergeProducts_content [a; b] [a'] Hnd) as (_ & _ & Hnew & Hold).
  split.
  - apply (Hnew [] a' [] eq_refl). apply not_elem_of_nil.
  - apply Hold; [right; left|].
    intros H. apply list_elem_of_singleton in H. discriminate H.
Defined.

(** ** The store history of the overlay *)

Section StoreHistoryFacts.

Import StoreHistory.

Implicit Types (l : list StoredStoreData) (s : StoredStoreData).

Lemma total_cons s l :
  getTotalStoreProducts (s :: l) = (length (products s) + getTotalStoreProducts l)%nat.
Proof.
  unfold getTotalStoreProducts. simpl. generalize (length (products s)). clear s.
  induction l as [|x l IH]; intros n; simpl; [lia|].
  rewrite (IH (n + _)%nat), (IH (length _)). lia.
Qed.

Lemma total_nil : getTotalStoreProducts [] = 0%nat.
Proof. reflexivity. Qed.

Lemma total_bound l :
  Forall (fun s => (length (products s) <= MAX_PRODUCTS_PER_STORE)%nat) l ->
  (getTotalStoreProducts l <= MAX_PRODUCTS_PER_STORE * length l)%nat.
Proof.
  induction 1 as [|x l Hx _ IH]; [rewrite total_nil; lia|].
  rewrite total_cons. simpl length. lia.
Qed.

Lemma total_filter (f : StoredStoreData -> bool) l :
  (getTotalStoreProducts (List.filter f l) <= getTotalStoreProducts l)%nat /\
  (length (List.filter f l) <= length l)%nat.
Proof.
  induction l as [|x l [IH1 IH2]]; simpl; [split; lia|].
  destruct (f x); simpl; rewrite ?total_cons; split; rewrite ?total_cons; lia.
Qed.

Lemma findIndex_lookup {A} (f : A -> bool) (l : list A) (i : nat) :
  findIndex f l = Some i -> exists y, l !! i = Some y /\ f y = true.
Proof.
  revert i. induction l as [|x l IH]; intros i; simpl; [discriminate|].
  destruct (f x) eqn:Hx.
  - intros [= <-]. now exists x.
  - destruct (findIndex f l) as [j|]; [|discriminate].
    intros [= <-]. now apply IH.
Qed.

Lemma findIndex_None {A} (f : A -> bool) (l : list A) :
  findIndex f l = None -> Forall (fun x => f x = false) l.
Proof.
  induction l as [|x l IH]; simpl; [constructor|].
  destruct (f x) eqn:Hx; [discriminate|].
  destruct (findIndex f l); [discriminate|]. intros _. constructor; auto.
Qed.

Lemma findIndex_found {A} (f : A -> bool) (l : list A) (x : A) :
  x ∈ l -> f x = true -> exists i, findIndex f l = Some i.
Proof.
  intros Hin Hx. destruct (findIndex f l) as [i|] eqn:E; [now exists i|].
  apply findIndex_None in E. rewrite Forall_forall in E.
  specialize (E x Hin). congruence.
Qed.

(** The loop's body always finds the store it looks for: a pass ends the
    loop only when its condition fails. *)
Lemma trim_step_None l :
  trim_step l = None <->
  (getTotalStoreProducts l <= MAX_TOTAL_PRODUCTS)%nat \/ l = [].
Proof.
  unfold trim_step.
  destruct (Nat.ltb_spec MAX_TOTAL_PRODUCTS (getTotalStoreProducts l)) as [Hgt|Hle];
    [|simpl; split; auto].
  destruct (Nat.ltb_spec 0 (length l)) as [Hpos|Hz]; simpl.
  - split; [|intros [H| ->]; [lia|simpl in Hpos; lia]].
    intros H. exfalso.
    destruct (largest_first l) as [|largest rest] eqn:Hsort.
    + pose proof (sort_Permutation
                    (fun a b => Z.of_nat (length (products b)) - Z.of_nat (length (products a)))
                    l) as Hp.
      fold (largest_first l) in Hp. rewrite Hsort in Hp.
      apply Permutation_length in Hp. simpl in Hp. lia.
    + assert (Hin : largest ∈ l).
      { apply (elem_of_sort
                 (fun a b => Z.of_nat (length (products b)) - Z.of_nat (length (products a)))).
        fold (largest_first l). rewrite Hsort. left. }
      destruct (findIndex_found (same_slug (shopSlug largest)) l largest Hin) as [i Hi].
      { unfold same_slug. now apply bool_decide_eq_true. }
      rewrite Hi in H. destruct (findIndex_lookup _ _ _ Hi) as (y & Hy & _).
      rewrite Hy in H. destruct (_ <? _)%nat; discriminate.
  - split; [intros _|reflexivity]. right. destruct l; [reflexivity|simpl in Hz; lia].
Qed.

Lemma trim_step_length l next : trim_step l = Some next -> (length next <= length l)%nat.
Proof.
  unfold trim_step. destruct (_ && _); [|discriminate].
  destruct (largest_first l); [discriminate|].
  destruct (findIndex _ l) as [i|]; [|discriminate].
  destruct (l !! i) as [x|] eqn:Hx; [|discriminate].
  destruct (_ <? _)%nat; intros [= <-].
  - now rewrite length_insert.
  - rewrite length_delete by (now exists x). lia.
Qed.

Lemma trim_eq l :
  trim l = match trim_step l with None => l | Some next => trim next end.
Proof.
  rewrite trim_equation_1. unfold trim_unfold_clause_1.
  generalize (Equations.Prop.Logic.inspect (trim_step l)).
  intros [[next|] e]; simpl; now rewrite e.
Qed.

Lemma trim_exit l : trim_step (trim l) = None.
Proof. funelim (trim l); assumption. Qed.

Lemma trim_length l : (length (trim l) <= length l)%nat.
Proof.
  funelim (trim l); [|lia].
  pose proof (trim_step_length _ _ e). lia.
Qed.

Lemma trim_fixed l : trim_step l = None -> trim l = l.
Proof. intros H. now rewrite trim_eq, H. Qed.

(** At most [MAX_STORES] stores of at most [MAX_PRODUCTS_PER_STORE] products
    are within [MAX_TOTAL_PRODUCTS]: the loop does not run. *)
Lemma trim_bounded l :
  (length l <= MAX_STORES)%nat ->
  Forall (fun s => (length (products s) <= MAX_PRODUCTS_PER_STORE)%nat) l ->
  trim l = l.
Proof.
  intros Hlen Hall. apply trim_fixed, trim_step_None. left.
  apply total_bound in Hall. unfold MAX_TOTAL_PRODUCTS, MAX_PRODUCTS_PER_STORE, MAX_STORES in *.
  lia.
Qed.

Lemma length_take_le {A} (n : nat) (xs : list A) : (length (take n xs) <= n)%nat.
Proof. rewrite length_take. lia. Qed.

End StoreHistoryFacts.

(** X16. Whatever was stored before, [saveStoreToStorage] writes at most
    [MAX_STORES] stores holding at most [MAX_TOTAL_PRODUCTS] products in
    total; the loop that enforces the total ends. *)
Theorem save_limits (stamp checked cutoff cleaned : Z) (slug : jstring) (info : json)
    (ps : list Product.t) (stored : option StoreHistory.StoreHistoryStorage) :
  let saved := StoreHistory.saveStoreToStorage stamp checked cutoff cleaned slug info ps
                 stored in
  (length (StoreHistory.stores saved) <= StoreHistory.MAX_STORES)%nat /\
  (StoreHistory.getTotalStoreProducts (StoreHistory.stores saved)
   <= StoreHistory.MAX_TOTAL_PRODUCTS)%nat.
Proof.
  intros saved. subst saved. unfold StoreHistory.saveStoreToStorage.
  set (capped := StoreHistory.capped _ _).
  assert (Hlen : (length (StoreHistory.trim capped) <= StoreHistory.MAX_STORES)%nat).
  { etransitivity; [apply trim_length|]. apply length_take_le. }
  assert (Htot : (StoreHistory.getTotalStoreProducts (StoreHistory.trim capped)
                  <= StoreHistory.MAX_TOTAL_PRODUCTS)%nat).
  { destruct (proj1 (trim_step_None _) (trim_exit capped)) as [H|H]; [exact H|].
    rewrite H, total_nil. lia. }
  destruct (_ <? _); cbn [StoreHistory.stores]; [|split; assumption].
  match goal with |- context [List.filter ?f ?l] =>
    destruct (total_filter f l) as [H1 H2] end.
  split; lia.
Qed.

Section SaveLoad.

Import StoreHistory.

Implicit Types (l : list StoredStoreData) (d : StoredStoreData).

Lemma elem_of_insert_inv {A} (xs : list A) (i : nat) (x y : A) :
  y ∈ <[i := x]> xs -> y = x \/ y ∈ xs.
Proof.
  revert i. induction xs as [|a xs IH]; intros [|i]; simpl; intros H; auto.
  - apply elem_of_cons in H as [->|H]; [now left|]. right. now right.
  - apply elem_of_cons in H as [->|H]; [right; left|].
    destruct (IH i H) as [->|Hy]; [now left|]. right. now right.
Qed.

(** Where the saved entry is put: it is among the stores, and the others
    were there before. *)
Lemma placed_elems d l :
  d ∈ placed d l /\ forall y, y ∈ placed d l -> y = d \/ y ∈ l.
Proof.
  unfold placed.
  destruct (findIndex (same_slug (shopSlug d)) l) as [i|] eqn:Hi; simpl.
  - destruct (findIndex_lookup _ _ _ Hi) as (y & Hy & _).
    split; [apply list_elem_of_insert; now apply lookup_lt_Some in Hy|].
    intros z. apply elem_of_insert_inv.
  - split; [apply elem_of_app; right; left|].
    intros y Hy. apply elem_of_app in Hy as [Hy|Hy]; [now right|].
    apply list_elem_of_singleton in Hy. now left.
Qed.

(** The newest entry comes first once the stores are sorted. *)
Lemma newest_first d l :
  d ∈ l -> (forall y, y ∈ l -> y = d \/ updatedAt y < updatedAt d) ->
  exists rest, sort (fun a b => updatedAt b - updatedAt a) l = d :: rest.
Proof.
  intros Hd Hnew.
  set (cmp := fun a b : StoredStoreData => updatedAt b - updatedAt a).
  pose proof (sort_descending cmp updatedAt l) as Hs.
  destruct (sort cmp l) as [|h rest] eqn:E.
  - apply (elem_of_sort cmp) in Hd. rewrite E in Hd. inversion Hd.
  - assert (Hh : h ∈ l) by (apply (elem_of_sort cmp); rewrite E; left).
    assert (Hd' : d ∈ h :: rest) by (rewrite <- E; now apply elem_of_sort).
    exists rest. f_equal.
    destruct (Hnew h Hh) as [->|Hlt]; [reflexivity|].
    apply elem_of_cons in Hd' as [->|Hd']; [reflexivity|].
    assert (Hsorted : StronglySorted (fun a b => updatedAt b <= updatedAt a) (h :: rest)).
    { apply Hs. intros x y. unfold cmp. lia. }
    apply StronglySorted_inv in Hsorted as [_ Hall].
    rewrite Forall_forall in Hall.
    specialize (Hall d Hd'). lia.
Qed.

End SaveLoad.

(** X17. A store saved on top of a history that obeys the per-store limit
    and is older than the save is read back as saved, cut to
    [MAX_PRODUCTS_PER_STORE] products, as long as the retention period has
    not passed: the saved entry is the first of the stored ones and
    [loadStoreFromStorage] returns its information and products. *)
Theorem save_then_load (stamp checked cutoff cleaned now : Z) (slug : jstring)
    (info : json) (ps : list Product.t)
    (stored : option StoreHistory.StoreHistoryStorage) :
  Forall (fun s => (length (StoreHistory.products s)
                    <= StoreHistory.MAX_PRODUCTS_PER_STORE)%nat /\
                   StoreHistory.updatedAt s < stamp)
         (StoreHistory.stores (StoreHistory.or_fresh stored)) ->
  cutoff - StoreHistory.RETENTION_DAYS * StoreHistory.day < stamp ->
  now - StoreHistory.RETENTION_DAYS * StoreHistory.day < stamp ->
  let saved := StoreHistory.saveStoreToStorage stamp checked cutoff cleaned slug info ps
                 stored in
  head (StoreHistory.stores saved)
  = Some (StoreHistory.dataToSave stamp slug info ps) /\
  StoreHistory.loadStoreFromStorage now slug (Some saved)
  = Some (info, take StoreHistory.MAX_PRODUCTS_PER_STORE ps).
Proof.
  intros Hold Hcut Hnow saved.
  set (d := StoreHistory.dataToSave stamp slug info ps).
  assert (Hhead : exists rest, StoreHistory.stores saved = d :: rest).
  { subst saved. unfold StoreHistory.saveStoreToStorage, StoreHistory.capped. fold d.
    set (l := StoreHistory.stores (StoreHistory.or_fresh stored)) in *.
    destruct (placed_elems d l) as [Hd Hel].
    set (placed := StoreHistory.placed d l) in *.
    rewrite Forall_forall in Hold.
    destruct (newest_first d placed Hd) as [rest Hsort].
    { intros y Hy. destruct (Hel y Hy) as [->|Hy']; [now left|].
      right. now apply Hold. }
    rewrite Hsort.
    assert (Hall : Forall (fun s => (length (StoreHistory.products s)
                                     <= StoreHistory.MAX_PRODUCTS_PER_STORE)%nat)
                          (d :: rest)).
    { rewrite <- Hsort. apply Forall_forall. intros y Hy.
      apply elem_of_sort in Hy. destruct (Hel y Hy) as [->|Hy'].
      - simpl. apply length_take_le.
      - now apply Hold. }
    rewrite trim_bounded;
      [|apply length_take_le | now apply Forall_take].
    change (take StoreHistory.MAX_STORES (d :: rest)) with (d :: take 4 rest).
    destruct (_ <? _); cbn [StoreHistory.stores]; [|now eexists].
    simpl. destruct (Z.ltb_spec (cutoff - StoreHistory.RETENTION_DAYS * StoreHistory.day) stamp);
      [now eexists | lia]. }
  destruct Hhead as [rest Hrest]. split; [now rewrite Hrest|].
  unfold StoreHistory.loadStoreFromStorage. cbn [StoreHistory.or_fresh]. rewrite Hrest.
  simpl. unfold StoreHistory.same_slug at 1. simpl.
  rewrite bool_decide_eq_true_2 by reflexivity.
  change (StoreHistory.updatedAt d) with stamp.
  destruct (Z.ltb_spec (now - StoreHistory.RETENTION_DAYS * StoreHistory.day) stamp);
    [reflexivity | lia].
Qed.

(** X17 for the first save of a store, read back a day later. *)
Lemma save_then_load_witness :
  StoreHistory.loadStoreFromStorage (1000 + StoreHistory.day) (js "toko.official")
    (Some (StoreHistory.saveStoreToStorage 1000 1000 1000 1000 (js "toko.official")
             JNull [StoredSamples.product 1 5000%Q] None))
  = Some (JNull, [StoredSamples.product 1 5000%Q]).
Proof.
  apply (save_then_load 1000 1000 1000 1000 (1000 + StoreHistory.day)
           (js "toko.official") JNull [StoredSamples.product 1 5000%Q] None).
  - constructor.
  - reflexivity.
  - reflexivity.
Defined.

Section HistoryInvariant.

Import StoreHistory.

Implicit Types (l : list StoredStoreData) (d : StoredStoreData).

Local Notation "'within'" := (fun s : StoredStoreData =>
                                (length (products s) <= MAX_PRODUCTS_PER_STORE)%nat).

Lemma filter_slugs (f : StoredStoreData -> bool) l :
  NoDup (shopSlug <$> l) -> NoDup (shopSlug <$> List.filter f l).
Proof.
  induction l as [|x l IH]; csimpl; [auto|].
  intros H. apply NoDup_cons in H as [Hx Hl].
  destruct (f x); csimpl; [|auto].
  apply NoDup_cons. split; [|auto].
  intros Hin. apply Hx. apply list_elem_of_fmap in Hin as (y & Hy & Hin).
  apply list_elem_of_fmap. exists y. split; [exact Hy|].
  apply list_elem_of_In, filter_In in Hin. now apply list_elem_of_In.
Qed.

Lemma filter_within (f : StoredStoreData -> bool) l :
  Forall within l -> Forall within (List.filter f l).
Proof.
  induction 1 as [|x l Hx _ IH]; simpl; [constructor|].
  destruct (f x); [constructor|]; assumption.
Qed.

Lemma placed_slugs d l : NoDup (shopSlug <$> l) -> NoDup (shopSlug <$> placed d l).
Proof.
  intros Hnd. unfold placed.
  destruct (findIndex (same_slug (shopSlug d)) l) as [i|] eqn:Hi.
  - destruct (findIndex_lookup _ _ _ Hi) as (y & Hy & Hsame).
    unfold same_slug in Hsame. apply bool_decide_eq_true in Hsame.
    rewrite list_fmap_insert, list_insert_id; [exact Hnd|].
    now rewrite list_lookup_fmap, Hy, <- Hsame.
  - apply findIndex_None in Hi. rewrite Forall_forall in Hi.
    rewrite fmap_app. apply NoDup_app. split; [exact Hnd|]. split; [|apply NoDup_singleton].
    intros slug Hin Hd. csimpl in Hd. apply list_elem_of_singleton in Hd. subst slug.
    apply list_elem_of_fmap in Hin as (y & Hy & Hin).
    specialize (Hi y Hin). unfold same_slug in Hi.
    apply bool_decide_eq_false in Hi. congruence.
Qed.

Lemma placed_within d l : within d -> Forall within l -> Forall within (placed d l).
Proof.
  intros Hd Hl. unfold placed. destruct (findIndex _ l).
  - now apply Forall_insert.
  - apply Forall_app. split; [exact Hl|]. now constructor.
Qed.

Lemma capped_bounded d l :
  within d -> Forall within l -> NoDup (shopSlug <$> l) ->
  (length (capped d l) <= MAX_STORES)%nat /\
  Forall within (capped d l) /\
  NoDup (shopSlug <$> capped d l).
Proof.
  intros Hd Hl Hnd. unfold capped.
  set (cmp := fun a b : StoredStoreData => updatedAt b - updatedAt a).
  split; [apply length_take_le|]. split.
  - apply Forall_take. rewrite (sort_Permutation cmp). now apply placed_within.
  - rewrite fmap_take. eapply sublist_NoDup; [|apply sublist_take].
    rewrite (sort_Permutation cmp). now apply placed_slugs.

Qed.

Lemma save_bounded (stamp checked cutoff cleaned : Z) (slug : jstring) (info : json)
    (ps : list Product.t) (stored : option StoreHistoryStorage) :
  bounded (or_fresh stored) ->
  bounded (saveStoreToStorage stamp checked cutoff cleaned slug info ps stored).
Proof.
  intros (_ & Hall & Hnd). unfold saveStoreToStorage.
  destruct (capped_bounded (dataToSave stamp slug info ps) (stores (or_fresh stored)))
    as (Hlen & Hw & Hs); [apply length_take_le | exact Hall | exact Hnd |].
  rewrite (trim_bounded _ Hlen Hw).
  destruct (_ <? _); unfold bounded; cbn [stores]; [|auto].
  split; [|split; [now apply filter_within | now apply filter_slugs]].
  match goal with |- context [List.filter ?f ?l] =>
    destruct (total_filter f l) as [_ H] end. lia.
Qed.

Lemma clear_bounded (slug : jstring) (stored : option StoreHistoryStorage) :
  bounded (or_fresh stored) -> bounded (clearStore slug stored).
Proof.
  intros (Hlen & Hall & Hnd). unfold clearStore, bounded. cbn [stores].
  split; [|split; [now apply filter_within | now apply filter_slugs]].
  match goal with |- context [List.filter ?f ?l] =>
    destruct (total_filter f l) as [_ H] end. lia.
Qed.

Lemma writes_keep_bounded (ops : list Write) (stored : option StoreHistoryStorage) :
  bounded (or_fresh stored) -> bounded (or_fresh (writes ops stored)).
Proof.
  revert stored. unfold writes.
  induction ops as [|op ops IH]; intros stored H; [exact H|].
  simpl. apply IH. destruct op; simpl.
  - now apply save_bounded.
  - now apply clear_bounded.
Qed.

Lemma find_filter_out (slug : jstring) l :
  List.find (same_slug slug) (List.filter (fun s => negb (same_slug slug s)) l) = None.
Proof.
  induction l as [|x l IH]; simpl; [reflexivity|].
  destruct (same_slug slug x) eqn:E; simpl; [exact IH|]. now rewrite E.
Qed.

Lemma find_filter_other (slug other : jstring) l :
  other <> slug ->
  List.find (same_slug other) (List.filter (fun s => negb (same_slug slug s)) l)
  = List.find (same_slug other) l.
Proof.
  intros Hne. induction l as [|x l IH]; simpl; [reflexivity|].
  destruct (same_slug slug x) eqn:E; simpl.
  - destruct (same_slug other x) eqn:E'; [|exact IH].
    unfold same_slug in E, E'. apply bool_decide_eq_true in E, E'. congruence.
  - now rewrite IH.
Qed.

End HistoryInvariant.

(** X18. Starting from an unset key, after any saves and clears of the
    overlay the stored history has at most [MAX_STORES] stores, each with at
    most [MAX_PRODUCTS_PER_STORE] products and a slug of its own, and the
    next save finds its stores within [MAX_TOTAL_PRODUCTS] already: the loop
    that trims the largest store does not run once. *)
Theorem history_bounded (ops : list StoreHistory.Write) :
  let stored := StoreHistory.writes ops None in
  StoreHistory.bounded (StoreHistory.or_fresh stored) /\
  forall (stamp : Z) (slug : jstring) (info : json) (ps : list Product.t),
    StoreHistory.trim_step
      (StoreHistory.capped (StoreHistory.dataToSave stamp slug info ps)
         (StoreHistory.stores (StoreHistory.or_fresh stored))) = None.
Proof.
  intros stored.
  assert (Hb : StoreHistory.bounded (StoreHistory.or_fresh stored)).
  { apply writes_keep_bounded. unfold StoreHistory.bounded. simpl.
    split; [unfold StoreHistory.MAX_STORES; lia|]. split; constructor. }
  split; [exact Hb|]. intros stamp slug info ps.
  destruct Hb as (_ & Hall & Hnd).
  destruct (capped_bounded (StoreHistory.dataToSave stamp slug info ps)
              (StoreHistory.stores (StoreHistory.or_fresh stored)))
    as (Hlen & Hw & _); [apply length_take_le | exact Hall | exact Hnd |].
  apply trim_step_None. left. apply total_bound in Hw.
  unfold StoreHistory.MAX_TOTAL_PRODUCTS, StoreHistory.MAX_PRODUCTS_PER_STORE,
    StoreHistory.MAX_STORES in *. lia.
Qed.

(** X19. After [handleClearData] has written the history, the cleared store
    is not loaded any more, whatever the clock reads, and every other store
    is loaded as before. *)
Theorem clear_then_load (now : Z) (slug : jstring)
    (stored : option StoreHistory.StoreHistoryStorage) :
  StoreHistory.loadStoreFromStorage now slug (Some (StoreHistory.clearStore slug stored))
  = None /\
  forall other, other <> slug ->
    StoreHistory.loadStoreFromStorage now other
      (Some (StoreHistory.clearStore slug stored))
    = StoreHistory.loadStoreFromStorage now other stored.
Proof.
  unfold StoreHistory.loadStoreFromStorage, StoreHistory.clearStore.
  cbn [StoreHistory.or_fresh StoreHistory.stores]. split.
  - now rewrite find_filter_out.
  - intros other Hne. now rewrite find_filter_other.
Qed.

(** ** The pagination *)

Section PaginationFacts.

Import Pagination.

Lemma clickNextPage_below (button : bool) (pageCount : nat) :
  (pageCount < pauseAtPage)%nat ->
  clickNextPage button pageCount
  = if button then (S pageCount, [Click (S pageCount)], true)
    else (pageCount, [Complete], false).
Proof.
  intros Hlt. unfold clickNextPage.
  assert (Hnp : (0 <? pageCount)%nat && (pageCount mod pauseAtPage =? 0)%nat = false).
  { destruct pageCount as [|n]; [reflexivity|].
    rewrite Nat.mod_small by exact Hlt. reflexivity. }
  assert (Hm : (maxPages <=? S pageCount)%nat = false).
  { apply Nat.leb_gt. unfold maxPages, pauseAtPage in *. lia. }
  rewrite Hnp. cbn [andb]. cbv zeta. rewrite Hm. reflexivity.
Qed.

Lemma clickNextPage_pause (button : bool) :
  clickNextPage button pauseAtPage = (pauseAtPage, [ShowPauseConfirm], false).
Proof. reflexivity. Qed.

(** A closure that starts at or below the pause page clicks page after page
    up to it and no further. *)
Lemma interval_to_pause (buttons : list bool) (pageCount : nat) :
  (pageCount <= pauseAtPage)%nat ->
  let '(final, effects, set) := interval buttons pageCount in
  (final <= pauseAtPage)%nat /\
  (pageCount + clicks effects = final)%nat /\
  fold_left shown effects pageCount = final /\
  (In ShowPauseConfirm effects -> final = pauseAtPage).
Proof.
  revert pageCount. induction buttons as [|button rest IH]; intros pageCount Hle.
  - cbn [interval]. unfold clicks. cbn [List.filter length fold_left].
    split; [exact Hle|]. split; [lia|]. split; [reflexivity|]. intros [].
  - cbn [interval]. destruct (Nat.eq_dec pageCount pauseAtPage) as [->|Hne].
    + rewrite clickNextPage_pause. unfold clicks.
      cbn [List.filter is_click length fold_left shown].
      split; [lia|]. split; [lia|]. split; reflexivity.
    + rewrite clickNextPage_below by lia. destruct button.
      * specialize (IH (S pageCount) ltac:(lia)).
        destruct (interval rest (S pageCount)) as [[final later] still].
        destruct IH as (H1 & H2 & H3 & H4).
        split; [exact H1|]. split; [|split].
        -- unfold clicks in *. cbn [app List.filter is_click length]. lia.
        -- exact H3.
        -- intros [Hin|Hin]; [discriminate|now apply H4].
      * unfold clicks. cbn [List.filter is_click length fold_left shown].
        split; [lia|]. split; [lia|]. split; [reflexivity|].
        intros [Hin|[]]. discriminate.
Qed.

End PaginationFacts.

(** X20. A pagination started from page 0 never clicks past page 20: its
    clicks are as many as the page shown, at most [pauseAtPage], and once it
    has asked for confirmation the page shown is 20 and
    [handleContinuePagination] asks again at its first tick, without a click
    and without the interval left set. *)
Theorem pagination_stops_at_pause (currentPage : nat) (buttons : list bool) :
  let '(page, effects, _) := Pagination.startPagination 0 currentPage buttons in
  Pagination.clicks effects = page /\
  (page <= Pagination.pauseAtPage)%nat /\
  (In Pagination.ShowPauseConfirm effects ->
   page = Pagination.pauseAtPage /\
   forall button later,
     Pagination.handleContinuePagination page (button :: later)
     = (page, [Pagination.ShowPauseConfirm], false)).
Proof.
  unfold Pagination.startPagination. simpl.
  pose proof (interval_to_pause buttons 0 ltac:(unfold Pagination.pauseAtPage; lia)) as H.
  destruct (Pagination.interval buttons 0) as [[final effects] set].
  destruct H as (H1 & H2 & H3 & H4). rewrite H3.
  split; [exact H2|]. split; [exact H1|].
  intros Hin. specialize (H4 Hin). split; [exact H4|].
  intros button later. rewrite H4. reflexivity.
Qed.

(** ** Store pages *)

Section StorePageFacts.

Import StorePage.

(** The first piece of a split is what comes before the first separator. *)
Lemma split_first (slug rest : jstring) :
  slash ∉ slug -> (rest = [] \/ head rest = Some slash) ->
  exists more, split slash (slug ++ rest) = slug :: more.
Proof.
  intros Hno Hrest. induction slug as [|c slug IH]; simpl.
  - destruct Hrest as [->|Hrest]; [now exists []|].
    destruct rest as [|r rest]; [discriminate|]. injection Hrest as ->.
    simpl. now eexists.
  - apply not_elem_of_cons in Hno as [Hc Hno].
    destruct (N.eqb_spec c slash); [congruence|].
    destruct (IH Hno) as [more ->]. now eexists.
Qed.

Lemma split_no_slash (path piece : jstring) : piece ∈ split slash path -> slash ∉ piece.
Proof.
  revert piece. induction path as [|c path IH]; intros piece; simpl.
  - intros H. apply list_elem_of_singleton in H. subst. apply not_elem_of_nil.
  - destruct (N.eqb_spec c slash) as [->|Hne].
    + intros H. apply elem_of_cons in H as [->|H]; [apply not_elem_of_nil|auto].
    + destruct (split slash path) as [|h t].
      * intros H. apply list_elem_of_singleton in H. subst.
        apply not_elem_of_cons. split; [congruence|apply not_elem_of_nil].
      * intros H. apply elem_of_cons in H as [->|H].
        -- apply not_elem_of_cons. split; [congruence|]. apply IH. left.
        -- apply IH. now right.
Qed.

(** A prefix without a slash is looked for in the slug alone. *)
Lemma starts_with_slug (needle slug rest : jstring) :
  slash ∉ needle -> (rest = [] \/ head rest = Some slash) ->
  starts_with needle (slug ++ rest) = starts_with needle slug.
Proof.
  intros Hno Hrest. revert slug.
  induction needle as [|a needle IH]; intros slug; [now destruct (slug ++ rest), slug|].
  apply not_elem_of_cons in Hno as [Ha Hno].
  destruct slug as [|b slug]; simpl.
  - destruct Hrest as [->|Hrest]; [reflexivity|].
    destruct rest as [|r rest]; [discriminate|]. injection Hrest as ->.
    destruct (N.eqb_spec a slash); [congruence|reflexivity].
  - now rewrite IH.
Qed.

Lemma starts_with_slash (needle s : jstring) :
  starts_with (slash :: needle) (slash :: s) = starts_with needle s.
Proof. reflexivity. Qed.

End StorePageFacts.

(** X21. On a path made of a slash, a slug without slashes and then nothing
    or a further slash, [getShopSlug] is the slug, and [isStorePage] holds
    exactly when the slug is not empty, is not a known route and does not
    begin with "product", "cart" or "verify". Whenever [isStorePage] holds
    of a path at all, its slug is not empty, has no slash and is no known
    route. *)
Theorem store_page_slug (slug rest : jstring) :
  StorePage.slash ∉ slug -> (rest = [] \/ head rest = Some StorePage.slash) ->
  let path := StorePage.slash :: slug ++ rest in
  StorePage.getShopSlug path = slug /\
  (StorePage.isStorePage path = true <->
   slug <> [] /\ (slug ∉ StorePage.knownRoutes) /\ StorePage.reserved slug = false) /\
  (forall any, StorePage.isStorePage any = true ->
     StorePage.getShopSlug any <> [] /\
     (StorePage.slash ∉ StorePage.getShopSlug any) /\
     (StorePage.getShopSlug any ∉ StorePage.knownRoutes)).
Proof.
  intros Hno Hrest path.
  destruct (split_first slug rest Hno Hrest) as [more Hsplit].
  assert (Hseg : StorePage.segment path = Some slug).
  { unfold StorePage.segment, path. simpl. now rewrite Hsplit. }
  assert (Hslug : StorePage.getShopSlug path = slug).
  { unfold StorePage.getShopSlug. rewrite Hseg. now destruct slug. }
  split; [exact Hslug|]. split.
  - unfold StorePage.isStorePage. rewrite Hseg.
    assert (Hres : starts_with (js "/product") path || starts_with (js "/cart") path
                   || starts_with (js "/verify") path = StorePage.reserved slug).
    { unfold path, StorePage.reserved.
      change (js "/product") with (StorePage.slash :: js "product").
      change (js "/cart") with (StorePage.slash :: js "cart").
      change (js "/verify") with (StorePage.slash :: js "verify").
      rewrite !starts_with_slash.
      rewrite !starts_with_slug; auto; vm_compute; intros H;
        repeat (apply elem_of_cons in H as [H|H]; [discriminate|]); inversion H. }
    rewrite Hres. destruct (StorePage.reserved slug).
    + split; [discriminate|]. intros (_ & _ & H). discriminate.
    + destruct slug as [|c r].
      * split; [discriminate|]. intros (H & _). contradiction.
      * rewrite negb_true_iff, bool_decide_eq_false. split.
        -- intros H. split; [discriminate|]. split; [exact H|reflexivity].
        -- intros (_ & H & _). exact H.
  - intros any. unfold StorePage.isStorePage, StorePage.getShopSlug.
    destruct (_ || _); [discriminate|].
    destruct (StorePage.segment any) as [[|c r]|] eqn:E; try discriminate.
    rewrite negb_true_iff, bool_decide_eq_false. intros H. simpl.
    split; [discriminate|]. split; [|exact H].
    apply (split_no_slash any). unfold StorePage.segment in E.
    eapply list_elem_of_lookup_2, E.
Qed.

(** X21 on the path of a shop's product list. *)
Lemma store_page_slug_witness :
  StorePage.getShopSlug (js "/toko.official/list") = js "toko.official" /\
  StorePage.isStorePage (js "/toko.official/list") = true.
Proof.
  assert (Hno : StorePage.slash ∉ js "toko.official").
  { vm_compute. intros H.
    repeat (apply elem_of_cons in H as [H|H]; [discriminate|]). inversion H. }
  pose proof (store_page_slug (js "toko.official") (js "/list") Hno
                (or_intror eq_refl)) as H.
  cbv zeta in H. destruct H as (H1 & H2 & _).
  split; [exact H1|]. apply H2. split; [discriminate|]. split; [|reflexivity].
  vm_compute. intros H.
  repeat (apply elem_of_cons in H as [H|H]; [discriminate|]). inversion H.
Defined.

(** X20 with a next button at every tick. *)
Lemma pagination_stops_at_pause_witness :
  Pagination.clicks (Pagination.startPagination 0 0 (repeat true 30)).1.2 = 20%nat /\
  Pagination.handleContinuePagination 20 [true; true]
  = (20%nat, [Pagination.ShowPauseConfirm], false).
Proof.
  pose proof (pagination_stops_at_pause 0 (repeat true 30)) as H.
  destruct (Pagination.startPagination 0 0 (repeat true 30)) as [[page effects] set] eqn:E.
  destruct H as (H1 & _ & H3).
  assert (Hin : In Pagination.ShowPauseConfirm effects).
  { vm_compute in E. injection E as _ <- _. do 20 right. left. reflexivity. }
  destruct (H3 Hin) as [Hp Hc]. split.
  - cbn [fst snd]. rewrite H1. exact Hp.
  - rewrite Hp in Hc. apply Hc.
Defined.
